(** * The progressive multi-resolution trainer of [thre3d_atom]

    A shallow embedding of
    [thre3d_atom/modules/trainers.py::train_sh_vox_grid_vol_mod_with_posed_images]
    and the properties of its stage / iteration schedule.

    The procedure is one long imperative function.  It is embedded as a
    program of a small state-and-exception monad [M]: the state is the
    Python heap holding the [VolumetricModel] objects, the state of the
    data source, and the trace of calls made to the outside world
    (tensorboard, console, disk, renderer, optimizer).  Tensors, rays, the
    renderer, the losses and the optimizer are collaborators that live
    outside the file; they are the fields of the classes [Domains] and
    [Collaborators].

    The file has three parts: the embedding (Python values, the
    collaborators, the procedure, and the schedule that a completed run
    follows), a small instance on which the procedure can be run, and the
    proofs. *)

From Stdlib Require Import ZArith Floats Ascii.
From stdpp Require Import base option list gmap strings pretty.

Open Scope string_scope.
Open Scope list_scope.
Open Scope Z_scope.

(** ** Python values used by the trainer *)

(** The exceptions that the procedure itself can raise.  [InvalidReference]
    is not a Python exception: it stands for a reference that designates no
    object of the heap, which no Python caller can pass. *)
Inductive Error : Type :=
| AssertionError (msg : string)
| IndexError
| ZeroDivisionError
| ValueError
| AttributeError
| InvalidReference.

(** [a % b] on Python integers: the result has the sign of the divisor and a
    zero divisor raises. [Z.modulo] has the same sign convention. *)
Definition py_mod (a b : Z) : Error + Z :=
  if b =? 0 then inl ZeroDivisionError else inr (a mod b).

(** [l[i]] on a Python list, negative indices counted from the end. *)
Definition py_index {A} (l : list A) (i : Z) : Error + A :=
  let j := if i <? 0 then i + Z.of_nat (length l) else i in
  if j <? 0 then inl IndexError
  else match l !! Z.to_nat j with
       | Some x => inr x
       | None => inl IndexError
       end.

(** [range(1, n + 1)] *)
Definition range1 (n : Z) : list Z := seqZ 1 n.

(** A grid resolution, the tuple [grid_dims]. *)
Definition GridDims : Type := Z * Z * Z.

(** The two fields of [CameraIntrinsics] that the trainer reads. *)
Record CameraIntrinsics := {
  height : Z;
  width : Z
}.

(** [vol_mod.render_procedure] is compared with [render_sh_voxel_grid]. *)
Inductive RenderProcedure :=
| render_sh_voxel_grid
| other_render_procedure (name : string).

Definition RenderProcedure_eqb (a b : RenderProcedure) : bool :=
  match a, b with
  | render_sh_voxel_grid, render_sh_voxel_grid => true
  | other_render_procedure x, other_render_procedure y => bool_decide (x = y)
  | _, _ => false
  end.

(** References to heap objects. *)
Definition loc := positive.

(** A [torch.utils.data.DataLoader], reduced to what [len] needs. *)
Record DataLoader := {
  dl_num_samples : Z;
  dl_batch_size : Z;
  dl_drop_last : bool
}.

(** The constructor rejects a non-positive [batch_size] and a negative
    [num_workers] with [ValueError]. *)
Definition make_dataloader (num_samples batch_size : Z) (drop_last : bool)
    (workers : Z) : Error + DataLoader :=
  if (batch_size <=? 0) || (workers <? 0) then inl ValueError
  else inr {| dl_num_samples := num_samples;
              dl_batch_size := batch_size;
              dl_drop_last := drop_last |}.

(** [len(DataLoader)]: the number of batches, the last partial batch being
    dropped with [drop_last=True]. *)
Definition dataloader_len (dl : DataLoader) : Z :=
  if dl_drop_last dl
  then dl_num_samples dl / dl_batch_size dl
  else (dl_num_samples dl + dl_batch_size dl - 1) / dl_batch_size dl.

(** [num / den] on Python integers (true division). The quotient is kept as
    the exact fraction; a zero divisor raises. *)
Definition py_true_div (num den : Z) : Error + (Z * Z) :=
  if den =? 0 then inl ZeroDivisionError else inr (num, den).

(** A value handed to [tensorboard_writer.add_scalar]: either a tensor
    computed by the collaborators, or the quotient of two Python integers
    ([/] is true division; the quotient is kept exact as a fraction). *)
Inductive SummaryValue (Tensor : Type) :=
| TensorValue (t : Tensor)
| Quotient (num den : Z).
Arguments TensorValue {Tensor} t.
Arguments Quotient {Tensor} num den.

(** A call to the outside world, without the tensors, poses and snapshots
    that it carries. *)
Inductive Call :=
| CScaleGrid (output_size : GridDims) (mode : string)
| CRandomInit (field : string)
| CWriteImage (name : string)
| CVisualizeCameraRays
| CAdam (stage : Z)
| COptimizerStep (stage stage_iteration : Z)
| CAddScalar (name : string) (global_step : Z)
| CLossInfo (stage global_step stage_iteration : Z) (with_diffuse : bool)
| CLrSchedulerStep (stage stage_iteration : Z)
| CRenderedFeedback (global_step : Z) (log_diffuse_rendered_version : bool)
| CTest (global_step : Z)
| CTorchSave (file : string).

(** ** Collaborators *)

(** The values that the collaborators exchange with the trainer. *)
Class Domains := {
  Tensor : Type;
  Rays : Type;
  Pixels : Type;
  Images : Type;
  PoseMatrix : Type;
  CameraPose : Type;
  CameraBounds : Type;
  ScaleFactor : Type;
  OtherRepr : Type;
  Env : Type;
  Optimizer : Type;
  Parameters : Type
}.

Section Objects.
Context `{Domains}.

(** [VoxelGrid]: the fields the trainer touches. *)
Record VoxelGrid := {
  grid_dims : GridDims;
  densities : Tensor;
  features : Tensor
}.

(** [vol_mod.thre3d_repr] is tested with [isinstance(_, VoxelGrid)]. *)
Inductive Thre3dRepr :=
| VoxelGridRepr (g : VoxelGrid)
| NotAVoxelGrid (o : OtherRepr).

Record VolumetricModel := {
  thre3d_repr : Thre3dRepr;
  render_procedure : RenderProcedure
}.

(** [PosedImagesDataset]: indexable samples [(image, pose)] and the
    constants read from it. *)
Record PosedImagesDataset := {
  samples : list (Images * PoseMatrix);
  camera_intrinsics : CameraIntrinsics;
  camera_bounds : CameraBounds;
  cached_data_mode : bool;
  hemispherical_radius_estimate : Tensor
}.
End Objects.

(** The functions of the repository and of PyTorch that the trainer calls. *)
Class Collaborators `{Domains} := {
  (** [VoxelGrid.parameters()]. The class is not part of this file, and
      neither is the kind of object that the call returns: [Parameters]. *)
  parameters : VoxelGrid -> Parameters;
  (** [bool(p)], which [assert p] tests. *)
  truth_value : Parameters -> bool;
  (** [list(p)], the parameters that an optimizer built on [p] updates. *)
  parameter_list : Parameters -> list Tensor;

  (** [compute_thre3d_grid_sizes(final_required_resolution, num_stages,
      scale_factor)]; it may raise. *)
  compute_thre3d_grid_sizes : GridDims -> Z -> ScaleFactor -> Error + list GridDims;

  (** [scale_voxel_grid_with_required_output_size(grid, output_size, mode)] *)
  scale_voxel_grid_with_required_output_size : VoxelGrid -> GridDims -> string -> VoxelGrid;

  (** [CameraPose(rotation=pose[:, :3], translation=pose[:, 3:])] *)
  camera_pose_of : PoseMatrix -> CameraPose;

  (** The data source: [next(infinite_train_dl)] and the synchronous random
      choice of rays and pixels both advance a hidden state. *)
  next_batch : Env -> Env * (Images * list PoseMatrix);
  cast_rays : CameraIntrinsics -> CameraPose -> Rays;
  flatten_rays : Rays -> Rays;
  collate_rays : list Rays -> Rays;
  pixels_of_images : Images -> Pixels;
  sample_random_rays_and_pixels_synchronously :
    Env -> Rays -> Pixels -> Z -> Env * (Rays * Pixels);

  (** [vol_mod.render_rays(rays, render_diffuse=...).colour] *)
  render_rays : VolumetricModel -> Rays -> bool -> Pixels;

  l1_loss : Pixels -> Pixels -> Tensor;
  mse_loss : Pixels -> Pixels -> Tensor;
  mse2psnr : Tensor -> Tensor;
  tensor_add : Tensor -> Tensor -> Tensor;

  (** [gamma ** (stage - 1)] on floats. *)
  float_pow : float -> Z -> float;

  (** [torch.optim.Adam(params=[{params, lr}], betas=(0.9, 0.999))] *)
  Adam : Parameters -> float -> Optimizer;
  (** [zero_grad(); total_loss.backward(); optimizer.step()]: the step writes
      new values into the tensors of the grid, where they are; it assigns no
      attribute of the grid. The result is the optimizer after the step and
      the new densities and features. *)
  backward_and_step : Optimizer -> Tensor -> VoxelGrid -> Optimizer * (Tensor * Tensor);
  (** [ExponentialLR(optimizer, gamma).step()] *)
  lr_scheduler_step : float -> Optimizer -> Optimizer
}.

Section Trainer.
Context `{Collaborators}.

(** ** The arguments of the procedure *)

Record TrainArgs := {
  train_dataset : PosedImagesDataset;
  (** [random_initializer(t)] is called for what it does to the tensor [t];
      the value it returns is dropped (lines 134-135).  The field gives the
      contents that the call leaves in the tensor it is given: the values
      drawn for an initializer that writes in place, as the default
      [torch.nn.init.uniform_] does, and the contents as they were for a
      function that leaves its argument alone. *)
  random_initializer : Tensor -> Tensor;
  test_dataset : option PosedImagesDataset;
  image_batch_cache_size : Z;
  ray_batch_size : Z;
  num_stages : Z;
  num_iterations_per_stage : Z;
  scale_factor : ScaleFactor;
  learning_rate : float;
  lr_decay_gamma_per_stage : float;
  lr_decay_steps_per_stage : Z;
  stagewise_lr_decay_gamma : float;
  render_feedback_pose : option CameraPose;
  save_freq : Z;
  test_freq : Z;
  feedback_freq : Z;
  summary_freq : Z;
  apply_diffuse_render_regularization : bool;
  num_workers : Z;
  verbose_rendering : bool;
  fast_debug_mode : bool
}.

(** ** Calls to the outside world

    One constructor for each call whose occurrence a property below speaks
    of: the resize of the grid (lines 128 and 454), [random_initializer]
    (134-135), [imageio.imwrite] (203), [visualize_camera_rays] (223),
    [torch.optim.Adam] (243), the gradient step (334-336), [add_scalar]
    (358), the console line of losses (381), [lr_scheduler.step] (385), the
    rendered feedback (398), the test procedure (420) and [torch.save] (437
    and 463). The creation of directories, of the tensorboard writer and the
    other console lines are left out. *)

Inductive Event :=
| EvScaleGrid (output_size : GridDims) (mode : string)
| EvRandomInit (field : string)
| EvWriteImage (name : string)
| EvVisualizeCameraRays
| EvAdam (stage : Z) (params : list Tensor) (lr : float)
| EvOptimizerStep (stage stage_iteration : Z) (total_loss : Tensor)
| EvAddScalar (name : string) (value : SummaryValue Tensor) (global_step : Z)
| EvLossInfo (stage global_step stage_iteration : Z) (with_diffuse : bool)
| EvLrSchedulerStep (stage stage_iteration : Z)
| EvRenderedFeedback (pose : CameraPose) (global_step : Z)
                     (log_diffuse_rendered_version : bool)
| EvTest (global_step : Z)
| EvTorchSave (file : string) (snapshot : VolumetricModel).

(** ** The state and the monad *)

Record World := {
  heap : gmap loc VolumetricModel;
  env : Env;
  trace : list Event
}.

Definition M (A : Type) : Type := World -> World * (Error + A).

Definition ret {A} (a : A) : M A := fun w => (w, inr a).

Definition bind {A B} (m : M A) (k : A -> M B) : M B :=
  fun w =>
    match m w with
    | (w', inr a) => k a w'
    | (w', inl e) => (w', inl e)
    end.

Definition raise {A} (e : Error) : M A := fun w => (w, inl e).

Definition lift {A} (r : Error + A) : M A :=
  match r with
  | inl e => raise e
  | inr a => ret a
  end.

Definition emit (e : Event) : M unit :=
  fun w => ({| heap := heap w; env := env w; trace := trace w ++ [e] |}, inr tt).

Definition assert (b : bool) (msg : string) : M unit :=
  if b then ret tt else raise (AssertionError msg).

Definition when (b : bool) (m : M unit) : M unit :=
  if b then m else ret tt.

Fixpoint foldM {A S} (l : list A) (body : A -> S -> M S) (s : S) : M S :=
  match l with
  | [] => ret s
  | x :: l' => bind (body x s) (fun s' => foldM l' body s')
  end.

Definition for_each {A} (l : list A) (body : A -> M unit) : M unit :=
  foldM l (fun x _ => body x) tt.

Notation "'let!' x ':=' m 'in' k" := (bind m (fun x => k))
  (at level 10, x pattern, m at level 200, k at level 200).
Notation "m '>>' k" := (bind m (fun _ => k))
  (at level 90, right associativity).

(** ** Heap accesses *)

Definition read_model (vol_mod : loc) : M VolumetricModel :=
  fun w =>
    match heap w !! vol_mod with
    | Some m => (w, inr m)
    | None => (w, inl InvalidReference)
    end.

(** [vol_mod.thre3d_repr], used as a [VoxelGrid]. *)
Definition get_voxel_grid (vol_mod : loc) : M VoxelGrid :=
  let! m := read_model vol_mod in
  match thre3d_repr m with
  | VoxelGridRepr g => ret g
  | NotAVoxelGrid _ => raise AttributeError
  end.

Definition with_thre3d_repr (g : VoxelGrid) (m : VolumetricModel) : VolumetricModel :=
  {| thre3d_repr := VoxelGridRepr g; render_procedure := render_procedure m |}.

(** [vol_mod.thre3d_repr = g]: the object is updated where it is. *)
Definition set_thre3d_repr (vol_mod : loc) (g : VoxelGrid) : M unit :=
  fun w =>
    ({| heap := alter (with_thre3d_repr g) vol_mod (heap w);
        env := env w;
        trace := trace w |}, inr tt).

Definition with_env {A} (f : Env -> Env * A) : M A :=
  fun w =>
    let (e, a) := f (env w) in
    ({| heap := heap w; env := e; trace := trace w |}, inr a).

(** ** Before the loop (lines 108-231) *)

(** The two assertions on the model. *)
Definition check_model (vol_mod : loc) : M VoxelGrid :=
  let! m := read_model vol_mod in
  match thre3d_repr m with
  | NotAVoxelGrid _ =>
      raise (AssertionError "sorry, cannot use this representation with this TrainProcedure")
  | VoxelGridRepr g =>
      assert (RenderProcedure_eqb (render_procedure m) render_sh_voxel_grid)
             "sorry, non SH-based VoxelGrids cannot be used with this TrainProcedure" >>
      ret g
  end.

(** The downscale to the smallest size, followed by the two calls of
    [random_initializer] on the densities and on the features of the new
    grid.  The calls assign no attribute: each tensor of the grid holds
    afterwards what the call left in it. *)
Definition downscale_and_reinitialize (a : TrainArgs) (vol_mod : loc)
    (stagewise_voxel_grid_sizes : list GridDims) : M unit :=
  let! g := get_voxel_grid vol_mod in
  let! size0 := lift (py_index stagewise_voxel_grid_sizes 0) in
  emit (EvScaleGrid size0 "trilinear") >>
  set_thre3d_repr vol_mod
    (scale_voxel_grid_with_required_output_size g size0 "trilinear") >>
  let! g := get_voxel_grid vol_mod in
  emit (EvRandomInit "densities") >>
  set_thre3d_repr vol_mod
    {| grid_dims := grid_dims g;
       densities := random_initializer a (densities g);
       features := features g |} >>
  let! g := get_voxel_grid vol_mod in
  emit (EvRandomInit "features") >>
  set_thre3d_repr vol_mod
    {| grid_dims := grid_dims g;
       densities := densities g;
       features := random_initializer a (features g) |}.

(** The feedback pose and, when it is derived from a dataset, the real
    image that goes with it. *)
Definition setup_render_feedback_pose (a : TrainArgs)
    : Error + (CameraPose * option Images) :=
  match render_feedback_pose a with
  | Some pose => inr (pose, None)
  | None =>
      let feedback_dataset := default (train_dataset a) (test_dataset a) in
      match py_index (samples feedback_dataset) 0 with
      | inl e => inl e
      | inr s => inr (camera_pose_of (snd s), Some (fst s))
      end
  end.

Definition effective_workers (a : TrainArgs) (d : PosedImagesDataset) : Z :=
  if cached_data_mode d then 0 else num_workers a.

Definition setup_dataloaders (a : TrainArgs) : Error + (DataLoader * option DataLoader) :=
  let d := train_dataset a in
  match make_dataloader (Z.of_nat (length (samples d)))
          (image_batch_cache_size a) true (effective_workers a d) with
  | inl e => inl e
  | inr train_dl =>
      match test_dataset a with
      | None => inr (train_dl, None)
      | Some t =>
          match make_dataloader (Z.of_nat (length (samples t))) 1 false
                  (effective_workers a t) with
          | inl e => inl e
          | inr test_dl => inr (train_dl, Some test_dl)
          end
      end
  end.

(** [dataset_size], lines 182-187. *)
Definition dataset_size (a : TrainArgs) (train_dl : DataLoader) : Z :=
  dataloader_len train_dl
  * height (camera_intrinsics (train_dataset a))
  * width (camera_intrinsics (train_dataset a)).

(** What the loop needs from the set-up. *)
Record Setup := {
  stagewise_voxel_grid_sizes : list GridDims;
  feedback_pose : CameraPose;
  train_dl : DataLoader;
  test_dl : option DataLoader
}.

Definition initialize (a : TrainArgs) (vol_mod : loc) : M Setup :=
  let! g := check_model vol_mod in
  let! sizes :=
    lift (compute_thre3d_grid_sizes (grid_dims g) (num_stages a) (scale_factor a)) in
  downscale_and_reinitialize a vol_mod sizes >>
  let! (pose, real_feedback_image) := lift (setup_render_feedback_pose a) in
  let! (train_dl, test_dl) := lift (setup_dataloaders a) in
  when (bool_decide (is_Some real_feedback_image))
       (emit (EvWriteImage "1__real_log.png")) >>
  when (negb (fast_debug_mode a)) (emit EvVisualizeCameraRays) >>
  ret {| stagewise_voxel_grid_sizes := sizes;
         feedback_pose := pose;
         train_dl := train_dl;
         test_dl := test_dl |}.

(** ** One iteration (lines 266-446) *)

(** The values kept for logging after the gradient step. *)
Record Losses := {
  specular_loss_value : Tensor;
  specular_psnr_value : Tensor;
  diffuse_loss_value : option Tensor;
  diffuse_psnr_value : option Tensor;
  total_loss : Tensor
}.

(** Lines 306-331: the losses of a rendered batch. *)
Definition compute_losses (a : TrainArgs) (m : VolumetricModel)
    (rays_batch : Rays) (pixels_batch : Pixels) : Losses :=
  let specular_rendered_pixels_batch := render_rays m rays_batch false in
  let total_loss := l1_loss specular_rendered_pixels_batch pixels_batch in
  let specular_loss_value := total_loss in
  let specular_psnr_value :=
    mse2psnr (mse_loss specular_rendered_pixels_batch pixels_batch) in
  if apply_diffuse_render_regularization a then
    let diffuse_rendered_pixels_batch := render_rays m rays_batch true in
    let diffuse_loss := l1_loss diffuse_rendered_pixels_batch pixels_batch in
    {| specular_loss_value := specular_loss_value;
       specular_psnr_value := specular_psnr_value;
       diffuse_loss_value := Some diffuse_loss;
       diffuse_psnr_value :=
         Some (mse2psnr (mse_loss diffuse_rendered_pixels_batch pixels_batch));
       total_loss := tensor_add total_loss diffuse_loss |}
  else
    {| specular_loss_value := specular_loss_value;
       specular_psnr_value := specular_psnr_value;
       diffuse_loss_value := None;
       diffuse_psnr_value := None;
       total_loss := total_loss |}.

(** Lines 270-336: sample, render, compute the losses, update. *)
Definition optimization_step (a : TrainArgs) (vol_mod : loc)
    (stage stage_iteration : Z) (optimizer : Optimizer) : M (Optimizer * Losses) :=
  let! (images, poses) := with_env next_batch in
  let rays :=
    collate_rays
      (map (fun pose =>
              flatten_rays
                (cast_rays (camera_intrinsics (train_dataset a)) (camera_pose_of pose)))
           poses) in
  let pixels := pixels_of_images images in
  let! (rays_batch, pixels_batch) :=
    with_env (fun e =>
      sample_random_rays_and_pixels_synchronously e rays pixels (ray_batch_size a)) in
  let! m := read_model vol_mod in
  let losses := compute_losses a m rays_batch pixels_batch in
  let! g := get_voxel_grid vol_mod in
  emit (EvOptimizerStep stage stage_iteration (total_loss losses)) >>
  let '(optimizer', (densities', features')) :=
    backward_and_step optimizer (total_loss losses) g in
  set_thre3d_repr vol_mod
    {| grid_dims := grid_dims g; densities := densities'; features := features' |} >>
  ret (optimizer', losses).

(** Line 341. *)
Definition global_step_of (a : TrainArgs) (stage stage_iteration : Z) : Z :=
  ((stage - 1) * num_iterations_per_stage a) + stage_iteration.

(** [global_step % freq == 0 or stage_iteration == 1 or stage_iteration ==
    num_iterations_per_stage]; the modulo is evaluated first. *)
Definition periodic_or_first_or_last (a : TrainArgs) (freq global_step stage_iteration : Z)
    : M bool :=
  let! r := lift (py_mod global_step freq) in
  ret ((r =? 0) || (stage_iteration =? 1)
       || (stage_iteration =? num_iterations_per_stage a)).

Definition add_scalar (global_step : Z) (summary : string * option (SummaryValue Tensor))
    : M unit :=
  match snd summary with
  | Some summary_value => emit (EvAddScalar (fst summary) summary_value global_step)
  | None => ret tt
  end.

(** The tuple of summaries of lines 349-356. *)
Definition summaries (l : Losses) (num_epochs : Z * Z)
    : list (string * option (SummaryValue Tensor)) :=
  [ ("specular_loss", Some (TensorValue (specular_loss_value l)));
    ("diffuse_loss", TensorValue <$> diffuse_loss_value l);
    ("specular_psnr", Some (TensorValue (specular_psnr_value l)));
    ("diffuse_psnr", TensorValue <$> diffuse_psnr_value l);
    ("total_loss", Some (TensorValue (total_loss l)));
    ("num_epochs", Some (Quotient (fst num_epochs) (snd num_epochs))) ].

(** Lines 343-360. The tuple of summaries is built before it is iterated. *)
Definition tensorboard_summaries (a : TrainArgs) (s : Setup)
    (global_step stage_iteration : Z) (l : Losses) : M unit :=
  let! b := periodic_or_first_or_last a (summary_freq a) global_step stage_iteration in
  when b
    (let! q := lift (py_true_div (ray_batch_size a * global_step)
                                 (dataset_size a (train_dl s))) in
     for_each (summaries l q) (add_scalar global_step)).

(** Lines 362-381. *)
Definition console_loss_feedback (a : TrainArgs)
    (stage global_step stage_iteration : Z) : M unit :=
  let! b := periodic_or_first_or_last a (summary_freq a) global_step stage_iteration in
  when b
    (emit (EvLossInfo stage global_step stage_iteration
                      (apply_diffuse_render_regularization a))).

(** Lines 383-388. *)
Definition step_lr_scheduler (a : TrainArgs) (stage stage_iteration : Z)
    (optimizer : Optimizer) : M Optimizer :=
  let! r := lift (py_mod stage_iteration (lr_decay_steps_per_stage a)) in
  if r =? 0 then
    emit (EvLrSchedulerStep stage stage_iteration) >>
    ret (lr_scheduler_step (lr_decay_gamma_per_stage a) optimizer)
  else ret optimizer.

(** Lines 390-409. *)
Definition rendered_feedback (a : TrainArgs) (s : Setup)
    (global_step stage_iteration : Z) : M unit :=
  let! b := periodic_or_first_or_last a (feedback_freq a) global_step stage_iteration in
  when b (emit (EvRenderedFeedback (feedback_pose s) global_step true)).

(** Lines 411-426: [and] and [or] evaluate their operands left to right and
    stop as soon as the result is known. *)
Definition test_metrics (a : TrainArgs) (s : Setup)
    (global_step stage_iteration : Z) : M unit :=
  if bool_decide (is_Some (test_dl s)) && negb (fast_debug_mode a) then
    let! r := lift (py_mod global_step (test_freq a)) in
    when ((r =? 0) || (stage_iteration =? num_iterations_per_stage a))
         (emit (EvTest global_step))
  else ret tt.

Definition snapshot_file (stage global_step : Z) : string :=
  "model_stage_" +:+ pretty stage +:+ "_iter_" +:+ pretty global_step +:+ ".pth".

(** Lines 428-446. *)
Definition save_model (a : TrainArgs) (vol_mod : loc)
    (stage global_step stage_iteration : Z) : M unit :=
  let! b := periodic_or_first_or_last a (save_freq a) global_step stage_iteration in
  when b
    (let! m := read_model vol_mod in
     emit (EvTorchSave (snapshot_file stage global_step) m)).

Definition iteration (a : TrainArgs) (s : Setup) (vol_mod : loc) (stage : Z)
    (stage_iteration : Z) (optimizer : Optimizer) : M Optimizer :=
  let! (optimizer, losses) :=
    optimization_step a vol_mod stage stage_iteration optimizer in
  let global_step := global_step_of a stage stage_iteration in
  tensorboard_summaries a s global_step stage_iteration losses >>
  console_loss_feedback a stage global_step stage_iteration >>
  let! optimizer := step_lr_scheduler a stage stage_iteration optimizer in
  rendered_feedback a s global_step stage_iteration >>
  test_metrics a s global_step stage_iteration >>
  save_model a vol_mod stage global_step stage_iteration >>
  ret optimizer.

(** ** One stage (lines 236-458) *)

(** The truth value of a Python list: whether it has an element. *)
Definition is_truthy {A} (l : list A) : bool :=
  match l with
  | [] => false
  | _ :: _ => true
  end.

Definition upsample (s : Setup) (vol_mod : loc) (stage : Z) : M unit :=
  let! g := get_voxel_grid vol_mod in
  let! size := lift (py_index (stagewise_voxel_grid_sizes s) stage) in
  emit (EvScaleGrid size "trilinear") >>
  set_thre3d_repr vol_mod
    (scale_voxel_grid_with_required_output_size g size "trilinear").

Definition train_stage (a : TrainArgs) (s : Setup) (vol_mod : loc) (stage : Z) : M unit :=
  let current_stage_lr :=
    (learning_rate a * float_pow (stagewise_lr_decay_gamma a) (stage - 1))%float in
  let! g := get_voxel_grid vol_mod in
  let optimizeable_parameters := parameters g in
  assert (truth_value optimizeable_parameters)
         "No optimizeable parameters :(. Nothing will happen" >>
  emit (EvAdam stage (parameter_list optimizeable_parameters) current_stage_lr) >>
  let optimizer := Adam optimizeable_parameters current_stage_lr in
  let! _ := foldM (range1 (num_iterations_per_stage a))
                  (iteration a s vol_mod stage) optimizer in
  when (negb (stage =? num_stages a)) (upsample s vol_mod stage).

(** ** The procedure *)

Definition train_sh_vox_grid_vol_mod_with_posed_images
    (vol_mod : loc) (a : TrainArgs) : M loc :=
  let! s := initialize a vol_mod in
  for_each (range1 (num_stages a)) (train_stage a s vol_mod) >>
  let! m := read_model vol_mod in
  emit (EvTorchSave "model_final.pth" m) >>
  ret vol_mod.

(** ** The schedule of calls

    What a run that completes calls, in order, as a function of the
    arguments alone. [train_schedule] proves that the procedure follows it. *)

Definition erase (e : Event) : Call :=
  match e with
  | EvScaleGrid sz mode => CScaleGrid sz mode
  | EvRandomInit f => CRandomInit f
  | EvWriteImage n => CWriteImage n
  | EvVisualizeCameraRays => CVisualizeCameraRays
  | EvAdam stage _ _ => CAdam stage
  | EvOptimizerStep stage i _ => COptimizerStep stage i
  | EvAddScalar n _ g => CAddScalar n g
  | EvLossInfo stage g i d => CLossInfo stage g i d
  | EvLrSchedulerStep stage i => CLrSchedulerStep stage i
  | EvRenderedFeedback _ g d => CRenderedFeedback g d
  | EvTest g => CTest g
  | EvTorchSave f _ => CTorchSave f
  end.

Definition calls (w : World) : list Call := map erase (trace w).

Definition trigger (a : TrainArgs) (freq global_step stage_iteration : Z) : bool :=
  (global_step mod freq =? 0) || (stage_iteration =? 1)
  || (stage_iteration =? num_iterations_per_stage a).

Definition scalar_names (a : TrainArgs) : list string :=
  if apply_diffuse_render_regularization a
  then ["specular_loss"; "diffuse_loss"; "specular_psnr"; "diffuse_psnr";
        "total_loss"; "num_epochs"]
  else ["specular_loss"; "specular_psnr"; "total_loss"; "num_epochs"].

Definition schedule_summaries (a : TrainArgs) (stage i : Z) : list Call :=
  let g := global_step_of a stage i in
  if trigger a (summary_freq a) g i
  then map (fun name => CAddScalar name g) (scalar_names a)
       ++ [CLossInfo stage g i (apply_diffuse_render_regularization a)]
  else [].

Definition schedule_lr (a : TrainArgs) (stage i : Z) : list Call :=
  if i mod lr_decay_steps_per_stage a =? 0 then [CLrSchedulerStep stage i] else [].

Definition schedule_feedback (a : TrainArgs) (stage i : Z) : list Call :=
  let g := global_step_of a stage i in
  if trigger a (feedback_freq a) g i then [CRenderedFeedback g true] else [].

Definition schedule_test (a : TrainArgs) (stage i : Z) : list Call :=
  let g := global_step_of a stage i in
  if bool_decide (is_Some (test_dataset a)) && negb (fast_debug_mode a)
     && ((g mod test_freq a =? 0) || (i =? num_iterations_per_stage a))
  then [CTest g] else [].

Definition schedule_save (a : TrainArgs) (stage i : Z) : list Call :=
  let g := global_step_of a stage i in
  if trigger a (save_freq a) g i then [CTorchSave (snapshot_file stage g)] else [].

Definition schedule_iteration (a : TrainArgs) (stage i : Z) : list Call :=
  COptimizerStep stage i
  :: schedule_summaries a stage i
  ++ schedule_lr a stage i
  ++ schedule_feedback a stage i
  ++ schedule_test a stage i
  ++ schedule_save a stage i.

Definition schedule_scale (sizes : list GridDims) (index : Z) : list Call :=
  match py_index sizes index with
  | inr size => [CScaleGrid size "trilinear"]
  | inl _ => []
  end.

Definition schedule_stage (a : TrainArgs) (sizes : list GridDims) (stage : Z) : list Call :=
  CAdam stage
  :: flat_map (schedule_iteration a stage) (range1 (num_iterations_per_stage a))
  ++ (if stage =? num_stages a then [] else schedule_scale sizes stage).

Definition schedule_setup (a : TrainArgs) (sizes : list GridDims) : list Call :=
  schedule_scale sizes 0
  ++ [CRandomInit "densities"; CRandomInit "features"]
  ++ (if bool_decide (is_Some (render_feedback_pose a)) then []
      else [CWriteImage "1__real_log.png"])
  ++ (if fast_debug_mode a then [] else [CVisualizeCameraRays]).

Definition schedule (a : TrainArgs) (sizes : list GridDims) : list Call :=
  schedule_setup a sizes
  ++ flat_map (schedule_stage a sizes) (range1 (num_stages a))
  ++ [CTorchSave "model_final.pth"].

(** ** Readings of a sequence of calls *)

(** The iterations performed, in order. *)
Definition optimizer_steps (cs : list Call) : list (Z * Z) :=
  omap (fun c => match c with
                 | COptimizerStep stage i => Some (stage, i)
                 | _ => None
                 end) cs.

(** The value of [global_step] in each iteration performed. *)
Definition iteration_clock (a : TrainArgs) (cs : list Call) : list Z :=
  map (fun si => global_step_of a (fst si) (snd si)) (optimizer_steps cs).

(** [c] is a call of iteration [i] of [stage], keyed by the global step of
    that iteration. *)
Definition keyed_by (a : TrainArgs) (stage i : Z) (c : Call) : Prop :=
  let g := global_step_of a stage i in
  match c with
  | COptimizerStep stage' i' => stage' = stage /\ i' = i
  | CAddScalar _ g' => g' = g
  | CLossInfo stage' g' i' _ => stage' = stage /\ g' = g /\ i' = i
  | CLrSchedulerStep stage' i' => stage' = stage /\ i' = i
  | CRenderedFeedback g' _ => g' = g
  | CTest g' => g' = g
  | CTorchSave file => file = snapshot_file stage g
  | _ => False
  end.

(** The global step that a call of the dispatcher is made with. *)
Definition event_key (e : Event) : option Z :=
  match e with
  | EvAddScalar _ _ g => Some g
  | EvLossInfo _ g _ _ => Some g
  | EvRenderedFeedback _ g _ => Some g
  | EvTest g => Some g
  | _ => None
  end.

(** The global steps at which a line of losses went to the console. *)
Definition loss_info_steps (cs : list Call) : list Z :=
  omap (fun c => match c with
                 | CLossInfo _ g _ _ => Some g
                 | _ => None
                 end) cs.

(** The scalars written to tensorboard under [name], by global step. *)
Definition scalar_steps (name : string) (cs : list Call) : list Z :=
  omap (fun c => match c with
                 | CAddScalar name' g => if bool_decide (name' = name) then Some g else None
                 | _ => None
                 end) cs.

(** The files written by [torch.save]. *)
Definition saved_files (cs : list Call) : list string :=
  omap (fun c => match c with
                 | CTorchSave file => Some file
                 | _ => None
                 end) cs.

(** The calls that change the grid: resizes and re-initialisations. *)
Definition grid_calls (cs : list Call) : list Call :=
  omap (fun c => match c with
                 | CScaleGrid _ _ | CRandomInit _ => Some c
                 | _ => None
                 end) cs.

(** The call made for one entry of the tuple of summaries. *)
Definition summary_call (g : Z) (summary : string * option (SummaryValue Tensor))
    : list Call :=
  match snd summary with
  | Some _ => [CAddScalar (fst summary) g]
  | None => []
  end.

(** The voxel grid that [vol_mod.thre3d_repr] designates. *)
Definition current_grid (vol_mod : loc) (w : World) : option VoxelGrid :=
  match heap w !! vol_mod with
  | Some m =>
      match thre3d_repr m with
      | VoxelGridRepr g => Some g
      | NotAVoxelGrid _ => None
      end
  | None => None
  end.

(** [m] leaves the heap as it is, whether it returns or raises. *)
Definition heap_pure {A} (m : M A) : Prop :=
  forall w, heap (fst (m w)) = heap w.

(** ** What any run, completed or not, may call *)

Inductive emitted (a : TrainArgs) : Event -> Prop :=
| em_scale size :
    emitted a (EvScaleGrid size "trilinear")
| em_random_init field :
    emitted a (EvRandomInit field)
| em_write_image :
    render_feedback_pose a = None ->
    emitted a (EvWriteImage "1__real_log.png")
| em_camera_rays :
    fast_debug_mode a = false ->
    emitted a EvVisualizeCameraRays
| em_adam stage p lr :
    stage ∈ range1 (num_stages a) ->
    truth_value p = true ->
    emitted a (EvAdam stage (parameter_list p) lr)
| em_optimizer_step stage i m rays_batch pixels_batch :
    stage ∈ range1 (num_stages a) ->
    i ∈ range1 (num_iterations_per_stage a) ->
    emitted a (EvOptimizerStep stage i
                 (total_loss (compute_losses a m rays_batch pixels_batch)))
| em_add_scalar stage i m rays_batch pixels_batch tdl tst name value :
    stage ∈ range1 (num_stages a) ->
    i ∈ range1 (num_iterations_per_stage a) ->
    setup_dataloaders a = inr (tdl, tst) ->
    (name, Some value)
      ∈ summaries (compute_losses a m rays_batch pixels_batch)
          (ray_batch_size a * global_step_of a stage i, dataset_size a tdl) ->
    emitted a (EvAddScalar name value (global_step_of a stage i))
| em_loss_info stage i :
    stage ∈ range1 (num_stages a) ->
    i ∈ range1 (num_iterations_per_stage a) ->
    emitted a (EvLossInfo stage (global_step_of a stage i) i
                 (apply_diffuse_render_regularization a))
| em_lr_step stage i :
    stage ∈ range1 (num_stages a) ->
    i ∈ range1 (num_iterations_per_stage a) ->
    emitted a (EvLrSchedulerStep stage i)
| em_feedback stage i pose image :
    stage ∈ range1 (num_stages a) ->
    i ∈ range1 (num_iterations_per_stage a) ->
    setup_render_feedback_pose a = inr (pose, image) ->
    emitted a (EvRenderedFeedback pose (global_step_of a stage i) true)
| em_test stage i :
    stage ∈ range1 (num_stages a) ->
    i ∈ range1 (num_iterations_per_stage a) ->
    fast_debug_mode a = false ->
    is_Some (test_dataset a) ->
    emitted a (EvTest (global_step_of a stage i))
| em_snapshot stage i m :
    stage ∈ range1 (num_stages a) ->
    i ∈ range1 (num_iterations_per_stage a) ->
    emitted a (EvTorchSave (snapshot_file stage (global_step_of a stage i)) m)
| em_final_model m :
    emitted a (EvTorchSave "model_final.pth" m).

(** The heap after some steps of a run on [vol_mod]: nothing is allocated
    or freed, and the only field ever assigned is [vol_mod.thre3d_repr]. *)
Definition heap_frame (vol_mod : loc) (h h' : gmap loc VolumetricModel) : Prop :=
  h' = h \/ exists g, h' = alter (with_thre3d_repr g) vol_mod h.

Record extends (a : TrainArgs) (vol_mod : loc) (w w' : World) : Prop := {
  ext_trace : exists evs, trace w' = trace w ++ evs /\ Forall (emitted a) evs;
  ext_heap : heap_frame vol_mod (heap w) (heap w')
}.

(** [m] only makes calls of [emitted] and only assigns [vol_mod.thre3d_repr],
    whether it returns or raises. *)
Definition safe {A} (a : TrainArgs) (vol_mod : loc) (m : M A) : Prop :=
  forall w, extends a vol_mod w (fst (m w)).

(** What the loop is given by the set-up. *)
Definition setup_of (a : TrainArgs) (s : Setup) : Prop :=
  (exists image, setup_render_feedback_pose a = inr (feedback_pose s, image))
  /\ setup_dataloaders a = inr (train_dl s, test_dl s).

End Trainer.

(** * Further readings of a run *)

(** No character of [s] is [c]. *)
Fixpoint char_free (c : Ascii.ascii) (s : string) : Prop :=
  match s with
  | EmptyString => True
  | String c' s' => c' <> c /\ char_free c s'
  end.

Section Observations.
Context `{Collaborators}.

(** [m] only makes calls that satisfy [P], whether it returns or raises. *)
Definition emits_only {A} (P : Event -> Prop) (m : M A) : Prop :=
  forall w, exists evs, trace (fst (m w)) = trace w ++ evs /\ Forall P evs.

(** [torch.save] of line 463. *)
Definition is_final_save (e : Event) : bool :=
  match e with
  | EvTorchSave file _ => bool_decide (file = "model_final.pth")
  | _ => false
  end.

(** The stages for which an optimizer is built, in order. *)
Definition adam_stages (cs : list Call) : list Z :=
  omap (fun c => match c with
                 | CAdam stage => Some stage
                 | _ => None
                 end) cs.

(** [isinstance(m.thre3d_repr, VoxelGrid)] *)
Definition is_voxel_grid (m : VolumetricModel) : bool :=
  match thre3d_repr m with
  | VoxelGridRepr _ => true
  | NotAVoxelGrid _ => false
  end.

(** The dataset that the feedback pose is taken from when none is given
    (line 140). *)
Definition feedback_dataset (a : TrainArgs) : PosedImagesDataset :=
  default (train_dataset a) (test_dataset a).


(** An event that carries no loss. *)
Definition loss_free (e : Event) : Prop :=
  match e with
  | EvOptimizerStep _ _ _ | EvAddScalar _ _ _ => False
  | _ => True
  end.

(** What an event says of the losses of the iterations, [L stage i] being
    the losses computed in iteration [i] of [stage] and [K] telling the
    iterations apart that the event may belong to: a gradient step minimises
    the total loss of its iteration, and a scalar written at the global step
    of an iteration is an entry of the tuple of summaries built from the
    losses of that iteration. *)
Definition reports_losses (a : TrainArgs) (K : Z -> Z -> bool)
    (L : Z -> Z -> option Losses) (e : Event) : Prop :=
  match e with
  | EvOptimizerStep stage i objective =>
      K stage i = true
      /\ exists m rays_batch pixels_batch,
           L stage i = Some (compute_losses a m rays_batch pixels_batch)
           /\ objective = total_loss (compute_losses a m rays_batch pixels_batch)
  | EvAddScalar name value g =>
      exists stage i l q,
        K stage i = true
        /\ g = global_step_of a stage i
        /\ L stage i = Some l
        /\ (name, Some value) ∈ summaries l q
  | _ => True
  end.

(** Whatever [m] does, its events report the losses of the iterations of
    [K] faithfully. *)
Definition reports_run (a : TrainArgs) (K : Z -> Z -> bool) {A} (m : M A) : Prop :=
  forall w, exists evs L,
    trace (fst (m w)) = trace w ++ evs /\ Forall (reports_losses a K L) evs.

Definition iteration_key (stage i : Z) : Z -> Z -> bool :=
  fun stage' i' => (stage' =? stage) && (i' =? i).

Definition any_key {A} (key : A -> Z -> Z -> bool) (l : list A) : Z -> Z -> bool :=
  fun stage i => existsb (fun x => key x stage i) l.

(** The iterations of a run. *)
Definition run_key (a : TrainArgs) : Z -> Z -> bool :=
  any_key (fun stage => any_key (iteration_key stage)
                                (range1 (num_iterations_per_stage a)))
          (range1 (num_stages a)).

(** [current_stage_lr], line 238. *)
Definition current_stage_lr (a : TrainArgs) (stage : Z) : float :=
  (learning_rate a * float_pow (stagewise_lr_decay_gamma a) (stage - 1))%float.

(** The optimizers built, in order: the stage and the learning rate given to
    [torch.optim.Adam]. *)
Definition optimizers_built (evs : list Event) : list (Z * float) :=
  omap (fun e => match e with
                 | EvAdam stage _ lr => Some (stage, lr)
                 | _ => None
                 end) evs.

(** An optimizer is given the learning rate of its stage. *)
Definition adam_at_stage_lr (a : TrainArgs) (e : Event) : Prop :=
  match e with
  | EvAdam stage _ lr => lr = current_stage_lr a stage
  | _ => True
  end.

(** The resolution of the grid of [vol_mod] is entry [index] of [sizes]. *)
Definition grid_at_size (vol_mod : loc) (sizes : list GridDims) (index : Z)
    (w : World) : Prop :=
  exists g size,
    current_grid vol_mod w = Some g
    /\ py_index sizes index = inr size
    /\ grid_dims g = size.

End Observations.

(** * A small instance

    Integers stand for tensors, rays and pixels; the data source counts the
    batches it has served.  The instance is used to run the procedure on
    concrete arguments. *)

Module Toy.

#[export] Instance toy_domains : Domains := {|
  Tensor := Z; Rays := Z; Pixels := Z; Images := Z; PoseMatrix := Z;
  CameraPose := Z; CameraBounds := unit; ScaleFactor := Z; OtherRepr := unit;
  Env := nat; Optimizer := nat; Parameters := list Z
|}.

Definition toy_grid_sizes (final : GridDims) (stages factor : Z) : Error + list GridDims :=
  if (stages <? 1) || (factor <=? 1) then inl ValueError
  else
    let '(x, y, z) := final in
    inr (map (fun k : nat =>
                let f := factor ^ (stages - 1 - Z.of_nat k) in
                (x / f, y / f, z / f))
             (seq 0 (Z.to_nat stages))).

#[export] Instance toy_collaborators : Collaborators := {|
  parameters g := if densities g =? 0 then [] else [densities g; features g];
  truth_value := is_truthy;
  parameter_list p := p;
  compute_thre3d_grid_sizes := toy_grid_sizes;
  scale_voxel_grid_with_required_output_size g size _ :=
    {| grid_dims := size; densities := densities g; features := features g |};
  camera_pose_of pose := pose;
  next_batch e := (S e, (Z.of_nat e, [1; 2]));
  cast_rays _ pose := pose;
  flatten_rays r := r;
  collate_rays l := foldr Z.add 0 l;
  pixels_of_images i := i;
  sample_random_rays_and_pixels_synchronously e r p _ := (S e, (r, p));
  render_rays _ r diffuse := if diffuse then r + 1 else r;
  l1_loss x y := Z.abs (x - y);
  mse_loss x y := (x - y) * (x - y);
  mse2psnr x := - x;
  tensor_add := Z.add;
  float_pow x _ := x;
  Adam _ _ := 0%nat;
  backward_and_step o _ g := (S o, (densities g + 1, features g));
  lr_scheduler_step _ o := o
|}.

(** One hundred images of 2 x 2 pixels. *)
Definition toy_dataset : PosedImagesDataset := {|
  samples := replicate 100 (7, 3);
  camera_intrinsics := {| height := 2; width := 2 |};
  camera_bounds := tt;
  cached_data_mode := true;
  hemispherical_radius_estimate := 1
|}.

Definition toy_args (init stages iterations save summary : Z) (diffuse fast : bool)
    : TrainArgs := {|
  train_dataset := toy_dataset;
  random_initializer := fun _ => init;
  test_dataset := Some toy_dataset;
  image_batch_cache_size := 8;
  ray_batch_size := 4;
  num_stages := stages;
  num_iterations_per_stage := iterations;
  scale_factor := 2;
  learning_rate := 0.5%float;
  lr_decay_gamma_per_stage := 0.5%float;
  lr_decay_steps_per_stage := 2;
  stagewise_lr_decay_gamma := 0.5%float;
  render_feedback_pose := None;
  save_freq := save;
  test_freq := 2;
  feedback_freq := 3;
  summary_freq := summary;
  apply_diffuse_render_regularization := diffuse;
  num_workers := 4;
  verbose_rendering := true;
  fast_debug_mode := fast
|}.

Definition toy_model : VolumetricModel := {|
  thre3d_repr :=
    VoxelGridRepr {| grid_dims := (8, 8, 8); densities := 5; features := 6 |};
  render_procedure := render_sh_voxel_grid
|}.

(** The heap holds the model to train at address 1 and another model. *)
Definition toy_world : World := {|
  heap := {[ 1%positive := toy_model; 2%positive := toy_model ]};
  env := 0%nat;
  trace := []
|}.

Definition toy_run (a : TrainArgs) : World * (Error + loc) :=
  train_sh_vox_grid_vol_mod_with_posed_images 1%positive a toy_world.

(** Two stages of three iterations, parameters present. *)
Definition two_stages : TrainArgs := toy_args 1 2 3 5 1 false false.

(** Scenario A: one stage of five iterations. *)
Definition scenario_A : TrainArgs := toy_args 1 1 5 5 1 false false.

(** Scenario C: fast debug mode, with a test dataset. *)
Definition scenario_C : TrainArgs := toy_args 1 2 3 5 1 true true.

(** A model whose representation is not a voxel grid, alone in its heap. *)
Definition unfit_model : VolumetricModel := {|
  thre3d_repr := NotAVoxelGrid tt;
  render_procedure := render_sh_voxel_grid
|}.

Definition unfit_world : World := {|
  heap := {[ 1%positive := unfit_model ]};
  env := 0%nat;
  trace := []
|}.

(** No stage at all: [toy_grid_sizes] refuses to compute the sizes. *)
Definition no_stages : TrainArgs := toy_args 1 0 3 5 1 false false.

(** Two stages of three iterations with [summary_freq = 0]. *)
Definition zero_summary_freq : TrainArgs := toy_args 1 2 3 5 0 false false.

(** [two_stages] with another test dataset and feedback pose. *)
Definition with_test_and_pose (test : option PosedImagesDataset)
    (pose : option CameraPose) : TrainArgs := {|
  train_dataset := train_dataset two_stages;
  random_initializer := random_initializer two_stages;
  test_dataset := test;
  image_batch_cache_size := image_batch_cache_size two_stages;
  ray_batch_size := ray_batch_size two_stages;
  num_stages := num_stages two_stages;
  num_iterations_per_stage := num_iterations_per_stage two_stages;
  scale_factor := scale_factor two_stages;
  learning_rate := learning_rate two_stages;
  lr_decay_gamma_per_stage := lr_decay_gamma_per_stage two_stages;
  lr_decay_steps_per_stage := lr_decay_steps_per_stage two_stages;
  stagewise_lr_decay_gamma := stagewise_lr_decay_gamma two_stages;
  render_feedback_pose := pose;
  save_freq := save_freq two_stages;
  test_freq := test_freq two_stages;
  feedback_freq := feedback_freq two_stages;
  summary_freq := summary_freq two_stages;
  apply_diffuse_render_regularization :=
    apply_diffuse_render_regularization two_stages;
  num_workers := num_workers two_stages;
  verbose_rendering := verbose_rendering two_stages;
  fast_debug_mode := fast_debug_mode two_stages
|}.

Definition without_test_dataset : TrainArgs := with_test_and_pose None None.

(** [parameters()] as [torch.nn.Module] returns it: a generator, which is
    true whether or not it yields anything.  The grids of this instance have
    registered no parameter, so the generator yields nothing.  The other
    collaborators are those of [toy_collaborators]. *)
Definition generator_collaborators : Collaborators := {|
  parameters _ := [];
  truth_value _ := true;
  parameter_list p := p;
  compute_thre3d_grid_sizes := toy_grid_sizes;
  scale_voxel_grid_with_required_output_size g size _ :=
    {| grid_dims := size; densities := densities g; features := features g |};
  camera_pose_of pose := pose;
  next_batch e := (S e, (Z.of_nat e, [1; 2]));
  cast_rays _ pose := pose;
  flatten_rays r := r;
  collate_rays l := foldr Z.add 0 l;
  pixels_of_images i := i;
  sample_random_rays_and_pixels_synchronously e r p _ := (S e, (r, p));
  render_rays _ r diffuse := if diffuse then r + 1 else r;
  l1_loss x y := Z.abs (x - y);
  mse_loss x y := (x - y) * (x - y);
  mse2psnr x := - x;
  tensor_add := Z.add;
  float_pow x _ := x;
  Adam _ _ := 0%nat;
  backward_and_step o _ g := (S o, (densities g + 1, features g));
  lr_scheduler_step _ o := o
|}.

Definition generator_run (a : TrainArgs) : World * (Error + loc) :=
  @train_sh_vox_grid_vol_mod_with_posed_images
    toy_domains generator_collaborators 1%positive a toy_world.

Definition with_feedback_pose : TrainArgs :=
  with_test_and_pose (Some toy_dataset) (Some 9).

End Toy.

(** * Proofs *)

(** ** Python values *)

Example py_mod_sign : py_mod (-7) 5 = inr 3.
Proof. reflexivity. Qed.

Example py_mod_zero : py_mod 7 0 = inl ZeroDivisionError.
Proof. reflexivity. Qed.

Example py_index_from_the_end : py_index [10; 20; 30] (-1) = inr 30.
Proof. reflexivity. Qed.

Example py_index_out_of_range : py_index [10; 20; 30] 3 = inl IndexError.
Proof. reflexivity. Qed.

Example range1_three : range1 3 = [1; 2; 3].
Proof. reflexivity. Qed.

Example range1_negative : range1 (-2) = [].
Proof. reflexivity. Qed.

Example dataloader_len_drop_last :
  dataloader_len {| dl_num_samples := 100; dl_batch_size := 8; dl_drop_last := true |}
  = 12.
Proof. reflexivity. Qed.

Example dataloader_len_keep_last :
  dataloader_len {| dl_num_samples := 100; dl_batch_size := 8; dl_drop_last := false |}
  = 13.
Proof. reflexivity. Qed.

(** ** The monad *)

Section MonadFacts.
Context `{Collaborators}.

Lemma bind_inr {A B} (m : M A) (k : A -> M B) w w' b :
  bind m k w = (w', inr b) ->
  exists a w1, m w = (w1, inr a) /\ k a w1 = (w', inr b).
Proof.
  unfold bind. destruct (m w) as [w1 [e | a]] eqn:Hm; intros Hk.
  - discriminate.
  - eauto.
Qed.

Lemma bind_inl {A B} (m : M A) (k : A -> M B) w w' e :
  bind m k w = (w', inl e) ->
  m w = (w', inl e) \/ exists a w1, m w = (w1, inr a) /\ k a w1 = (w', inl e).
Proof.
  unfold bind. destruct (m w) as [w1 [e1 | a]] eqn:Hm; intros Hk.
  - left. congruence.
  - right. eauto.
Qed.

Lemma lift_inr {A} (r : Error + A) w w' a :
  lift r w = (w', inr a) -> r = inr a /\ w' = w.
Proof. destruct r; cbn; intros [= -> ->]; auto. Qed.

Lemma assert_inr b msg w w' u :
  assert b msg w = (w', inr u) -> b = true /\ w' = w.
Proof. destruct b; cbn; intros [= ->]; auto. Qed.



Lemma foldM_inr_elem {A S} (l : list A) (body : A -> S -> M S) x :
  x ∈ l ->
  forall s w w' s',
    foldM l body s w = (w', inr s') ->
    exists s1 w1 s2 w2, body x s1 w1 = (w2, inr s2).
Proof.
  induction 1 as [x l | x y l Hx IH]; intros s w w' s' Hf; cbn in Hf;
    apply bind_inr in Hf as (s1 & w1 & Hbody & Hrest).
  - eauto.
  - eapply IH; eauto.
Qed.

End MonadFacts.

(** ** Calls and assignments of any run *)

Section Safety.
Context `{Collaborators}.
Variables (a : TrainArgs) (vol_mod : loc).

Lemma heap_frame_refl h : heap_frame vol_mod h h.
Proof. left; reflexivity. Qed.

Lemma with_thre3d_repr_twice g1 g2 (m : VolumetricModel) :
  with_thre3d_repr g2 (with_thre3d_repr g1 m) = with_thre3d_repr g2 m.
Proof. reflexivity. Qed.

Lemma heap_frame_alter g h h' :
  heap_frame vol_mod h h' ->
  heap_frame vol_mod h (alter (with_thre3d_repr g) vol_mod h').
Proof.
  intros [-> | [g1 ->]]; right; exists g.
  - reflexivity.
  - rewrite alter_alter_eq. apply alter_ext. intros m _. reflexivity.
Qed.

Lemma heap_frame_trans h1 h2 h3 :
  heap_frame vol_mod h1 h2 -> heap_frame vol_mod h2 h3 -> heap_frame vol_mod h1 h3.
Proof.
  intros H12 [-> | [g ->]].
  - exact H12.
  - apply heap_frame_alter, H12.
Qed.

Lemma extends_refl w : extends a vol_mod w w.
Proof.
  split.
  - exists []. split; [ symmetry; apply app_nil_r | constructor ].
  - apply heap_frame_refl.
Qed.

Lemma extends_trans w1 w2 w3 :
  extends a vol_mod w1 w2 -> extends a vol_mod w2 w3 -> extends a vol_mod w1 w3.
Proof.
  intros [[e1 [T1 F1]] H1] [[e2 [T2 F2]] H2]. split.
  - exists (e1 ++ e2). split.
    + rewrite T2, T1. symmetry. apply app_assoc.
    + apply Forall_app; auto.
  - eapply heap_frame_trans; eauto.
Qed.

Lemma safe_ret {A} (x : A) : safe a vol_mod (ret x).
Proof. intros w. apply extends_refl. Qed.

Lemma safe_raise {A} e : safe a vol_mod (raise e : M A).
Proof. intros w. apply extends_refl. Qed.

Lemma safe_lift {A} (r : Error + A) : safe a vol_mod (lift r).
Proof. destruct r; [ apply safe_raise | apply safe_ret ]. Qed.

Lemma safe_assert b msg : safe a vol_mod (assert b msg).
Proof. destruct b; [ apply safe_ret | apply safe_raise ]. Qed.

Lemma safe_bind {A B} (m : M A) (k : A -> M B) :
  safe a vol_mod m ->
  (forall x, (exists w w', m w = (w', inr x)) -> safe a vol_mod (k x)) ->
  safe a vol_mod (bind m k).
Proof.
  intros Hm Hk w. specialize (Hm w). unfold bind.
  destruct (m w) as [w1 [e | x]] eqn:E; cbn in *.
  - exact Hm.
  - eapply extends_trans; [ exact Hm | ]. apply Hk. eauto.
Qed.

Lemma safe_emit e : emitted a e -> safe a vol_mod (emit e).
Proof.
  intros He w. split; cbn.
  - exists [e]. split; [ reflexivity | repeat constructor; exact He ].
  - apply heap_frame_refl.
Qed.

Lemma safe_read_model : safe a vol_mod (read_model vol_mod).
Proof.
  intros w. unfold read_model. destruct (heap w !! vol_mod); apply extends_refl.
Qed.

Lemma safe_set_thre3d_repr g : safe a vol_mod (set_thre3d_repr vol_mod g).
Proof.
  intros w. split; cbn.
  - exists []. split; [ symmetry; apply app_nil_r | constructor ].
  - right. exists g. reflexivity.
Qed.

Lemma safe_with_env {A} (f : Env -> Env * A) : safe a vol_mod (with_env f).
Proof.
  intros w. unfold with_env. destruct (f (env w)) as [e x]. split; cbn.
  - exists []. split; [ symmetry; apply app_nil_r | constructor ].
  - apply heap_frame_refl.
Qed.

Lemma safe_when b (m : M unit) :
  (b = true -> safe a vol_mod m) -> safe a vol_mod (when b m).
Proof. destruct b; cbn; intros Hm; [ auto | apply safe_ret ]. Qed.

Lemma safe_foldM {A S} (l : list A) (body : A -> S -> M S) s :
  (forall x s', x ∈ l -> safe a vol_mod (body x s')) ->
  safe a vol_mod (foldM l body s).
Proof.
  revert s. induction l as [| x l IH]; intros s Hbody; cbn.
  - apply safe_ret.
  - apply safe_bind.
    + apply Hbody. left.
    + intros s' _. apply IH. intros y s'' Hy. apply Hbody. right. exact Hy.
Qed.

Lemma safe_get_voxel_grid : safe a vol_mod (get_voxel_grid vol_mod).
Proof.
  apply safe_bind; [ apply safe_read_model | ].
  intros m _. destruct (thre3d_repr m); [ apply safe_ret | apply safe_raise ].
Qed.

Ltac safe_step :=
  lazymatch goal with
  | |- safe _ _ (ret _) => apply safe_ret
  | |- safe _ _ (raise _) => apply safe_raise
  | |- safe _ _ (lift _) => apply safe_lift
  | |- safe _ _ (assert _ _) => apply safe_assert
  | |- safe _ _ (read_model _) => apply safe_read_model
  | |- safe _ _ (get_voxel_grid _) => apply safe_get_voxel_grid
  | |- safe _ _ (set_thre3d_repr _ _) => apply safe_set_thre3d_repr
  | |- safe _ _ (with_env _) => apply safe_with_env
  | |- safe _ _ (bind _ _) =>
      apply safe_bind;
      [ | let x := fresh "x" in let Hx := fresh "Hx" in intros x Hx ]
  end.

Ltac safe_steps := repeat safe_step.

Lemma safe_check_model : safe a vol_mod (check_model vol_mod).
Proof.
  unfold check_model. safe_steps. destruct (thre3d_repr x); safe_steps.
Qed.

Lemma safe_downscale_and_reinitialize sizes :
  safe a vol_mod (downscale_and_reinitialize a vol_mod sizes).
Proof.
  unfold downscale_and_reinitialize. safe_steps; apply safe_emit; constructor.
Qed.

Lemma setup_render_feedback_pose_image pose image :
  setup_render_feedback_pose a = inr (pose, image) ->
  is_Some image -> render_feedback_pose a = None.
Proof.
  unfold setup_render_feedback_pose. destruct (render_feedback_pose a).
  - intros [= _ <-] [? ?]. discriminate.
  - reflexivity.
Qed.

Lemma safe_initialize : safe a vol_mod (initialize a vol_mod).
Proof.
  unfold initialize. safe_steps.
  - apply safe_check_model.
  - apply safe_downscale_and_reinitialize.
  - destruct x2 as [pose image]. destruct Hx2 as (w & w' & Hx2).
    apply lift_inr in Hx2 as [Hpose _]. safe_steps.
    + destruct x2 as [tdl tst]. safe_steps.
      * apply safe_when. intros Himg. apply safe_emit. apply em_write_image.
        apply bool_decide_eq_true in Himg.
        eapply setup_render_feedback_pose_image; eauto.
      * apply safe_when. intros Hfast. apply safe_emit. apply em_camera_rays.
        destruct (fast_debug_mode a); [ discriminate | reflexivity ].
Qed.

Lemma initialize_setup w w' s :
  initialize a vol_mod w = (w', inr s) -> setup_of a s.
Proof.
  unfold initialize. intros Hi.
  apply bind_inr in Hi as (g & w1 & _ & Hi).
  apply bind_inr in Hi as (sizes & w2 & _ & Hi).
  apply bind_inr in Hi as (u & w3 & _ & Hi).
  apply bind_inr in Hi as ([pose image] & w4 & Hpose & Hi).
  apply bind_inr in Hi as ([tdl tst] & w5 & Hdl & Hi).
  apply bind_inr in Hi as (u1 & w6 & _ & Hi).
  apply bind_inr in Hi as (u2 & w7 & _ & Hi).
  injection Hi as _ <-. cbn.
  apply lift_inr in Hpose as [Hpose _]. apply lift_inr in Hdl as [Hdl _].
  split; eauto.
Qed.

Section Loop.
Variables (s : Setup) (stage : Z).
Hypothesis Hsetup : setup_of a s.
Hypothesis Hstage : stage ∈ range1 (num_stages a).

Lemma safe_periodic_or_first_or_last freq g i :
  safe a vol_mod (periodic_or_first_or_last a freq g i).
Proof. unfold periodic_or_first_or_last. safe_steps. Qed.

Section Iteration.
Variable i : Z.
Hypothesis Hi : i ∈ range1 (num_iterations_per_stage a).

Lemma safe_optimization_step optimizer :
  safe a vol_mod (optimization_step a vol_mod stage i optimizer).
Proof.
  unfold optimization_step. safe_steps.
  destruct x as [images poses]. safe_steps.
  destruct x as [rays_batch pixels_batch]. safe_steps.
  - apply safe_emit. constructor; assumption.
  - destruct (backward_and_step _ _ _) as [optimizer' [densities' features']]. safe_steps.
Qed.

Lemma safe_tensorboard_summaries m rays_batch pixels_batch :
  safe a vol_mod
    (tensorboard_summaries a s (global_step_of a stage i) i
       (compute_losses a m rays_batch pixels_batch)).
Proof.
  unfold tensorboard_summaries. safe_steps.
  - apply safe_periodic_or_first_or_last.
  - apply safe_when. intros _. safe_steps.
    destruct Hx0 as (w & w' & Hq). apply lift_inr in Hq as [Hq _].
    unfold py_true_div in Hq. destruct (_ =? 0); [ discriminate | ].
    injection Hq as <-. cbn [fst snd].
    apply safe_foldM. intros [name [value |]] [] Hin; unfold add_scalar; cbn [fst snd].
    + apply safe_emit. destruct Hsetup as [_ Hdl].
      eapply em_add_scalar; eauto.
    + apply safe_ret.
Qed.

Lemma safe_console_loss_feedback :
  safe a vol_mod (console_loss_feedback a stage (global_step_of a stage i) i).
Proof.
  unfold console_loss_feedback. safe_steps.
  - apply safe_periodic_or_first_or_last.
  - apply safe_when. intros _. apply safe_emit. constructor; assumption.
Qed.

Lemma safe_step_lr_scheduler optimizer :
  safe a vol_mod (step_lr_scheduler a stage i optimizer).
Proof.
  unfold step_lr_scheduler. safe_steps. destruct (x =? 0); safe_steps.
  apply safe_emit. constructor; assumption.
Qed.

Lemma safe_rendered_feedback :
  safe a vol_mod (rendered_feedback a s (global_step_of a stage i) i).
Proof.
  unfold rendered_feedback. safe_steps.
  - apply safe_periodic_or_first_or_last.
  - apply safe_when. intros _. apply safe_emit.
    destruct Hsetup as [[image Hpose] _]. eapply em_feedback; eauto.
Qed.

Lemma setup_dataloaders_test tdl tst :
  setup_dataloaders a = inr (tdl, tst) -> is_Some tst -> is_Some (test_dataset a).
Proof.
  unfold setup_dataloaders. destruct (make_dataloader _ _ _ _); [ discriminate | ].
  destruct (test_dataset a).
  - eauto.
  - intros [= _ <-] [? ?]. discriminate.
Qed.

Lemma safe_test_metrics :
  safe a vol_mod (test_metrics a s (global_step_of a stage i) i).
Proof.
  unfold test_metrics.
  destruct (bool_decide (is_Some (test_dl s)) && negb (fast_debug_mode a)) eqn:Hguard;
    safe_steps.
  apply andb_true_iff in Hguard as [Htest Hfast].
  apply bool_decide_eq_true in Htest. apply negb_true_iff in Hfast.
  apply safe_when. intros _. apply safe_emit. constructor; try assumption.
  destruct Hsetup as [_ Hdl]. eapply setup_dataloaders_test; eauto.
Qed.

Lemma safe_save_model :
  safe a vol_mod (save_model a vol_mod stage (global_step_of a stage i) i).
Proof.
  unfold save_model. safe_steps.
  - apply safe_periodic_or_first_or_last.
  - apply safe_when. intros _. safe_steps. apply safe_emit. constructor; assumption.
Qed.

Lemma optimization_step_losses optimizer w w' optimizer' losses :
  optimization_step a vol_mod stage i optimizer w = (w', inr (optimizer', losses)) ->
  exists m rays_batch pixels_batch,
    losses = compute_losses a m rays_batch pixels_batch.
Proof.
  unfold optimization_step. intros Ho.
  apply bind_inr in Ho as ([images poses] & w1 & _ & Ho).
  apply bind_inr in Ho as ([rays_batch pixels_batch] & w2 & _ & Ho).
  apply bind_inr in Ho as (m & w3 & _ & Ho).
  apply bind_inr in Ho as (g & w4 & _ & Ho).
  apply bind_inr in Ho as (u & w5 & _ & Ho).
  destruct (backward_and_step _ _ _) as [o' [d' f']].
  apply bind_inr in Ho as (u' & w6 & _ & Ho).
  injection Ho as _ _ <-. eauto.
Qed.

Lemma safe_iteration optimizer :
  safe a vol_mod (iteration a s vol_mod stage i optimizer).
Proof.
  unfold iteration. safe_steps.
  - apply safe_optimization_step.
  - destruct x as [optimizer' losses]. destruct Hx as (w & w' & Hx).
    apply optimization_step_losses in Hx as (m & rays_batch & pixels_batch & ->).
    safe_steps.
    + apply safe_tensorboard_summaries.
    + apply safe_console_loss_feedback.
    + apply safe_step_lr_scheduler.
    + apply safe_rendered_feedback.
    + apply safe_test_metrics.
    + apply safe_save_model.
Qed.

End Iteration.

Lemma safe_upsample : safe a vol_mod (upsample s vol_mod stage).
Proof. unfold upsample. safe_steps. apply safe_emit. constructor. Qed.

Lemma safe_train_stage : safe a vol_mod (train_stage a s vol_mod stage).
Proof.
  unfold train_stage. safe_steps.
  - destruct Hx0 as (w & w' & Hassert). apply assert_inr in Hassert as [Hp _].
    apply safe_emit. constructor; assumption.
  - apply safe_foldM. intros i optimizer Hi. apply safe_iteration, Hi.
  - apply safe_when. intros _. apply safe_upsample.
Qed.

End Loop.

Lemma safe_train :
  safe a vol_mod (train_sh_vox_grid_vol_mod_with_posed_images vol_mod a).
Proof.
  unfold train_sh_vox_grid_vol_mod_with_posed_images. safe_steps.
  - apply safe_initialize.
  - destruct Hx as (w & w' & Hinit). apply initialize_setup in Hinit.
    unfold for_each. apply safe_foldM. intros stage [] Hstage.
    apply safe_train_stage; assumption.
  - apply safe_emit. constructor.
Qed.

End Safety.

(** ** The calls of a run that completes *)

Section Schedule.
Context `{Collaborators}.
Variables (a : TrainArgs) (vol_mod : loc).

Lemma emit_inr e w w' u :
  emit e w = (w', inr u) -> calls w' = calls w ++ [erase e].
Proof. intros [= <-]. unfold calls. cbn. apply map_app. Qed.

Lemma read_model_inr l w w' m :
  read_model l w = (w', inr m) -> w' = w /\ heap w !! l = Some m.
Proof.
  unfold read_model. destruct (heap w !! l); intros [= <-]; subst; auto.
Qed.

Lemma get_voxel_grid_inr l w w' g :
  get_voxel_grid l w = (w', inr g) ->
  w' = w /\ exists m, heap w !! l = Some m /\ thre3d_repr m = VoxelGridRepr g.
Proof.
  unfold get_voxel_grid. intros Hg.
  apply bind_inr in Hg as (m & w1 & Hm & Hg).
  apply read_model_inr in Hm as [-> Hm].
  destruct (thre3d_repr m) eqn:Hr; [ | discriminate ].
  injection Hg as <- <-. eauto.
Qed.

Lemma set_thre3d_repr_calls l g w w' u :
  set_thre3d_repr l g w = (w', inr u) -> calls w' = calls w.
Proof. intros [= <-]. reflexivity. Qed.

Lemma with_env_calls {A} (f : Env -> Env * A) w w' x :
  with_env f w = (w', inr x) -> calls w' = calls w.
Proof.
  unfold with_env. destruct (f (env w)). intros [= <- _]. reflexivity.
Qed.

Lemma when_inr b (m : M unit) w w' u :
  when b m w = (w', inr u) ->
  if b then m w = (w', inr u) else w' = w.
Proof. destruct b; cbn; [ auto | intros [= <-]; reflexivity ]. Qed.

Lemma py_mod_inr x y r : py_mod x y = inr r -> r = x mod y.
Proof. unfold py_mod. destruct (y =? 0); intros [= <-]; reflexivity. Qed.

Lemma periodic_or_first_or_last_inr freq g i w w' b :
  periodic_or_first_or_last a freq g i w = (w', inr b) ->
  w' = w /\ b = trigger a freq g i.
Proof.
  unfold periodic_or_first_or_last. intros Hp.
  apply bind_inr in Hp as (r & w1 & Hr & Hp).
  apply lift_inr in Hr as [Hr ->]. apply py_mod_inr in Hr as ->.
  injection Hp as <- <-. auto.
Qed.

Lemma foldM_calls {A S} (f : A -> list Call) (l : list A) (body : A -> S -> M S) :
  (forall x s w w' s', x ∈ l -> body x s w = (w', inr s') -> calls w' = calls w ++ f x) ->
  forall s w w' s',
    foldM l body s w = (w', inr s') -> calls w' = calls w ++ flat_map f l.
Proof.
  induction l as [| x l IH]; intros Hbody s w w' s' Hf; cbn in Hf.
  - injection Hf as <- _. cbn. symmetry. apply app_nil_r.
  - apply bind_inr in Hf as (s1 & w1 & Hx & Hf).
    apply Hbody in Hx; [ | left ].
    apply IH in Hf; [ | intros; eapply Hbody; eauto; right; assumption ].
    rewrite Hf, Hx. cbn. symmetry. apply app_assoc.
Qed.

Lemma add_scalar_calls g summary w w' u :
  add_scalar g summary w = (w', inr u) -> calls w' = calls w ++ summary_call g summary.
Proof.
  unfold add_scalar, summary_call. destruct (snd summary).
  - apply emit_inr.
  - intros [= <-]. symmetry. apply app_nil_r.
Qed.

Lemma summaries_calls g m rays_batch pixels_batch q :
  flat_map (summary_call g) (summaries (compute_losses a m rays_batch pixels_batch) q)
  = map (fun name => CAddScalar name g) (scalar_names a).
Proof.
  unfold compute_losses, scalar_names.
  destruct (apply_diffuse_render_regularization a); reflexivity.
Qed.

Section ScheduleIteration.
Variables (s : Setup) (stage i : Z).
Hypothesis Hsetup : setup_of a s.

Let g := global_step_of a stage i.

Lemma optimization_step_calls optimizer w w' r :
  optimization_step a vol_mod stage i optimizer w = (w', inr r) ->
  calls w' = calls w ++ [COptimizerStep stage i].
Proof.
  unfold optimization_step. intros Ho.
  apply bind_inr in Ho as ([images poses] & w1 & H1 & Ho).
  apply bind_inr in Ho as ([rays_batch pixels_batch] & w2 & H2 & Ho).
  apply bind_inr in Ho as (m & w3 & H3 & Ho).
  apply bind_inr in Ho as (gr & w4 & H4 & Ho).
  apply bind_inr in Ho as (u & w5 & H5 & Ho).
  destruct (backward_and_step _ _ _) as [o' [d' f']].
  apply bind_inr in Ho as (u' & w6 & H6 & Ho).
  injection Ho as <- _.
  apply with_env_calls in H1, H2. apply read_model_inr in H3 as [-> _].
  apply get_voxel_grid_inr in H4 as [-> _]. apply emit_inr in H5.
  apply set_thre3d_repr_calls in H6. cbn in H5. congruence.
Qed.

Lemma tensorboard_summaries_calls m rays_batch pixels_batch w w' u :
  tensorboard_summaries a s g i (compute_losses a m rays_batch pixels_batch) w
    = (w', inr u) ->
  calls w' = calls w
    ++ (if trigger a (summary_freq a) g i
        then map (fun name => CAddScalar name g) (scalar_names a) else []).
Proof.
  unfold tensorboard_summaries. intros Ht.
  apply bind_inr in Ht as (b & w1 & Hb & Ht).
  apply periodic_or_first_or_last_inr in Hb as [-> ->].
  apply when_inr in Ht. destruct (trigger a (summary_freq a) g i).
  - apply bind_inr in Ht as (q & w2 & Hq & Ht). apply lift_inr in Hq as [_ ->].
    unfold for_each in Ht.
    eapply (foldM_calls (summary_call g)) in Ht.
    + rewrite Ht, summaries_calls. reflexivity.
    + intros x [] w0 w0' [] _. apply add_scalar_calls.
  - subst. symmetry. apply app_nil_r.
Qed.

Lemma console_loss_feedback_calls w w' u :
  console_loss_feedback a stage g i w = (w', inr u) ->
  calls w' = calls w
    ++ (if trigger a (summary_freq a) g i
        then [CLossInfo stage g i (apply_diffuse_render_regularization a)] else []).
Proof.
  unfold console_loss_feedback. intros Hc.
  apply bind_inr in Hc as (b & w1 & Hb & Hc).
  apply periodic_or_first_or_last_inr in Hb as [-> ->].
  apply when_inr in Hc. destruct (trigger a (summary_freq a) g i).
  - apply emit_inr in Hc. exact Hc.
  - subst. symmetry. apply app_nil_r.
Qed.

Lemma step_lr_scheduler_calls optimizer w w' optimizer' :
  step_lr_scheduler a stage i optimizer w = (w', inr optimizer') ->
  calls w' = calls w ++ schedule_lr a stage i.
Proof.
  unfold step_lr_scheduler, schedule_lr. intros Hl.
  apply bind_inr in Hl as (r & w1 & Hr & Hl).
  apply lift_inr in Hr as [Hr ->]. apply py_mod_inr in Hr as ->.
  destruct (_ =? 0).
  - apply bind_inr in Hl as (u & w2 & He & Hl). injection Hl as <- _.
    apply emit_inr in He. exact He.
  - injection Hl as <- _. symmetry. apply app_nil_r.
Qed.

Lemma rendered_feedback_calls w w' u :
  rendered_feedback a s g i w = (w', inr u) ->
  calls w' = calls w ++ schedule_feedback a stage i.
Proof.
  unfold rendered_feedback, schedule_feedback. intros Hc.
  apply bind_inr in Hc as (b & w1 & Hb & Hc).
  apply periodic_or_first_or_last_inr in Hb as [-> ->].
  apply when_inr in Hc. fold g. destruct (trigger a (feedback_freq a) g i).
  - apply emit_inr in Hc. exact Hc.
  - subst. symmetry. apply app_nil_r.
Qed.

Lemma setup_test_dl :
  bool_decide (is_Some (test_dl s)) = bool_decide (is_Some (test_dataset a)).
Proof.
  destruct Hsetup as [_ Hdl]. unfold setup_dataloaders in Hdl.
  destruct (make_dataloader _ _ _ _); [ discriminate | ].
  destruct (test_dataset a).
  - destruct (make_dataloader _ _ _ _); [ discriminate | ].
    injection Hdl as _ <-. reflexivity.
  - injection Hdl as _ <-. reflexivity.
Qed.

Lemma test_metrics_calls w w' u :
  test_metrics a s g i w = (w', inr u) ->
  calls w' = calls w ++ schedule_test a stage i.
Proof.
  unfold test_metrics, schedule_test. fold g. rewrite setup_test_dl.
  destruct (bool_decide (is_Some (test_dataset a)) && negb (fast_debug_mode a)); cbn.
  - intros Ht. apply bind_inr in Ht as (r & w1 & Hr & Ht).
    apply lift_inr in Hr as [Hr ->]. apply py_mod_inr in Hr as ->.
    apply when_inr in Ht. destruct (_ || _).
    + apply emit_inr in Ht. exact Ht.
    + subst. symmetry. apply app_nil_r.
  - intros [= <-]. symmetry. apply app_nil_r.
Qed.

Lemma save_model_calls w w' u :
  save_model a vol_mod stage g i w = (w', inr u) ->
  calls w' = calls w ++ schedule_save a stage i.
Proof.
  unfold save_model, schedule_save. intros Hc.
  apply bind_inr in Hc as (b & w1 & Hb & Hc).
  apply periodic_or_first_or_last_inr in Hb as [-> ->].
  apply when_inr in Hc. fold g. destruct (trigger a (save_freq a) g i).
  - apply bind_inr in Hc as (m & w2 & Hm & Hc). apply read_model_inr in Hm as [-> _].
    apply emit_inr in Hc. exact Hc.
  - subst. symmetry. apply app_nil_r.
Qed.

Lemma iteration_calls optimizer w w' optimizer' :
  iteration a s vol_mod stage i optimizer w = (w', inr optimizer') ->
  calls w' = calls w ++ schedule_iteration a stage i.
Proof.
  unfold iteration. intros Hi.
  apply bind_inr in Hi as ([o1 losses] & w1 & H1 & Hi).
  pose proof H1 as Hl.
  apply optimization_step_losses in Hl as (m & rays_batch & pixels_batch & ->).
  apply optimization_step_calls in H1.
  apply bind_inr in Hi as (u2 & w2 & H2 & Hi). apply tensorboard_summaries_calls in H2.
  apply bind_inr in Hi as (u3 & w3 & H3 & Hi). apply console_loss_feedback_calls in H3.
  apply bind_inr in Hi as (o4 & w4 & H4 & Hi). apply step_lr_scheduler_calls in H4.
  apply bind_inr in Hi as (u5 & w5 & H5 & Hi). apply rendered_feedback_calls in H5.
  apply bind_inr in Hi as (u6 & w6 & H6 & Hi). apply test_metrics_calls in H6.
  apply bind_inr in Hi as (u7 & w7 & H7 & Hi). apply save_model_calls in H7.
  injection Hi as <- _.
  rewrite H7, H6, H5, H4, H3, H2, H1.
  unfold schedule_iteration, schedule_summaries. fold g.
  destruct (trigger a (summary_freq a) g i); cbn [app];
    rewrite <- ?app_assoc; cbn [app]; rewrite ?app_nil_r; reflexivity.
Qed.

End ScheduleIteration.

Lemma upsample_calls s stage w w' u :
  upsample s vol_mod stage w = (w', inr u) ->
  calls w' = calls w ++ schedule_scale (stagewise_voxel_grid_sizes s) stage.
Proof.
  unfold upsample, schedule_scale. intros Hu.
  apply bind_inr in Hu as (g & w1 & H1 & Hu). apply get_voxel_grid_inr in H1 as [-> _].
  apply bind_inr in Hu as (size & w2 & H2 & Hu). apply lift_inr in H2 as [-> ->].
  apply bind_inr in Hu as (u3 & w3 & H3 & Hu). apply emit_inr in H3.
  apply set_thre3d_repr_calls in Hu. cbn in H3. congruence.
Qed.

Lemma train_stage_calls s stage w w' u :
  setup_of a s ->
  train_stage a s vol_mod stage w = (w', inr u) ->
  calls w' = calls w ++ schedule_stage a (stagewise_voxel_grid_sizes s) stage.
Proof.
  unfold train_stage, schedule_stage. intros Hsetup Ht.
  apply bind_inr in Ht as (g & w1 & H1 & Ht). apply get_voxel_grid_inr in H1 as [-> _].
  apply bind_inr in Ht as (u2 & w2 & H2 & Ht). apply assert_inr in H2 as [_ ->].
  apply bind_inr in Ht as (u3 & w3 & H3 & Ht). apply emit_inr in H3.
  apply bind_inr in Ht as (o & w4 & H4 & Ht).
  eapply (foldM_calls (schedule_iteration a stage)) in H4;
    [ | intros; eapply iteration_calls; eauto ].
  apply when_inr in Ht. rewrite negb_if in Ht.
  destruct (stage =? num_stages a).
  - subst. rewrite H4, H3. cbn. rewrite <- app_assoc, app_nil_r. reflexivity.
  - apply upsample_calls in Ht. rewrite Ht, H4, H3. cbn.
    rewrite <- !app_assoc. reflexivity.
Qed.

Lemma downscale_and_reinitialize_calls sizes w w' u :
  downscale_and_reinitialize a vol_mod sizes w = (w', inr u) ->
  calls w' = calls w ++ schedule_scale sizes 0
               ++ [CRandomInit "densities"; CRandomInit "features"].
Proof.
  unfold downscale_and_reinitialize, schedule_scale. intros Hd.
  apply bind_inr in Hd as (g & w1 & H1 & Hd). apply get_voxel_grid_inr in H1 as [-> _].
  apply bind_inr in Hd as (size & w2 & H2 & Hd). apply lift_inr in H2 as [-> ->].
  apply bind_inr in Hd as (u3 & w3 & H3 & Hd). apply emit_inr in H3.
  apply bind_inr in Hd as (u4 & w4 & H4 & Hd). apply set_thre3d_repr_calls in H4.
  apply bind_inr in Hd as (g5 & w5 & H5 & Hd). apply get_voxel_grid_inr in H5 as [-> _].
  apply bind_inr in Hd as (u6 & w6 & H6 & Hd). apply emit_inr in H6.
  apply bind_inr in Hd as (u7 & w7 & H7 & Hd). apply set_thre3d_repr_calls in H7.
  apply bind_inr in Hd as (g8 & w8 & H8 & Hd). apply get_voxel_grid_inr in H8 as [-> _].
  apply bind_inr in Hd as (u9 & w9 & H9 & Hd). apply emit_inr in H9.
  apply set_thre3d_repr_calls in Hd.
  rewrite Hd, H9, H7, H6, H4, H3. cbn. rewrite <- !app_assoc. reflexivity.
Qed.

Lemma setup_render_feedback_pose_supplied pose image :
  setup_render_feedback_pose a = inr (pose, image) ->
  bool_decide (is_Some image) = negb (bool_decide (is_Some (render_feedback_pose a))).
Proof.
  unfold setup_render_feedback_pose. destruct (render_feedback_pose a).
  - intros [= _ <-]. reflexivity.
  - destruct (py_index _ _); [ discriminate | ]. intros [= _ <-]. reflexivity.
Qed.

Lemma check_model_inr w w' g :
  check_model vol_mod w = (w', inr g) ->
  w' = w /\ heap w !! vol_mod
            = Some {| thre3d_repr := VoxelGridRepr g;
                      render_procedure := render_sh_voxel_grid |}.
Proof.
  unfold check_model. intros Hc.
  apply bind_inr in Hc as (m & w1 & Hm & Hc). apply read_model_inr in Hm as [-> Hm].
  destruct m as [[g' | o] rp]; cbn in Hc; [ | discriminate ].
  apply bind_inr in Hc as (u & w2 & Ha & Hc). apply assert_inr in Ha as [Ha ->].
  injection Hc as <- <-. split; [ reflexivity | ].
  destruct rp; [ exact Hm | discriminate ].
Qed.

Lemma initialize_calls w w' s :
  initialize a vol_mod w = (w', inr s) ->
  calls w' = calls w ++ schedule_setup a (stagewise_voxel_grid_sizes s).
Proof.
  unfold initialize, schedule_setup. intros Hi.
  apply bind_inr in Hi as (g & w1 & H1 & Hi). apply check_model_inr in H1 as [-> _].
  apply bind_inr in Hi as (sizes & w2 & H2 & Hi). apply lift_inr in H2 as [_ ->].
  apply bind_inr in Hi as (u & w3 & H3 & Hi). apply downscale_and_reinitialize_calls in H3.
  apply bind_inr in Hi as ([pose image] & w4 & H4 & Hi). apply lift_inr in H4 as [H4 ->].
  apply bind_inr in Hi as ([tdl tst] & w5 & H5 & Hi). apply lift_inr in H5 as [_ ->].
  apply bind_inr in Hi as (u6 & w6 & H6 & Hi). apply when_inr in H6.
  apply bind_inr in Hi as (u7 & w7 & H7 & Hi). apply when_inr in H7.
  injection Hi as <- <-. cbn [stagewise_voxel_grid_sizes].
  rewrite (setup_render_feedback_pose_supplied _ _ H4) in H6.
  rewrite negb_if in H6, H7.
  assert (calls w6 = calls w3
            ++ (if bool_decide (is_Some (render_feedback_pose a)) then []
                else [CWriteImage "1__real_log.png"])) as E6.
  { destruct (bool_decide _).
    - subst. symmetry. apply app_nil_r.
    - apply emit_inr in H6. exact H6. }
  assert (calls w7 = calls w6
            ++ (if fast_debug_mode a then [] else [CVisualizeCameraRays])) as E7.
  { destruct (fast_debug_mode a).
    - subst. symmetry. apply app_nil_r.
    - apply emit_inr in H7. exact H7. }
  rewrite E7, E6, H3. rewrite <- !app_assoc. reflexivity.
Qed.

(** A run that completes makes exactly the calls of the schedule. *)
Lemma train_schedule w w' r :
  train_sh_vox_grid_vol_mod_with_posed_images vol_mod a w = (w', inr r) ->
  exists w1 s,
    initialize a vol_mod w = (w1, inr s)
    /\ calls w' = calls w ++ schedule a (stagewise_voxel_grid_sizes s).
Proof.
  unfold train_sh_vox_grid_vol_mod_with_posed_images, schedule. intros Ht.
  apply bind_inr in Ht as (s & w1 & H1 & Ht). exists w1, s. split; [ exact H1 | ].
  pose proof (initialize_setup _ _ _ _ _ H1) as Hsetup.
  apply initialize_calls in H1.
  apply bind_inr in Ht as (u & w2 & H2 & Ht). unfold for_each in H2.
  eapply (foldM_calls (schedule_stage a (stagewise_voxel_grid_sizes s))) in H2;
    [ | intros x [] w0 w0' [] _; apply train_stage_calls; exact Hsetup ].
  apply bind_inr in Ht as (m & w3 & H3 & Ht). apply read_model_inr in H3 as [-> _].
  apply bind_inr in Ht as (u4 & w4 & H4 & Ht). apply emit_inr in H4.
  injection Ht as <- _. rewrite H4, H2, H1. cbn. rewrite <- !app_assoc. reflexivity.
Qed.

End Schedule.

(** ** Readings of the schedule *)

Section Readings.
Context `{Collaborators}.
Variable a : TrainArgs.

Lemma omap_flat_map {A B C} (f : B -> option C) (g : A -> list B) (l : list A) :
  omap f (flat_map g l) = flat_map (fun x => omap f (g x)) l.
Proof.
  induction l as [| x l IH]; cbn.
  - reflexivity.
  - rewrite omap_app, IH. reflexivity.
Qed.

Lemma flat_map_singleton {A B} (f : A -> B) (l : list A) :
  flat_map (fun x => [f x]) l = map f l.
Proof. induction l as [| x l IH]; cbn; [ | rewrite IH ]; reflexivity. Qed.

Lemma flat_map_nil {A B} (l : list A) :
  flat_map (fun _ => @nil B) l = [].
Proof. induction l as [| x l IH]; cbn; [ | rewrite IH ]; reflexivity. Qed.

Ltac unfold_iteration :=
  unfold schedule_iteration, schedule_summaries, schedule_lr, schedule_feedback,
    schedule_test, schedule_save, scalar_names.

Ltac read_iteration := unfold_iteration; repeat case_match; reflexivity.

Lemma optimizer_steps_iteration stage i :
  optimizer_steps (schedule_iteration a stage i) = [(stage, i)].
Proof. unfold optimizer_steps. read_iteration. Qed.

Lemma optimizer_steps_scale sizes index :
  optimizer_steps (schedule_scale sizes index) = [].
Proof. unfold schedule_scale. case_match; reflexivity. Qed.

Lemma optimizer_steps_stage sizes stage :
  optimizer_steps (schedule_stage a sizes stage)
  = map (fun i => (stage, i)) (range1 (num_iterations_per_stage a)).
Proof.
  unfold schedule_stage, optimizer_steps.
  change (CAdam stage :: ?l) with ([CAdam stage] ++ l).
  rewrite !omap_app, omap_flat_map. fold optimizer_steps.
  change (omap _ [CAdam stage]) with (@nil (Z * Z)). cbn [app].
  rewrite (flat_map_ext _ (fun i => [(stage, i)]))
    by (intros i; apply optimizer_steps_iteration).
  rewrite flat_map_singleton.
  destruct (stage =? num_stages a); [ | rewrite optimizer_steps_scale ];
    apply app_nil_r.
Qed.

Lemma optimizer_steps_setup sizes :
  optimizer_steps (schedule_setup a sizes) = [].
Proof.
  unfold schedule_setup, schedule_scale, optimizer_steps.
  repeat case_match; reflexivity.
Qed.

Lemma optimizer_steps_schedule sizes :
  optimizer_steps (schedule a sizes)
  = flat_map (fun stage => map (fun i => (stage, i))
                               (range1 (num_iterations_per_stage a)))
             (range1 (num_stages a)).
Proof.
  unfold schedule, optimizer_steps. rewrite !omap_app, omap_flat_map.
  fold optimizer_steps. rewrite optimizer_steps_setup. cbn.
  rewrite app_nil_r. apply flat_map_ext. intros stage.
  apply optimizer_steps_stage.
Qed.

(** The global steps of the loop nest count from 1 without a gap. *)
Lemma global_step_enumeration (stages : nat) :
  0 <= num_iterations_per_stage a ->
  flat_map (fun stage => map (global_step_of a stage)
                             (range1 (num_iterations_per_stage a)))
           (seqZ 1 (Z.of_nat stages))
  = seqZ 1 (Z.of_nat stages * num_iterations_per_stage a).
Proof.
  intros Hn. induction stages as [| k IH].
  - reflexivity.
  - rewrite Nat2Z.inj_succ. unfold Z.succ.
    rewrite seqZ_app by lia. rewrite flat_map_app, IH.
    change (seqZ (1 + Z.of_nat k) 1) with [0 + (1 + Z.of_nat k)].
    cbn [flat_map]. rewrite app_nil_r.
    replace ((Z.of_nat k + 1) * num_iterations_per_stage a)
      with (Z.of_nat k * num_iterations_per_stage a + num_iterations_per_stage a)
      by lia.
    rewrite (seqZ_app _ (Z.of_nat k * _)) by nia. f_equal.
    unfold range1, global_step_of.
    replace (0 + (1 + Z.of_nat k) - 1) with (Z.of_nat k) by lia.
    replace (1 + Z.of_nat k * num_iterations_per_stage a)
      with (Z.of_nat k * num_iterations_per_stage a + 1) by lia.
    rewrite <- (fmap_add_seqZ (Z.of_nat k * num_iterations_per_stage a) 1).
    reflexivity.
Qed.

Lemma iteration_clock_schedule sizes :
  0 <= num_stages a ->
  0 <= num_iterations_per_stage a ->
  iteration_clock a (schedule a sizes)
  = seqZ 1 (num_stages a * num_iterations_per_stage a).
Proof.
  intros Hs Hn. unfold iteration_clock. rewrite optimizer_steps_schedule.
  rewrite <- (Z2Nat.id (num_stages a)) at 2 by exact Hs.
  rewrite <- global_step_enumeration by exact Hn.
  unfold range1 at 2. rewrite (Z2Nat.id _ Hs).
  generalize (seqZ 1 (num_stages a)). intros l.
  induction l as [| stage l IH]; cbn.
  - reflexivity.
  - rewrite map_app, IH, map_map. reflexivity.
Qed.

Lemma keyed_by_iteration stage i :
  Forall (keyed_by a stage i) (schedule_iteration a stage i).
Proof.
  unfold_iteration. unfold keyed_by.
  repeat case_match; repeat constructor.
Qed.

(** A reading that ignores the set-up, the optimizer construction and the
    resizes sees only the iterations and the final save. *)
Lemma omap_schedule {X} (f : Call -> option X) sizes :
  (forall size mode, f (CScaleGrid size mode) = None) ->
  (forall field, f (CRandomInit field) = None) ->
  (forall name, f (CWriteImage name) = None) ->
  f CVisualizeCameraRays = None ->
  (forall stage, f (CAdam stage) = None) ->
  omap f (schedule a sizes)
  = flat_map (fun stage =>
                flat_map (fun i => omap f (schedule_iteration a stage i))
                         (range1 (num_iterations_per_stage a)))
             (range1 (num_stages a))
    ++ omap f [CTorchSave "model_final.pth"].
Proof.
  intros Hscale Hinit Himage Hrays Hadam.
  assert (forall index, omap f (schedule_scale sizes index) = []) as Hsc.
  { intros index. unfold schedule_scale. case_match; cbn; [ | rewrite Hscale ]; reflexivity. }
  unfold schedule. rewrite !omap_app, omap_flat_map.
  assert (omap f (schedule_setup a sizes) = []) as ->.
  { unfold schedule_setup. rewrite !omap_app, Hsc.
    repeat case_match; cbn; rewrite ?Hinit, ?Himage, ?Hrays; reflexivity. }
  cbn [app]. f_equal. apply flat_map_ext. intros stage.
  unfold schedule_stage.
  change (CAdam stage :: ?l) with ([CAdam stage] ++ l).
  rewrite !omap_app, omap_flat_map. cbn. rewrite Hadam. cbn [app].
  destruct (stage =? num_stages a); [ | rewrite Hsc ]; apply app_nil_r.
Qed.

Lemma loss_info_steps_iteration stage i :
  loss_info_steps (schedule_iteration a stage i)
  = if trigger a (summary_freq a) (global_step_of a stage i) i
    then [global_step_of a stage i] else [].
Proof. unfold loss_info_steps. read_iteration. Qed.

Lemma scalar_steps_iteration stage i :
  scalar_steps "total_loss" (schedule_iteration a stage i)
  = if trigger a (summary_freq a) (global_step_of a stage i) i
    then [global_step_of a stage i] else [].
Proof. unfold scalar_steps. read_iteration. Qed.

Lemma saved_files_iteration stage i :
  saved_files (schedule_iteration a stage i)
  = if trigger a (save_freq a) (global_step_of a stage i) i
    then [snapshot_file stage (global_step_of a stage i)] else [].
Proof. unfold saved_files. read_iteration. Qed.

Lemma loss_info_steps_schedule sizes :
  loss_info_steps (schedule a sizes)
  = flat_map (fun stage =>
                flat_map (fun i => loss_info_steps (schedule_iteration a stage i))
                         (range1 (num_iterations_per_stage a)))
             (range1 (num_stages a)).
Proof.
  unfold loss_info_steps. rewrite omap_schedule by reflexivity. apply app_nil_r.
Qed.

Lemma scalar_steps_schedule name sizes :
  scalar_steps name (schedule a sizes)
  = flat_map (fun stage =>
                flat_map (fun i => scalar_steps name (schedule_iteration a stage i))
                         (range1 (num_iterations_per_stage a)))
             (range1 (num_stages a)).
Proof.
  unfold scalar_steps. rewrite omap_schedule by reflexivity. apply app_nil_r.
Qed.

Lemma saved_files_schedule sizes :
  saved_files (schedule a sizes)
  = flat_map (fun stage =>
                flat_map (fun i => saved_files (schedule_iteration a stage i))
                         (range1 (num_iterations_per_stage a)))
             (range1 (num_stages a))
    ++ ["model_final.pth"].
Proof. unfold saved_files. rewrite omap_schedule by reflexivity. reflexivity. Qed.

Lemma grid_calls_iteration stage i :
  grid_calls (schedule_iteration a stage i) = [].
Proof. unfold grid_calls. read_iteration. Qed.

Lemma grid_calls_scale sizes index :
  grid_calls (schedule_scale sizes index) = schedule_scale sizes index.
Proof. unfold schedule_scale. case_match; reflexivity. Qed.

Lemma grid_calls_app (l1 l2 : list Call) :
  grid_calls (l1 ++ l2) = grid_calls l1 ++ grid_calls l2.
Proof. apply omap_app. Qed.

Lemma grid_calls_flat_map {A} (f : A -> list Call) (l : list A) :
  grid_calls (flat_map f l) = flat_map (fun x => grid_calls (f x)) l.
Proof. apply omap_flat_map. Qed.

Lemma grid_calls_setup sizes :
  grid_calls (schedule_setup a sizes)
  = schedule_scale sizes 0 ++ [CRandomInit "densities"; CRandomInit "features"].
Proof.
  unfold schedule_setup. rewrite !grid_calls_app, grid_calls_scale.
  f_equal. repeat case_match; reflexivity.
Qed.

Lemma grid_calls_stage sizes stage :
  grid_calls (schedule_stage a sizes stage)
  = if stage =? num_stages a then [] else schedule_scale sizes stage.
Proof.
  unfold schedule_stage.
  change (CAdam stage :: ?l) with ([CAdam stage] ++ l).
  rewrite !grid_calls_app, grid_calls_flat_map.
  rewrite (flat_map_ext _ (fun _ => [])) by (intros i; apply grid_calls_iteration).
  rewrite flat_map_nil. cbn [app].
  destruct (stage =? num_stages a); [ reflexivity | apply grid_calls_scale ].
Qed.

Lemma grid_calls_schedule sizes :
  grid_calls (schedule a sizes)
  = schedule_scale sizes 0
    ++ [CRandomInit "densities"; CRandomInit "features"]
    ++ flat_map (fun stage => if stage =? num_stages a then []
                              else schedule_scale sizes stage)
                (range1 (num_stages a)).
Proof.
  unfold schedule. rewrite !grid_calls_app, grid_calls_flat_map, grid_calls_setup.
  rewrite <- app_assoc. f_equal. f_equal.
  change (grid_calls [CTorchSave "model_final.pth"]) with (@nil Call).
  rewrite app_nil_r. apply flat_map_ext. intros stage. apply grid_calls_stage.
Qed.

End Readings.

(** ** The grid along a run *)

Section Grid.
Context `{Collaborators}.
Variables (a : TrainArgs) (vol_mod : loc).

Lemma upsample_inr s stage w w' u :
  upsample s vol_mod stage w = (w', inr u) ->
  exists m g size,
    heap w !! vol_mod = Some m
    /\ thre3d_repr m = VoxelGridRepr g
    /\ py_index (stagewise_voxel_grid_sizes s) stage = inr size
    /\ heap w'
       = alter (with_thre3d_repr
                  (scale_voxel_grid_with_required_output_size g size "trilinear"))
               vol_mod (heap w)
    /\ env w' = env w.
Proof.
  unfold upsample. intros Hu.
  apply bind_inr in Hu as (g & w1 & H1 & Hu).
  apply get_voxel_grid_inr in H1 as [-> (m & Hm & Hg)].
  apply bind_inr in Hu as (size & w2 & H2 & Hu). apply lift_inr in H2 as [Hsize ->].
  apply bind_inr in Hu as (u3 & w3 & H3 & Hu).
  injection H3 as <-. injection Hu as <-.
  exists m, g, size. cbn. auto.
Qed.

Lemma train_stage_resolves_size s stage w w' u :
  train_stage a s vol_mod stage w = (w', inr u) ->
  stage <> num_stages a ->
  exists size, py_index (stagewise_voxel_grid_sizes s) stage = inr size.
Proof.
  unfold train_stage. intros Ht Hne.
  apply bind_inr in Ht as (g & w1 & _ & Ht).
  apply bind_inr in Ht as (u2 & w2 & _ & Ht).
  apply bind_inr in Ht as (u3 & w3 & _ & Ht).
  apply bind_inr in Ht as (o & w4 & _ & Ht).
  apply when_inr in Ht.
  destruct (stage =? num_stages a) eqn:E; [ lia | ]. cbn in Ht.
  apply upsample_inr in Ht as (m & g' & size & _ & _ & Hsize & _). eauto.
Qed.

Lemma heap_pure_ret {A} (x : A) : heap_pure (ret x).
Proof. intros w. reflexivity. Qed.

Lemma heap_pure_raise {A} e : heap_pure (raise e : M A).
Proof. intros w. reflexivity. Qed.

Lemma heap_pure_lift {A} (r : Error + A) : heap_pure (lift r).
Proof. destruct r; intros w; reflexivity. Qed.

Lemma heap_pure_emit e : heap_pure (emit e).
Proof. intros w. reflexivity. Qed.

Lemma heap_pure_read_model l : heap_pure (read_model l).
Proof. intros w. unfold read_model. destruct (heap w !! l); reflexivity. Qed.

Lemma heap_pure_bind {A B} (m : M A) (k : A -> M B) :
  heap_pure m -> (forall x, heap_pure (k x)) -> heap_pure (bind m k).
Proof.
  intros Hm Hk w. specialize (Hm w). unfold bind.
  destruct (m w) as [w1 [e | x]]; cbn in *.
  - exact Hm.
  - rewrite Hk. exact Hm.
Qed.

Lemma heap_pure_when b (m : M unit) : heap_pure m -> heap_pure (when b m).
Proof. destruct b; [ auto | intros _; apply heap_pure_ret ]. Qed.

Lemma heap_pure_foldM {A S} (l : list A) (body : A -> S -> M S) s :
  (forall x s', heap_pure (body x s')) -> heap_pure (foldM l body s).
Proof.
  intros Hbody. revert s. induction l as [| x l IH]; intros s; cbn.
  - apply heap_pure_ret.
  - apply heap_pure_bind; auto.
Qed.

Ltac heap_pure_step :=
  lazymatch goal with
  | |- heap_pure (ret _) => apply heap_pure_ret
  | |- heap_pure (raise _) => apply heap_pure_raise
  | |- heap_pure (lift _) => apply heap_pure_lift
  | |- heap_pure (emit _) => apply heap_pure_emit
  | |- heap_pure (read_model _) => apply heap_pure_read_model
  | |- heap_pure (when _ _) => apply heap_pure_when
  | |- heap_pure (bind _ _) => apply heap_pure_bind; [ | intros ? ]
  | |- heap_pure (for_each _ _) => apply heap_pure_foldM; intros ? ?
  | |- heap_pure (if _ then _ else _) => case_match
  | |- heap_pure (match _ with _ => _ end) => case_match
  end.

Lemma heap_pure_periodic_or_first_or_last freq g i :
  heap_pure (periodic_or_first_or_last a freq g i).
Proof. unfold periodic_or_first_or_last. repeat heap_pure_step. Qed.

Lemma heap_pure_tensorboard_summaries s g i l :
  heap_pure (tensorboard_summaries a s g i l).
Proof.
  unfold tensorboard_summaries. heap_pure_step.
  - apply heap_pure_periodic_or_first_or_last.
  - unfold add_scalar. repeat heap_pure_step.
Qed.

Lemma heap_pure_console_loss_feedback stage g i :
  heap_pure (console_loss_feedback a stage g i).
Proof.
  unfold console_loss_feedback. heap_pure_step.
  - apply heap_pure_periodic_or_first_or_last.
  - repeat heap_pure_step.
Qed.

Lemma heap_pure_step_lr_scheduler stage i optimizer :
  heap_pure (step_lr_scheduler a stage i optimizer).
Proof. unfold step_lr_scheduler. repeat heap_pure_step. Qed.

Lemma heap_pure_rendered_feedback s g i :
  heap_pure (rendered_feedback a s g i).
Proof.
  unfold rendered_feedback. heap_pure_step.
  - apply heap_pure_periodic_or_first_or_last.
  - repeat heap_pure_step.
Qed.

Lemma heap_pure_test_metrics s g i :
  heap_pure (test_metrics a s g i).
Proof. unfold test_metrics. repeat heap_pure_step. Qed.

Lemma heap_pure_save_model stage g i :
  heap_pure (save_model a vol_mod stage g i).
Proof.
  unfold save_model. heap_pure_step.
  - apply heap_pure_periodic_or_first_or_last.
  - repeat heap_pure_step.
Qed.

Lemma current_grid_set g w w' u :
  is_Some (heap w !! vol_mod) ->
  set_thre3d_repr vol_mod g w = (w', inr u) ->
  current_grid vol_mod w' = Some g.
Proof.
  intros [m Hm] [= <-]. unfold current_grid. cbn.
  rewrite lookup_alter_eq, Hm. reflexivity.
Qed.

Lemma get_voxel_grid_current w w' g :
  get_voxel_grid vol_mod w = (w', inr g) ->
  w' = w /\ current_grid vol_mod w = Some g.
Proof.
  intros Hg. apply get_voxel_grid_inr in Hg as [-> (m & Hm & Hr)].
  split; [ reflexivity | ]. unfold current_grid. rewrite Hm, Hr. reflexivity.
Qed.

Lemma current_grid_heap w w' :
  heap w' = heap w -> current_grid vol_mod w' = current_grid vol_mod w.
Proof. unfold current_grid. intros ->. reflexivity. Qed.

Lemma current_grid_is_Some w g :
  current_grid vol_mod w = Some g -> is_Some (heap w !! vol_mod).
Proof. unfold current_grid. destruct (heap w !! vol_mod); [ eauto | discriminate ]. Qed.

(** The gradient step writes into the tensors of the grid and keeps its
    resolution. *)
Lemma optimization_step_grid stage i optimizer w w' r :
  optimization_step a vol_mod stage i optimizer w = (w', inr r) ->
  exists g g',
    current_grid vol_mod w = Some g
    /\ current_grid vol_mod w' = Some g'
    /\ grid_dims g' = grid_dims g.
Proof.
  unfold optimization_step. intros Ho.
  apply bind_inr in Ho as ([images poses] & w1 & H1 & Ho).
  apply bind_inr in Ho as ([rays_batch pixels_batch] & w2 & H2 & Ho).
  apply bind_inr in Ho as (m & w3 & H3 & Ho).
  apply bind_inr in Ho as (g & w4 & H4 & Ho).
  apply bind_inr in Ho as (u & w5 & H5 & Ho).
  destruct (backward_and_step _ _ _) as [o' [d' f']].
  apply bind_inr in Ho as (u' & w6 & H6 & Ho).
  injection Ho as <- _.
  apply read_model_inr in H3 as [-> _].
  apply get_voxel_grid_current in H4 as [-> Hg].
  assert (heap w2 = heap w) as Hheap.
  { unfold with_env in H1, H2.
    destruct (next_batch (env w)) as [e1 x1]. injection H1 as <- _.
    cbn in H2. destruct (sample_random_rays_and_pixels_synchronously _ _ _ _) as [e2 x2].
    injection H2 as <- _. reflexivity. }
  injection H5 as <-.
  eexists g, _. split; [ | split ].
  - rewrite <- (current_grid_heap w w2 Hheap). exact Hg.
  - eapply current_grid_set; [ | exact H6 ]. cbn.
    eapply current_grid_is_Some. exact Hg.
  - reflexivity.
Qed.

Lemma iteration_grid s stage i optimizer w w' optimizer' :
  iteration a s vol_mod stage i optimizer w = (w', inr optimizer') ->
  exists g g',
    current_grid vol_mod w = Some g
    /\ current_grid vol_mod w' = Some g'
    /\ grid_dims g' = grid_dims g.
Proof.
  unfold iteration. intros Hi.
  apply bind_inr in Hi as ([o1 losses] & w1 & H1 & Hi).
  apply optimization_step_grid in H1 as (g & g' & Hg & Hg' & Hdims).
  apply bind_inr in Hi as (u2 & w2 & H2 & Hi).
  apply bind_inr in Hi as (u3 & w3 & H3 & Hi).
  apply bind_inr in Hi as (o4 & w4 & H4 & Hi).
  apply bind_inr in Hi as (u5 & w5 & H5 & Hi).
  apply bind_inr in Hi as (u6 & w6 & H6 & Hi).
  apply bind_inr in Hi as (u7 & w7 & H7 & Hi).
  injection Hi as <- _.
  exists g, g'. split; [ exact Hg | ]. split; [ | exact Hdims ].
  rewrite <- Hg'. apply current_grid_heap.
  pose proof (heap_pure_tensorboard_summaries s
                (global_step_of a stage i) i losses w1) as E2.
  pose proof (heap_pure_console_loss_feedback stage
                (global_step_of a stage i) i w2) as E3.
  pose proof (heap_pure_step_lr_scheduler stage i o1 w3) as E4.
  pose proof (heap_pure_rendered_feedback s (global_step_of a stage i) i w4) as E5.
  pose proof (heap_pure_test_metrics s (global_step_of a stage i) i w5) as E6.
  pose proof (heap_pure_save_model stage (global_step_of a stage i) i w6) as E7.
  rewrite H2 in E2. rewrite H3 in E3. rewrite H4 in E4.
  rewrite H5 in E5. rewrite H6 in E6. rewrite H7 in E7. cbn in *. congruence.
Qed.

Lemma iterations_grid s stage (l : list Z) :
  forall optimizer w w' optimizer' g,
    foldM l (iteration a s vol_mod stage) optimizer w = (w', inr optimizer') ->
    current_grid vol_mod w = Some g ->
    exists g', current_grid vol_mod w' = Some g' /\ grid_dims g' = grid_dims g.
Proof.
  induction l as [| i l IH]; intros optimizer w w' optimizer' g Hf Hg; cbn in Hf.
  - injection Hf as <- _. eauto.
  - apply bind_inr in Hf as (o1 & w1 & Hi & Hf).
    apply iteration_grid in Hi as (g0 & g1 & Hg0 & Hg1 & Hdims).
    rewrite Hg in Hg0. injection Hg0 as <-.
    eapply IH in Hf as (g' & Hg' & Hdims'); [ | exact Hg1 ].
    exists g'. split; [ exact Hg' | congruence ].
Qed.

(** Within a stage the resolution of the grid does not change; a stage but
    the last ends by replacing the grid with its trilinear resampling at the
    size scheduled at the index of the stage. *)
Lemma train_stage_grid s stage w w' u :
  train_stage a s vol_mod stage w = (w', inr u) ->
  exists g g_end,
    current_grid vol_mod w = Some g
    /\ grid_dims g_end = grid_dims g
    /\ ((stage = num_stages a /\ current_grid vol_mod w' = Some g_end)
        \/ (stage <> num_stages a
            /\ exists size,
                 py_index (stagewise_voxel_grid_sizes s) stage = inr size
                 /\ current_grid vol_mod w'
                    = Some (scale_voxel_grid_with_required_output_size
                              g_end size "trilinear"))).
Proof.
  unfold train_stage. intros Ht.
  apply bind_inr in Ht as (g & w1 & H1 & Ht).
  apply get_voxel_grid_current in H1 as [-> Hg].
  apply bind_inr in Ht as (u2 & w2 & H2 & Ht). apply assert_inr in H2 as [_ ->].
  apply bind_inr in Ht as (u3 & w3 & H3 & Ht). injection H3 as <-.
  apply bind_inr in Ht as (o & w4 & H4 & Ht).
  eapply iterations_grid in H4 as (g_end & Hend & Hdims); [ | exact Hg ].
  exists g, g_end. split; [ exact Hg | ]. split; [ exact Hdims | ].
  apply when_inr in Ht. destruct (stage =? num_stages a) eqn:E; cbn in Ht.
  - left. subst w'. split; [ lia | exact Hend ].
  - right. split; [ lia | ].
    apply upsample_inr in Ht as (m & g' & size & Hm & Hr & Hsize & Hheap & _).
    exists size. split; [ exact Hsize | ].
    unfold current_grid in Hend |- *. rewrite Hm, Hr in Hend. injection Hend as <-.
    rewrite Hheap, lookup_alter_eq, Hm. reflexivity.
Qed.

(** A stage builds its optimizer on the parameters of the grid it starts
    with, runs its iterations from the heap it starts with and, unless it is
    the last, ends by assigning to [vol_mod.thre3d_repr] the trilinear
    resampling of the very grid that its last iteration left; the last stage
    ends where its last iteration does. *)
Lemma train_stage_resamples s stage w w' u :
  train_stage a s vol_mod stage w = (w', inr u) ->
  exists g w_start optimizer' w_end g_end,
    current_grid vol_mod w = Some g
    /\ heap w_start = heap w
    /\ env w_start = env w
    /\ foldM (range1 (num_iterations_per_stage a)) (iteration a s vol_mod stage)
             (Adam (parameters g)
                   (learning_rate a
                    * float_pow (stagewise_lr_decay_gamma a) (stage - 1))%float)
             w_start
       = (w_end, inr optimizer')
    /\ current_grid vol_mod w_end = Some g_end
    /\ grid_dims g_end = grid_dims g
    /\ ((stage = num_stages a /\ w' = w_end)
        \/ (stage <> num_stages a
            /\ exists size,
                 py_index (stagewise_voxel_grid_sizes s) stage = inr size
                 /\ heap w'
                    = alter (with_thre3d_repr
                               (scale_voxel_grid_with_required_output_size
                                  g_end size "trilinear"))
                            vol_mod (heap w_end)
                 /\ env w' = env w_end
                 /\ current_grid vol_mod w'
                    = Some (scale_voxel_grid_with_required_output_size
                              g_end size "trilinear"))).
Proof.
  unfold train_stage. intros Ht.
  apply bind_inr in Ht as (g & w1 & H1 & Ht).
  apply get_voxel_grid_current in H1 as [-> Hg].
  apply bind_inr in Ht as (u2 & w2 & H2 & Ht). apply assert_inr in H2 as [_ ->].
  apply bind_inr in Ht as (u3 & w3 & H3 & Ht). injection H3 as <-.
  apply bind_inr in Ht as (o & w4 & H4 & Ht).
  pose proof H4 as Hiter.
  eapply iterations_grid in H4 as (g_end & Hend & Hdims); [ | exact Hg ].
  match type of Hiter with foldM _ _ _ ?w_start = _ =>
    exists g, w_start, o, w4, g_end
  end.
  split; [ exact Hg | ]. split; [ reflexivity | ]. split; [ reflexivity | ].
  split; [ exact Hiter | ]. split; [ exact Hend | ]. split; [ exact Hdims | ].
  apply when_inr in Ht. destruct (stage =? num_stages a) eqn:E; cbn in Ht.
  - left. subst w'. split; [ lia | reflexivity ].
  - right. split; [ lia | ].
    apply upsample_inr in Ht as (m & g' & size & Hm & Hr & Hsize & Hheap & Henv).
    exists size. split; [ exact Hsize | ].
    unfold current_grid in Hend. rewrite Hm, Hr in Hend. injection Hend as <-.
    split; [ exact Hheap | ]. split; [ exact Henv | ].
    unfold current_grid. rewrite Hheap, lookup_alter_eq, Hm. reflexivity.
Qed.

(** The set-up replaces the grid with its trilinear resampling at the first
    scheduled size, and then calls [random_initializer] on its densities and
    on its features. *)
Lemma downscale_and_reinitialize_grid sizes w w' u :
  downscale_and_reinitialize a vol_mod sizes w = (w', inr u) ->
  exists g size,
    current_grid vol_mod w = Some g
    /\ py_index sizes 0 = inr size
    /\ let scaled := scale_voxel_grid_with_required_output_size g size "trilinear" in
       current_grid vol_mod w'
       = Some {| grid_dims := grid_dims scaled;
                 densities := random_initializer a (densities scaled);
                 features := random_initializer a (features scaled) |}.
Proof.
  unfold downscale_and_reinitialize. intros Hd.
  apply bind_inr in Hd as (g & w1 & H1 & Hd).
  apply get_voxel_grid_current in H1 as [-> Hg].
  pose proof (current_grid_is_Some _ _ Hg) as Hsome.
  apply bind_inr in Hd as (size & w2 & H2 & Hd). apply lift_inr in H2 as [Hsize ->].
  apply bind_inr in Hd as (u3 & w3 & H3 & Hd). injection H3 as <-.
  apply bind_inr in Hd as (u4 & w4 & H4 & Hd).
  eapply current_grid_set in H4 as Hg4; [ | exact Hsome ].
  assert (is_Some (heap w4 !! vol_mod)) as Hsome4
    by (eapply current_grid_is_Some; exact Hg4).
  apply bind_inr in Hd as (g5 & w5 & H5 & Hd).
  apply get_voxel_grid_current in H5 as [-> Hg5].
  rewrite Hg4 in Hg5. injection Hg5 as <-.
  apply bind_inr in Hd as (u6 & w6 & H6 & Hd). injection H6 as <-.
  apply bind_inr in Hd as (u7 & w7 & H7 & Hd).
  eapply current_grid_set in H7 as Hg7; [ | exact Hsome4 ].
  assert (is_Some (heap w7 !! vol_mod)) as Hsome7
    by (eapply current_grid_is_Some; exact Hg7).
  apply bind_inr in Hd as (g8 & w8 & H8 & Hd).
  apply get_voxel_grid_current in H8 as [-> Hg8].
  rewrite Hg7 in Hg8. injection Hg8 as <-.
  apply bind_inr in Hd as (u9 & w9 & H9 & Hd). injection H9 as <-.
  eapply current_grid_set in Hd; [ | exact Hsome7 ].
  exists g, size. split; [ exact Hg | ]. split; [ exact Hsize | ].
  cbn in Hd |- *. exact Hd.
Qed.


End Grid.

(** * The claims *)

Section Claims.
Context `{Collaborators}.

(** ** The stage-start assertion *)

Lemma train_stage_falsy_parameters a s vol_mod stage w m g :
  heap w !! vol_mod = Some m ->
  thre3d_repr m = VoxelGridRepr g ->
  truth_value (parameters g) = false ->
  train_stage a s vol_mod stage w
  = (w, inl (AssertionError "No optimizeable parameters :(. Nothing will happen")).
Proof.
  intros Hm Hg Hp. unfold train_stage, bind, get_voxel_grid, bind, read_model.
  rewrite Hm, Hg. cbn. rewrite Hp. reflexivity.
Qed.

(** The assertion passes whatever is true: were [parameters()] to return an
    object that is true when empty, as a generator is, the stage would go on
    to build [Adam] on an empty list. *)
Lemma train_stage_truthy_parameters a s vol_mod stage w m g :
  setup_of a s ->
  stage ∈ range1 (num_stages a) ->
  heap w !! vol_mod = Some m ->
  thre3d_repr m = VoxelGridRepr g ->
  truth_value (parameters g) = true ->
  exists lr evs,
    trace (fst (train_stage a s vol_mod stage w))
    = trace w ++ EvAdam stage (parameter_list (parameters g)) lr :: evs.
Proof.
  intros Hsetup Hstage Hm Hg Hp.
  unfold train_stage, bind at 1, get_voxel_grid, bind at 1, read_model.
  rewrite Hm, Hg. cbn [ret]. unfold bind at 1. rewrite Hp. cbn [assert ret].
  unfold bind at 1. cbn [emit].
  match goal with |- context [bind ?m ?k ?w1] =>
    assert (safe a vol_mod (bind m k)) as Hsafe
  end.
  { apply safe_bind.
    - apply safe_foldM. intros i optimizer Hi. apply safe_iteration; assumption.
    - intros o _. apply safe_when. intros _. apply safe_upsample. }
  match goal with |- context [bind ?m ?k ?w1] =>
    destruct (Hsafe w1) as [(evs & Htrace & _) _]
  end.
  eexists _, evs. rewrite Htrace. cbn. rewrite <- app_assoc. reflexivity.
Qed.

Lemma train_events a vol_mod w :
  exists evs,
    trace (fst (train_sh_vox_grid_vol_mod_with_posed_images vol_mod a w)) = trace w ++ evs
    /\ Forall (emitted a) evs.
Proof. apply (safe_train a vol_mod w). Qed.

(** ** The global step *)

(** C2. In a run that completes, the iterations are those of the loop nest
    (stages 1 to [num_stages], iterations 1 to [num_iterations_per_stage] in
    each); the value of [global_step] in them, [(stage - 1) *
    num_iterations_per_stage + stage_iteration], counts 1, 2, 3, ... up to
    [num_stages * num_iterations_per_stage] over the whole run, and every
    call of an iteration that carries a step carries this one. In any run,
    completed or not, the step of every logging, feedback and test call is
    the global step of an iteration of the loop nest. *)
Theorem global_step_counts_iterations
    (a : TrainArgs) (vol_mod : loc) (w w' : World) (r : loc) :
  train_sh_vox_grid_vol_mod_with_posed_images vol_mod a w = (w', inr r) ->
  0 <= num_stages a ->
  0 <= num_iterations_per_stage a ->
  (exists sizes,
     calls w' = calls w ++ schedule a sizes
     /\ optimizer_steps (schedule a sizes)
        = flat_map (fun stage => map (fun i => (stage, i))
                                     (range1 (num_iterations_per_stage a)))
                   (range1 (num_stages a))
     /\ iteration_clock a (schedule a sizes)
        = seqZ 1 (num_stages a * num_iterations_per_stage a)
     /\ forall stage i, Forall (keyed_by a stage i) (schedule_iteration a stage i))
  /\ forall w0, exists evs,
       trace (fst (train_sh_vox_grid_vol_mod_with_posed_images vol_mod a w0))
       = trace w0 ++ evs
       /\ forall e g,
            e ∈ evs -> event_key e = Some g ->
            exists stage i,
              stage ∈ range1 (num_stages a)
              /\ i ∈ range1 (num_iterations_per_stage a)
              /\ g = global_step_of a stage i.
Proof.
  intros Hrun Hs Hn. split.
  - apply train_schedule in Hrun as (w1 & s & _ & Hcalls).
    exists (stagewise_voxel_grid_sizes s). split; [ exact Hcalls | ].
    split; [ apply optimizer_steps_schedule | ].
    split; [ apply iteration_clock_schedule; assumption | ].
    apply keyed_by_iteration.
  - intros w0. destruct (train_events a vol_mod w0) as (evs & Htrace & Hem).
    exists evs. split; [ exact Htrace | ].
    rewrite Forall_forall in Hem.
    intros e g Hin Hkey. apply Hem in Hin.
    inversion Hin; subst; cbn in Hkey; try discriminate;
      injection Hkey as <-; eauto.
Qed.

(** ** Scenario A *)

(** C4. With one stage of five iterations, [save_freq = 5] and
    [summary_freq = 1], a run that completes logs the losses at the global
    steps 1, 2, 3, 4, 5 (five times, once per iteration), and writes three
    files: the snapshots of iterations 1 and 5, and the final model under a
    name of its own. *)
Theorem scenario_one_stage_five_iterations
    (a : TrainArgs) (vol_mod : loc) (w w' : World) (r : loc) :
  num_stages a = 1 ->
  num_iterations_per_stage a = 5 ->
  save_freq a = 5 ->
  summary_freq a = 1 ->
  train_sh_vox_grid_vol_mod_with_posed_images vol_mod a w = (w', inr r) ->
  exists cs,
    calls w' = calls w ++ cs
    /\ loss_info_steps cs = [1; 2; 3; 4; 5]
    /\ scalar_steps "total_loss" cs = [1; 2; 3; 4; 5]
    /\ saved_files cs
       = ["model_stage_1_iter_1.pth"; "model_stage_1_iter_5.pth"; "model_final.pth"].
Proof.
  intros Hs Hn Hsave Hsum Hrun.
  apply train_schedule in Hrun as (w1 & s & _ & Hcalls).
  exists (schedule a (stagewise_voxel_grid_sizes s)). split; [ exact Hcalls | ].
  rewrite loss_info_steps_schedule, scalar_steps_schedule, saved_files_schedule.
  rewrite Hs, Hn. change (range1 1) with [1]. change (range1 5) with [1; 2; 3; 4; 5].
  cbn [flat_map].
  rewrite !loss_info_steps_iteration, !scalar_steps_iteration, !saved_files_iteration.
  unfold trigger, global_step_of. rewrite Hn, Hsave, Hsum.
  repeat split; reflexivity.
Qed.

(** ** Scenario B *)

Lemma compute_losses_without_diffuse a m rays_batch pixels_batch :
  apply_diffuse_render_regularization a = false ->
  compute_losses a m rays_batch pixels_batch
  = {| specular_loss_value := l1_loss (render_rays m rays_batch false) pixels_batch;
       specular_psnr_value :=
         mse2psnr (mse_loss (render_rays m rays_batch false) pixels_batch);
       diffuse_loss_value := None;
       diffuse_psnr_value := None;
       total_loss := l1_loss (render_rays m rays_batch false) pixels_batch |}.
Proof. intros Hd. unfold compute_losses. rewrite Hd. reflexivity. Qed.

Lemma summaries_without_diffuse a m rays_batch pixels_batch q name value :
  apply_diffuse_render_regularization a = false ->
  (name, Some value) ∈ summaries (compute_losses a m rays_batch pixels_batch) q ->
  let specular := l1_loss (render_rays m rays_batch false) pixels_batch in
  (name = "specular_loss" /\ value = TensorValue specular)
  \/ (name = "specular_psnr"
      /\ value = TensorValue
                   (mse2psnr (mse_loss (render_rays m rays_batch false) pixels_batch)))
  \/ (name = "total_loss" /\ value = TensorValue specular)
  \/ (name = "num_epochs" /\ value = Quotient (fst q) (snd q)).
Proof.
  intros Hd Hin. rewrite compute_losses_without_diffuse in Hin by exact Hd.
  unfold summaries in Hin. cbn in Hin.
  repeat (apply elem_of_cons in Hin as [Hin | Hin]);
    [ .. | apply elem_of_nil in Hin; contradiction ];
    inversion Hin; subst; auto 10.
Qed.

(** C5. Without the diffuse regularization, the tuple of summaries of every
    iteration has no value under [diffuse_loss] and [diffuse_psnr] and the same
    tensor, the specular L1 loss of the batch, under [specular_loss] and
    [total_loss]; and in any run, completed or not, no scalar is written under
    the two diffuse names, and the loss that every gradient step minimises and
    every [total_loss] written is the specular loss of a batch. *)
Theorem scenario_without_diffuse_regularization
    (a : TrainArgs) (vol_mod : loc) (w : World) :
  apply_diffuse_render_regularization a = false ->
  (forall m rays_batch pixels_batch q,
     let l := compute_losses a m rays_batch pixels_batch in
     total_loss l = specular_loss_value l
     /\ summaries l q
        = [ ("specular_loss", Some (TensorValue (specular_loss_value l)));
            ("diffuse_loss", None);
            ("specular_psnr", Some (TensorValue (specular_psnr_value l)));
            ("diffuse_psnr", None);
            ("total_loss", Some (TensorValue (specular_loss_value l)));
            ("num_epochs", Some (Quotient (fst q) (snd q))) ])
  /\ exists evs,
       trace (fst (train_sh_vox_grid_vol_mod_with_posed_images vol_mod a w))
       = trace w ++ evs
       /\ (forall name value g,
             EvAddScalar name value g ∈ evs ->
             name <> "diffuse_loss" /\ name <> "diffuse_psnr")
       /\ (forall value g,
             EvAddScalar "total_loss" value g ∈ evs ->
             exists m rays_batch pixels_batch,
               value = TensorValue
                         (l1_loss (render_rays m rays_batch false) pixels_batch))
       /\ (forall stage i objective,
             EvOptimizerStep stage i objective ∈ evs ->
             exists m rays_batch pixels_batch,
               objective = l1_loss (render_rays m rays_batch false) pixels_batch).
Proof.
  intros Hd. split.
  - intros m rays_batch pixels_batch q l. subst l.
    rewrite compute_losses_without_diffuse by exact Hd. split; reflexivity.
  - destruct (train_events a vol_mod w) as (evs & Htrace & Hem).
    exists evs. split; [ exact Htrace | ].
    rewrite Forall_forall in Hem.
    split; [ | split ].
    + intros name value g Hin. apply Hem in Hin. inversion Hin; subst.
      match goal with Hs : _ ∈ summaries _ _ |- _ =>
        apply (summaries_without_diffuse _ _ _ _ _ _ _ Hd) in Hs
          as [[-> _] | [[-> _] | [[-> _] | [-> _]]]]
      end; split; discriminate.
    + intros value g Hin. apply Hem in Hin. inversion Hin; subst.
      match goal with Hs : _ ∈ summaries _ _ |- _ =>
        apply (summaries_without_diffuse _ _ _ _ _ _ _ Hd) in Hs
          as [[Hn ->] | [[Hn ->] | [[Hn ->] | [Hn ->]]]]
      end; try discriminate.
      eauto.
    + intros stage i objective Hin. apply Hem in Hin. inversion Hin; subst.
      rewrite compute_losses_without_diffuse by exact Hd. cbn. eauto.
Qed.

(** ** Scenario C *)

(** C6. In fast debug mode, whatever [test_freq] and whether or not a test
    dataset is given, no run calls the test procedure or the camera-rays
    visualisation; and a run that completes still performs every iteration of
    every stage. *)
Theorem fast_debug_mode_skips_evaluation
    (a : TrainArgs) (vol_mod : loc) (w : World) :
  fast_debug_mode a = true ->
  (exists evs,
     trace (fst (train_sh_vox_grid_vol_mod_with_posed_images vol_mod a w))
     = trace w ++ evs
     /\ (forall g, EvTest g ∉ evs)
     /\ EvVisualizeCameraRays ∉ evs)
  /\ (forall w' r,
        train_sh_vox_grid_vol_mod_with_posed_images vol_mod a w = (w', inr r) ->
        exists cs,
          calls w' = calls w ++ cs
          /\ optimizer_steps cs
             = flat_map (fun stage => map (fun i => (stage, i))
                                          (range1 (num_iterations_per_stage a)))
                        (range1 (num_stages a))).
Proof.
  intros Hfast. split.
  - destruct (train_events a vol_mod w) as (evs & Htrace & Hem).
    exists evs. split; [ exact Htrace | ].
    rewrite Forall_forall in Hem. split.
    + intros g Hin. apply Hem in Hin. inversion Hin; subst. congruence.
    + intros Hin. apply Hem in Hin. inversion Hin; subst. congruence.
  - intros w' r Hrun. apply train_schedule in Hrun as (w1 & s & _ & Hcalls).
    exists (schedule a (stagewise_voxel_grid_sizes s)).
    split; [ exact Hcalls | apply optimizer_steps_schedule ].
Qed.

(** ** Visual feedback *)

(** C8, as the code has it. Every rendered-feedback call of a run, completed
    or not, is made for the one feedback pose resolved before the loop and
    with [log_diffuse_rendered_version=True], whatever the value of
    [apply_diffuse_render_regularization]. *)
Theorem feedback_always_logs_diffuse_version
    (a : TrainArgs) (vol_mod : loc) (w : World) :
  exists evs,
    trace (fst (train_sh_vox_grid_vol_mod_with_posed_images vol_mod a w))
    = trace w ++ evs
    /\ forall pose g log_diffuse_rendered_version,
         EvRenderedFeedback pose g log_diffuse_rendered_version ∈ evs ->
         log_diffuse_rendered_version = true
         /\ exists image, setup_render_feedback_pose a = inr (pose, image).
Proof.
  destruct (train_events a vol_mod w) as (evs & Htrace & Hem).
  exists evs. split; [ exact Htrace | ].
  rewrite Forall_forall in Hem.
  intros pose g d Hin. apply Hem in Hin. inversion Hin; subst. eauto.
Qed.

(** ** Resizing *)

(** C9. In a run that completes, the grid is changed by these calls and no
    others, in this order: the downscale to the first scheduled size and the
    two re-initialisations, before the loop; then, for each stage but the
    last, one trilinear resize to the size scheduled at the index of the
    stage, made after the iterations of the stage. No iteration resizes or
    re-initialises, and the last stage ends with its last iteration. On the
    heap, a stage runs its iterations from the heap it starts with, and they
    keep the resolution of the grid; unless the stage is the last, it then
    assigns to [vol_mod.thre3d_repr] the trilinear resampling of the very
    grid that its last iteration left -- densities and features as the
    optimizer wrote them -- and changes nothing else; the last stage ends in
    the world that its last iteration left. The set-up, instead, resamples
    the grid passed in and then calls [random_initializer] on the densities
    and on the features of the result. *)
Theorem resize_only_between_stages
    (a : TrainArgs) (vol_mod : loc) (w w' : World) (r : loc) :
  train_sh_vox_grid_vol_mod_with_posed_images vol_mod a w = (w', inr r) ->
  exists s : Setup,
    calls w' = calls w ++ schedule a (stagewise_voxel_grid_sizes s)
    /\ grid_calls (schedule a (stagewise_voxel_grid_sizes s))
       = schedule_scale (stagewise_voxel_grid_sizes s) 0
         ++ [CRandomInit "densities"; CRandomInit "features"]
         ++ flat_map (fun stage =>
                        if stage =? num_stages a then []
                        else schedule_scale (stagewise_voxel_grid_sizes s) stage)
                     (range1 (num_stages a))
    /\ (forall stage,
          stage ∈ range1 (num_stages a) ->
          stage <> num_stages a ->
          exists size,
            py_index (stagewise_voxel_grid_sizes s) stage = inr size
            /\ schedule_stage a (stagewise_voxel_grid_sizes s) stage
               = CAdam stage
                 :: flat_map (schedule_iteration a stage)
                             (range1 (num_iterations_per_stage a))
                 ++ [CScaleGrid size "trilinear"])
    /\ schedule_stage a (stagewise_voxel_grid_sizes s) (num_stages a)
       = CAdam (num_stages a)
         :: flat_map (schedule_iteration a (num_stages a))
                     (range1 (num_iterations_per_stage a))
    /\ (forall stage i, grid_calls (schedule_iteration a stage i) = [])
    /\ (forall stage w1 w2 u,
          train_stage a s vol_mod stage w1 = (w2, inr u) ->
          exists g w_start optimizer' w_end g_end,
            current_grid vol_mod w1 = Some g
            /\ heap w_start = heap w1
            /\ env w_start = env w1
            /\ foldM (range1 (num_iterations_per_stage a))
                     (iteration a s vol_mod stage)
                     (Adam (parameters g)
                           (learning_rate a
                            * float_pow (stagewise_lr_decay_gamma a) (stage - 1))%float)
                     w_start
               = (w_end, inr optimizer')
            /\ current_grid vol_mod w_end = Some g_end
            /\ grid_dims g_end = grid_dims g
            /\ ((stage = num_stages a /\ w2 = w_end)
                \/ (stage <> num_stages a
                    /\ exists size,
                         py_index (stagewise_voxel_grid_sizes s) stage = inr size
                         /\ heap w2
                            = alter (with_thre3d_repr
                                       (scale_voxel_grid_with_required_output_size
                                          g_end size "trilinear"))
                                    vol_mod (heap w_end)
                         /\ env w2 = env w_end
                         /\ current_grid vol_mod w2
                            = Some (scale_voxel_grid_with_required_output_size
                                      g_end size "trilinear"))))
    /\ (forall stage i optimizer w1 w2 optimizer',
          iteration a s vol_mod stage i optimizer w1 = (w2, inr optimizer') ->
          exists g g',
            current_grid vol_mod w1 = Some g
            /\ current_grid vol_mod w2 = Some g'
            /\ grid_dims g' = grid_dims g)
    /\ (forall w1 w2 u,
          downscale_and_reinitialize a vol_mod (stagewise_voxel_grid_sizes s) w1
          = (w2, inr u) ->
          exists g size,
            current_grid vol_mod w1 = Some g
            /\ py_index (stagewise_voxel_grid_sizes s) 0 = inr size
            /\ let scaled :=
                 scale_voxel_grid_with_required_output_size g size "trilinear" in
               current_grid vol_mod w2
               = Some {| grid_dims := grid_dims scaled;
                         densities := random_initializer a (densities scaled);
                         features := random_initializer a (features scaled) |}).
Proof.
  intros Hrun.
  pose proof Hrun as Hs. apply train_schedule in Hs as (w1 & s & Hinit & Hcalls).
  exists s. split; [ exact Hcalls | ].
  split; [ apply grid_calls_schedule | ].
  split; [ | split; [ | split; [ | split; [ | split ] ] ] ].
  - intros stage Hin Hne.
    unfold train_sh_vox_grid_vol_mod_with_posed_images in Hrun.
    apply bind_inr in Hrun as (s' & w1' & Hinit' & Hrun).
    rewrite Hinit in Hinit'. injection Hinit' as <- <-.
    apply bind_inr in Hrun as (u & w2 & Hloop & _).
    unfold for_each in Hloop.
    eapply foldM_inr_elem in Hloop as ([] & wa & [] & wb & Hstage); [ | exact Hin ].
    apply train_stage_resolves_size in Hstage as [size Hsize]; [ | exact Hne ].
    exists size. split; [ exact Hsize | ].
    unfold schedule_stage, schedule_scale. rewrite Hsize.
    destruct (stage =? num_stages a) eqn:E; [ lia | reflexivity ].
  - unfold schedule_stage. rewrite Z.eqb_refl, app_nil_r. reflexivity.
  - apply grid_calls_iteration.
  - intros stage wa wb u. apply train_stage_resamples.
  - intros stage i optimizer wa wb optimizer'. apply iteration_grid.
  - intros wa wb u. apply downscale_and_reinitialize_grid.
Qed.

(** ** The value returned *)







(** ** The number of epochs *)

Lemma setup_dataloaders_train_dl a tdl tst :
  setup_dataloaders a = inr (tdl, tst) ->
  tdl = {| dl_num_samples := Z.of_nat (length (samples (train_dataset a)));
           dl_batch_size := image_batch_cache_size a;
           dl_drop_last := true |}.
Proof.
  unfold setup_dataloaders, make_dataloader.
  destruct (_ || _); [ discriminate | ].
  destruct (test_dataset a).
  - destruct (_ || _); [ discriminate | ]. intros [= <- _]. reflexivity.
  - intros [= <- _]. reflexivity.
Qed.

(** What the code writes under [num_epochs] in any run: the number of rays
    seen so far over [len(train_dl) * height * width], where [len(train_dl)]
    is the number of batches of [image_batch_cache_size] images. *)
Lemma num_epochs_value a vol_mod w :
  exists evs,
    trace (fst (train_sh_vox_grid_vol_mod_with_posed_images vol_mod a w))
    = trace w ++ evs
    /\ forall value g,
         EvAddScalar "num_epochs" value g ∈ evs ->
         value = Quotient
                   (ray_batch_size a * g)
                   (Z.of_nat (length (samples (train_dataset a)))
                      / image_batch_cache_size a
                    * height (camera_intrinsics (train_dataset a))
                    * width (camera_intrinsics (train_dataset a))).
Proof.
  destruct (train_events a vol_mod w) as (evs & Htrace & Hem).
  exists evs. split; [ exact Htrace | ].
  rewrite Forall_forall in Hem.
  intros value g Hin. apply Hem in Hin. inversion Hin; subst.
  match goal with Hd : setup_dataloaders _ = _ |- _ =>
    apply setup_dataloaders_train_dl in Hd; subst tdl end.
  match goal with Hs : _ ∈ summaries _ _ |- _ => rename Hs into Hsum end.
  unfold summaries in Hsum.
  repeat (apply elem_of_cons in Hsum as [Hsum | Hsum]; [ try discriminate | ]).
  - injection Hsum as ->. reflexivity.
  - apply elem_of_nil in Hsum. contradiction.
Qed.

End Claims.

(** * Further properties of the procedure *)

Section Preconditions.
Context `{Collaborators}.

(** X1. Lines 108-115: when the representation of the model is not a voxel
    grid, or its render procedure is not [render_sh_voxel_grid], the call
    raises an assertion error and leaves the world as it found it: nothing is
    resized, drawn, written or logged. *)
Theorem unfit_model_is_refused
    (a : TrainArgs) (vol_mod : loc) (w : World) (m : VolumetricModel) :
  heap w !! vol_mod = Some m ->
  is_voxel_grid m = false \/ render_procedure m <> render_sh_voxel_grid ->
  exists msg,
    train_sh_vox_grid_vol_mod_with_posed_images vol_mod a w
    = (w, inl (AssertionError msg)).
Proof.
  intros Hm Hbad.
  unfold train_sh_vox_grid_vol_mod_with_posed_images, initialize, check_model.
  unfold bind at 1. unfold bind at 1. unfold bind at 1. unfold read_model.
  rewrite Hm. unfold is_voxel_grid in Hbad.
  destruct (thre3d_repr m) as [g | o] eqn:Hr.
  - destruct Hbad as [Hbad | Hbad]; [ discriminate | ].
    destruct (render_procedure m) as [| name] eqn:Hp; [ congruence | ].
    eexists. unfold bind. cbn. reflexivity.
  - eexists. reflexivity.
Qed.

(** X2. Lines 117-122: when [compute_thre3d_grid_sizes] raises, on a model
    that passes the two assertions, the call raises the same exception and
    leaves the world as it found it: the model has not been resized. *)
Theorem grid_sizes_failure_leaves_the_model
    (a : TrainArgs) (vol_mod : loc) (w : World) (g : VoxelGrid) (e : Error) :
  heap w !! vol_mod
  = Some {| thre3d_repr := VoxelGridRepr g; render_procedure := render_sh_voxel_grid |} ->
  compute_thre3d_grid_sizes (grid_dims g) (num_stages a) (scale_factor a) = inl e ->
  train_sh_vox_grid_vol_mod_with_posed_images vol_mod a w = (w, inl e).
Proof.
  intros Hm He.
  unfold train_sh_vox_grid_vol_mod_with_posed_images, initialize, check_model.
  unfold bind at 1. unfold bind at 1. unfold bind at 1. unfold read_model.
  rewrite Hm. cbn. unfold bind at 1. rewrite He. reflexivity.
Qed.

End Preconditions.

Section NeverCalled.
Context `{Collaborators}.
Variables (a : TrainArgs) (vol_mod : loc).

(** X3. Lines 165-180 and 412-426: without a test dataset there is no test
    loader, and no run, completed or not, calls the test procedure, whatever
    [test_freq] and [fast_debug_mode]. *)
Theorem no_test_dataset_no_test (w : World) :
  test_dataset a = None ->
  exists evs,
    trace (fst (train_sh_vox_grid_vol_mod_with_posed_images vol_mod a w))
    = trace w ++ evs
    /\ forall g, EvTest g ∉ evs.
Proof.
  intros Hnone. destruct (train_events a vol_mod w) as (evs & Htrace & Hem).
  exists evs. split; [ exact Htrace | ].
  rewrite Forall_forall in Hem.
  intros g Hin. apply Hem in Hin. inversion Hin; subst.
  match goal with Ht : is_Some (test_dataset a) |- _ =>
    rewrite Hnone in Ht; destruct Ht; discriminate end.
Qed.

(** X4. Lines 137-145, 200-206 and 398-409: when the caller supplies the
    feedback pose, every rendered feedback of a run, completed or not, is
    made for that pose, in every stage, and no real image is written. *)
Theorem supplied_feedback_pose_is_used (w : World) (supplied : CameraPose) :
  render_feedback_pose a = Some supplied ->
  exists evs,
    trace (fst (train_sh_vox_grid_vol_mod_with_posed_images vol_mod a w))
    = trace w ++ evs
    /\ (forall pose g d, EvRenderedFeedback pose g d ∈ evs -> pose = supplied)
    /\ forall name, EvWriteImage name ∉ evs.
Proof.
  intros Hpose. destruct (train_events a vol_mod w) as (evs & Htrace & Hem).
  exists evs. split; [ exact Htrace | ].
  rewrite Forall_forall in Hem. split.
  - intros pose g d Hin. apply Hem in Hin. inversion Hin; subst.
    match goal with Hs : setup_render_feedback_pose a = _ |- _ =>
      unfold setup_render_feedback_pose in Hs; rewrite Hpose in Hs;
      injection Hs as <- _ end.
    reflexivity.
  - intros name Hin. apply Hem in Hin. inversion Hin; subst. congruence.
Qed.

(** X5. Lines 139-145: when no feedback pose is supplied, every rendered
    feedback of a run is made for the pose of the first sample of the test
    dataset if there is one, of the training dataset otherwise. *)
Theorem derived_feedback_pose_is_first_sample
    (w : World) (image : Images) (pose_matrix : PoseMatrix)
    (others : list (Images * PoseMatrix)) :
  render_feedback_pose a = None ->
  samples (feedback_dataset a) = (image, pose_matrix) :: others ->
  exists evs,
    trace (fst (train_sh_vox_grid_vol_mod_with_posed_images vol_mod a w))
    = trace w ++ evs
    /\ forall pose g d,
         EvRenderedFeedback pose g d ∈ evs -> pose = camera_pose_of pose_matrix.
Proof.
  intros Hpose Hsamples. destruct (train_events a vol_mod w) as (evs & Htrace & Hem).
  exists evs. split; [ exact Htrace | ].
  rewrite Forall_forall in Hem.
  intros pose g d Hin. apply Hem in Hin. inversion Hin; subst.
  match goal with Hs : setup_render_feedback_pose a = _ |- _ =>
    unfold setup_render_feedback_pose in Hs; rewrite Hpose in Hs;
    unfold feedback_dataset in Hsamples; rewrite Hsamples in Hs;
    injection Hs as <- _ end.
  reflexivity.
Qed.

End NeverCalled.

Section Emissions.
Context `{Collaborators}.

Lemma emits_only_ret {A} P (x : A) : emits_only P (ret x).
Proof. intros w. exists []. split; [ symmetry; apply app_nil_r | constructor ]. Qed.

Lemma emits_only_raise {A} P e : emits_only P (raise e : M A).
Proof. intros w. exists []. split; [ symmetry; apply app_nil_r | constructor ]. Qed.

Lemma emits_only_lift {A} P (r : Error + A) : emits_only P (lift r).
Proof. destruct r; [ apply emits_only_raise | apply emits_only_ret ]. Qed.

Lemma emits_only_assert P b msg : emits_only P (assert b msg).
Proof. destruct b; [ apply emits_only_ret | apply emits_only_raise ]. Qed.

Lemma emits_only_emit (P : Event -> Prop) e : P e -> emits_only P (emit e).
Proof. intros He w. exists [e]. split; [ reflexivity | repeat constructor; exact He ]. Qed.

Lemma emits_only_read_model P l : emits_only P (read_model l).
Proof.
  intros w. unfold read_model. exists [].
  destruct (heap w !! l); (split; [ symmetry; apply app_nil_r | constructor ]).
Qed.

Lemma emits_only_set_thre3d_repr P l g : emits_only P (set_thre3d_repr l g).
Proof. intros w. exists []. split; [ symmetry; apply app_nil_r | constructor ]. Qed.

Lemma emits_only_with_env {A} P (f : Env -> Env * A) : emits_only P (with_env f).
Proof.
  intros w. unfold with_env. destruct (f (env w)). exists [].
  split; [ symmetry; apply app_nil_r | constructor ].
Qed.

Lemma emits_only_bind {A B} P (m : M A) (k : A -> M B) :
  emits_only P m -> (forall x, emits_only P (k x)) -> emits_only P (bind m k).
Proof.
  intros Hm Hk w. destruct (Hm w) as (e1 & T1 & F1). unfold bind.
  destruct (m w) as [w1 [e | x]]; cbn in *.
  - eauto.
  - destruct (Hk x w1) as (e2 & T2 & F2). exists (e1 ++ e2). split.
    + rewrite T2, T1. symmetry. apply app_assoc.
    + apply Forall_app; auto.
Qed.

Lemma emits_only_when P b (m : M unit) : emits_only P m -> emits_only P (when b m).
Proof. destruct b; [ auto | intros _; apply emits_only_ret ]. Qed.

Lemma emits_only_foldM {A S} P (l : list A) (body : A -> S -> M S) s :
  (forall x s', emits_only P (body x s')) -> emits_only P (foldM l body s).
Proof.
  intros Hbody. revert s. induction l as [| x l IH]; intros s; cbn.
  - apply emits_only_ret.
  - apply emits_only_bind; auto.
Qed.

Ltac head_of t :=
  lazymatch t with
  | ?f _ => head_of f
  | _ => t
  end.

Ltac emits_only_step :=
  cbv beta;
  lazymatch goal with
  | |- emits_only _ (ret _) => apply emits_only_ret
  | |- emits_only _ (raise _) => apply emits_only_raise
  | |- emits_only _ (lift _) => apply emits_only_lift
  | |- emits_only _ (assert _ _) => apply emits_only_assert
  | |- emits_only _ (emit _) => apply emits_only_emit
  | |- emits_only _ (read_model _) => apply emits_only_read_model
  | |- emits_only _ (set_thre3d_repr _ _) => apply emits_only_set_thre3d_repr
  | |- emits_only _ (with_env _) => apply emits_only_with_env
  | |- emits_only _ (bind _ _) => apply emits_only_bind; [ | intros ? ]
  | |- emits_only _ (when _ _) => apply emits_only_when
  | |- emits_only _ (foldM _ _ _) => apply emits_only_foldM; intros ? ?
  | |- emits_only _ (match ?x with _ => _ end) => destruct x
  | |- emits_only _ ?m => let f := head_of m in unfold f
  end.

Lemma snapshot_file_not_final stage g : snapshot_file stage g <> "model_final.pth".
Proof. unfold snapshot_file. cbn. discriminate. Qed.

(** Before the final save, no call is the final save. *)
Lemma initialize_not_final a vol_mod :
  emits_only (fun e => is_final_save e = false) (initialize a vol_mod).
Proof. repeat emits_only_step; reflexivity. Qed.

Lemma train_stage_not_final a s vol_mod stage :
  emits_only (fun e => is_final_save e = false) (train_stage a s vol_mod stage).
Proof.
  repeat emits_only_step; reflexivity.
Qed.

Lemma training_not_final a vol_mod s :
  emits_only (fun e => is_final_save e = false)
             (for_each (range1 (num_stages a)) (train_stage a s vol_mod)).
Proof.
  unfold for_each. apply emits_only_foldM. intros stage []. apply train_stage_not_final.
Qed.

Lemma not_final_save evs m :
  Forall (fun e => is_final_save e = false) evs ->
  EvTorchSave "model_final.pth" m ∉ evs.
Proof.
  intros Hall Hin. rewrite Forall_forall in Hall. apply Hall in Hin.
  cbn in Hin. discriminate.
Qed.

(** X6. Lines 461-476: a run that completes writes [model_final.pth] once, as
    its last call, and what it writes is the state of the model that it
    returns. *)
Theorem final_model_is_the_model_returned
    (a : TrainArgs) (vol_mod : loc) (w w' : World) (r : loc) :
  train_sh_vox_grid_vol_mod_with_posed_images vol_mod a w = (w', inr r) ->
  exists evs m,
    trace w' = trace w ++ evs ++ [EvTorchSave "model_final.pth" m]
    /\ (forall m', EvTorchSave "model_final.pth" m' ∉ evs)
    /\ heap w' !! r = Some m.
Proof.
  unfold train_sh_vox_grid_vol_mod_with_posed_images. intros Ht.
  apply bind_inr in Ht as (s & w1 & H1 & Ht).
  apply bind_inr in Ht as (u & w2 & H2 & Ht).
  apply bind_inr in Ht as (m & w3 & H3 & Ht).
  apply bind_inr in Ht as (u4 & w4 & H4 & Ht).
  injection Ht as <- <-. apply read_model_inr in H3 as [-> Hm].
  injection H4 as <-. cbn.
  destruct (initialize_not_final a vol_mod w) as (e1 & T1 & F1).
  destruct (training_not_final a vol_mod s w1) as (e2 & T2 & F2).
  rewrite H1 in T1. rewrite H2 in T2. cbn in T1, T2.
  exists (e1 ++ e2), m. split; [ | split ].
  - rewrite T2, T1, <- !app_assoc. reflexivity.
  - intros m'. apply not_final_save. apply Forall_app; auto.
  - exact Hm.
Qed.

(** *** The losses that the events carry *)

Lemma emits_only_foldM_elem {A S} P (l : list A) (body : A -> S -> M S) s :
  (forall x s', x ∈ l -> emits_only P (body x s')) -> emits_only P (foldM l body s).
Proof.
  revert s. induction l as [| x l IH]; intros s Hbody; cbn.
  - apply emits_only_ret.
  - apply emits_only_bind.
    + apply Hbody. left.
    + intros s'. apply IH. intros y s'' Hy. apply Hbody. right. exact Hy.
Qed.

Lemma reports_losses_weaken a K K' L L' e :
  (forall stage i, K stage i = true -> K' stage i = true /\ L' stage i = L stage i) ->
  reports_losses a K L e -> reports_losses a K' L' e.
Proof.
  intros HK. destruct e; cbn; try (intros; exact I).
  - intros (Hk & m & rays_batch & pixels_batch & HL & Hobj).
    destruct (HK _ _ Hk) as [Hk' HL']. split; [ exact Hk' | ].
    exists m, rays_batch, pixels_batch. rewrite HL'. auto.
  - intros (stage & i & l & q & Hk & Hg & HL & Hin).
    destruct (HK _ _ Hk) as [Hk' HL']. exists stage, i, l, q. rewrite HL'. auto.
Qed.

Lemma loss_free_reports a K L e : loss_free e -> reports_losses a K L e.
Proof. destruct e; cbn; tauto. Qed.

Lemma reports_of_loss_free {A} a K (m : M A) :
  emits_only loss_free m -> reports_run a K m.
Proof.
  intros Hm w. destruct (Hm w) as (evs & Ht & Hf).
  exists evs, (fun _ _ => None). split; [ exact Ht | ].
  eapply Forall_impl; [ exact Hf | ]. intros e. apply loss_free_reports.
Qed.

Lemma reports_bind_prefix {A B} a K (m : M A) (k : A -> M B) :
  emits_only loss_free m -> (forall x, reports_run a K (k x)) ->
  reports_run a K (bind m k).
Proof.
  intros Hm Hk w. destruct (Hm w) as (e1 & T1 & F1). unfold bind.
  destruct (m w) as [w1 [e | x]]; cbn in *.
  - exists e1, (fun _ _ => None). split; [ exact T1 | ].
    eapply Forall_impl; [ exact F1 | ]. intros e'. apply loss_free_reports.
  - destruct (Hk x w1) as (e2 & L & T2 & F2). exists (e1 ++ e2), L. split.
    + rewrite T2, T1. symmetry. apply app_assoc.
    + apply Forall_app. split; [ | exact F2 ].
      eapply Forall_impl; [ exact F1 | ]. intros e'. apply loss_free_reports.
Qed.

Lemma reports_bind_suffix {A B} a K (m : M A) (k : A -> M B) :
  reports_run a K m -> (forall x, emits_only loss_free (k x)) ->
  reports_run a K (bind m k).
Proof.
  intros Hm Hk w. destruct (Hm w) as (e1 & L & T1 & F1). unfold bind.
  destruct (m w) as [w1 [e | x]]; cbn in *.
  - exists e1, L. auto.
  - destruct (Hk x w1) as (e2 & T2 & F2). exists (e1 ++ e2), L. split.
    + rewrite T2, T1. symmetry. apply app_assoc.
    + apply Forall_app. split; [ exact F1 | ].
      eapply Forall_impl; [ exact F2 | ]. intros e'. apply loss_free_reports.
Qed.

(** Two parts of a run that concern different iterations report together. *)
Lemma reports_bind_merge {A B} a K1 K2 (m : M A) (k : A -> M B) :
  (forall stage i, K1 stage i = true -> K2 stage i = false) ->
  reports_run a K1 m -> (forall x, reports_run a K2 (k x)) ->
  reports_run a (fun stage i => K1 stage i || K2 stage i) (bind m k).
Proof.
  intros Hdisj Hm Hk w. destruct (Hm w) as (e1 & L1 & T1 & F1). unfold bind.
  destruct (m w) as [w1 [e | x]]; cbn in *.
  - exists e1, L1. split; [ exact T1 | ].
    eapply Forall_impl; [ exact F1 | ]. intros e'.
    apply reports_losses_weaken. intros stage i Hk1. rewrite Hk1. auto.
  - destruct (Hk x w1) as (e2 & L2 & T2 & F2).
    exists (e1 ++ e2), (fun stage i => if K1 stage i then L1 stage i else L2 stage i).
    split.
    + rewrite T2, T1. symmetry. apply app_assoc.
    + apply Forall_app. split.
      * eapply Forall_impl; [ exact F1 | ]. intros e'.
        apply reports_losses_weaken. intros stage i Hk1. rewrite Hk1. auto.
      * eapply Forall_impl; [ exact F2 | ]. intros e'.
        apply reports_losses_weaken. intros stage i Hk2.
        destruct (K1 stage i) eqn:Hk1.
        -- rewrite (Hdisj _ _ Hk1) in Hk2. discriminate.
        -- auto.
Qed.

Lemma any_key_true {A} (key : A -> Z -> Z -> bool) (l : list A) stage i :
  any_key key l stage i = true <-> exists x, x ∈ l /\ key x stage i = true.
Proof.
  unfold any_key. rewrite existsb_exists. split.
  - intros (x & Hin & Hk). exists x. rewrite list_elem_of_In. auto.
  - intros (x & Hin & Hk). exists x. rewrite <- list_elem_of_In. auto.
Qed.

Lemma any_key_false {A} (key : A -> Z -> Z -> bool) (l : list A) stage i :
  (forall x, x ∈ l -> key x stage i = false) -> any_key key l stage i = false.
Proof.
  intros Hall. destruct (any_key key l stage i) eqn:E; [ | reflexivity ].
  apply any_key_true in E as (x & Hin & Hk). rewrite (Hall x Hin) in Hk. discriminate.
Qed.

Lemma reports_foldM {A S} a (key : A -> Z -> Z -> bool) (l : list A)
    (body : A -> S -> M S) :
  NoDup l ->
  (forall x y stage i, x ∈ l -> y ∈ l -> x <> y ->
                       key x stage i = true -> key y stage i = false) ->
  (forall x s, x ∈ l -> reports_run a (key x) (body x s)) ->
  forall s, reports_run a (any_key key l) (foldM l body s).
Proof.
  induction 1 as [| x l Hx Hl IH]; intros Hdisj Hbody s.
  - apply reports_of_loss_free. apply emits_only_ret.
  - change (reports_run a (fun stage i => key x stage i || any_key key l stage i)
                        (bind (body x s) (fun s' => foldM l body s'))).
    apply reports_bind_merge.
    + intros stage i Hk. apply any_key_false. intros y Hy.
      eapply Hdisj; [ left | right; exact Hy | | exact Hk ].
      intros ->. contradiction.
    + apply Hbody. left.
    + intros s'. apply IH.
      * intros y z stage i Hy Hz. apply Hdisj; right; assumption.
      * intros y s'' Hy. apply Hbody. right. exact Hy.
Qed.

(** The gradient step either raises before anything is taken, or takes the
    step on the total loss of the batch it has drawn and returns the losses
    of that batch. *)
Lemma optimization_step_reports a vol_mod stage i optimizer w :
  (exists w' e,
     optimization_step a vol_mod stage i optimizer w = (w', inl e)
     /\ trace w' = trace w)
  \/ (exists w' optimizer' m rays_batch pixels_batch,
        optimization_step a vol_mod stage i optimizer w
        = (w', inr (optimizer', compute_losses a m rays_batch pixels_batch))
        /\ trace w'
           = trace w
             ++ [EvOptimizerStep stage i
                   (total_loss (compute_losses a m rays_batch pixels_batch))]).
Proof.
  destruct (optimization_step a vol_mod stage i optimizer w)
    as [w' [e | [optimizer' l]]] eqn:Heq; unfold optimization_step in Heq.
  - left. exists w', e. split; [ reflexivity | ].
    apply bind_inl in Heq as [H1 | ([images poses] & w1 & H1 & Heq)].
    { unfold with_env in H1. destruct (next_batch _). discriminate. }
    assert (trace w1 = trace w) as T1.
    { unfold with_env in H1. destruct (next_batch _). injection H1 as <- _. reflexivity. }
    apply bind_inl in Heq as [H2 | ([rays_batch pixels_batch] & w2 & H2 & Heq)].
    { unfold with_env in H2. destruct (sample_random_rays_and_pixels_synchronously _ _ _ _).
      discriminate. }
    assert (trace w2 = trace w1) as T2.
    { unfold with_env in H2. destruct (sample_random_rays_and_pixels_synchronously _ _ _ _).
      injection H2 as <- _. reflexivity. }
    apply bind_inl in Heq as [H3 | (m & w3 & H3 & Heq)].
    { unfold read_model in H3. destruct (heap w2 !! vol_mod); [ discriminate | ].
      injection H3 as <- _. congruence. }
    apply read_model_inr in H3 as [-> _].
    apply bind_inl in Heq as [H4 | (g & w4 & H4 & Heq)].
    { unfold get_voxel_grid in H4.
      apply bind_inl in H4 as [H4 | (m' & w4 & H4 & H4')].
      - unfold read_model in H4. destruct (heap w2 !! vol_mod); [ discriminate | ].
        injection H4 as <- _. congruence.
      - apply read_model_inr in H4 as [-> _].
        destruct (thre3d_repr m'); [ discriminate | ].
        injection H4' as <- _. congruence. }
    apply bind_inl in Heq as [H5 | (u & w5 & H5 & Heq)]; [ discriminate | ].
    destruct (backward_and_step _ _ _) as [o' [d' f']].
    apply bind_inl in Heq as [H6 | (u' & w6 & H6 & Heq)]; discriminate.
  - right.
    apply bind_inr in Heq as ([images poses] & w1 & H1 & Heq).
    assert (trace w1 = trace w) as T1.
    { unfold with_env in H1. destruct (next_batch _). injection H1 as <- _. reflexivity. }
    apply bind_inr in Heq as ([rays_batch pixels_batch] & w2 & H2 & Heq).
    assert (trace w2 = trace w1) as T2.
    { unfold with_env in H2. destruct (sample_random_rays_and_pixels_synchronously _ _ _ _).
      injection H2 as <- _. reflexivity. }
    apply bind_inr in Heq as (m & w3 & H3 & Heq). apply read_model_inr in H3 as [-> _].
    apply bind_inr in Heq as (g & w4 & H4 & Heq).
    apply get_voxel_grid_inr in H4 as [-> _].
    apply bind_inr in Heq as (u & w5 & H5 & Heq). injection H5 as <-.
    destruct (backward_and_step _ _ _) as [o' [d' f']].
    apply bind_inr in Heq as (u' & w6 & H6 & Heq). injection H6 as <-.
    injection Heq as <- <- <-.
    eexists _, _, m, rays_batch, pixels_batch.
    split; [ reflexivity | ]. cbn. rewrite T2, T1. reflexivity.
Qed.

Lemma tensorboard_summaries_reports a s stage i l :
  emits_only (reports_losses a (iteration_key stage i) (fun _ _ => Some l))
             (tensorboard_summaries a s (global_step_of a stage i) i l).
Proof.
  unfold tensorboard_summaries. apply emits_only_bind.
  { repeat emits_only_step. }
  intros b. apply emits_only_when. apply emits_only_bind.
  { apply emits_only_lift. }
  intros q. unfold for_each. apply emits_only_foldM_elem.
  intros [name [value |]] [] Hin; unfold add_scalar; cbn [fst snd].
  - apply emits_only_emit. cbn. exists stage, i, l, q.
    unfold iteration_key. rewrite !Z.eqb_refl. auto.
  - apply emits_only_ret.
Qed.

Lemma iteration_reports a s vol_mod stage i optimizer :
  reports_run a (iteration_key stage i) (iteration a s vol_mod stage i optimizer).
Proof.
  intros w. unfold iteration. unfold bind at 1.
  destruct (optimization_step_reports a vol_mod stage i optimizer w)
    as [(w' & e & Heq & Ht) | (w' & o' & m & rays_batch & pixels_batch & Heq & Ht)];
    rewrite Heq.
  - exists [], (fun _ _ => None). cbn. rewrite Ht, app_nil_r. auto.
  - cbv beta iota.
    match goal with |- context [fst (?rest w')] =>
      assert (emits_only
                (reports_losses a (iteration_key stage i)
                   (fun _ _ => Some (compute_losses a m rays_batch pixels_batch)))
                rest) as Hrest
    end.
    { apply emits_only_bind; [ apply tensorboard_summaries_reports | intros ? ].
      repeat emits_only_step; exact I. }
    destruct (Hrest w') as (evs & Ht' & Hf).
    eexists (_ :: evs), _. split.
    + rewrite Ht', Ht, <- app_assoc. reflexivity.
    + constructor; [ | exact Hf ]. cbn. split.
      * unfold iteration_key. rewrite !Z.eqb_refl. reflexivity.
      * exists m, rays_batch, pixels_batch. auto.
Qed.

Lemma iteration_key_true stage i stage' i' :
  iteration_key stage i stage' i' = true <-> stage' = stage /\ i' = i.
Proof. unfold iteration_key. rewrite andb_true_iff, !Z.eqb_eq. tauto. Qed.

Lemma iteration_key_other stage i j stage' i' :
  i <> j -> iteration_key stage i stage' i' = true ->
  iteration_key stage j stage' i' = false.
Proof.
  intros Hne Hk. apply iteration_key_true in Hk as [-> ->].
  unfold iteration_key. rewrite Z.eqb_refl. cbn. apply Z.eqb_neq. exact Hne.
Qed.

Lemma train_stage_reports a s vol_mod stage :
  reports_run a (any_key (iteration_key stage) (range1 (num_iterations_per_stage a)))
              (train_stage a s vol_mod stage).
Proof.
  unfold train_stage.
  apply reports_bind_prefix; [ repeat emits_only_step | intros g ].
  apply reports_bind_prefix; [ repeat emits_only_step | intros ? ].
  apply reports_bind_prefix; [ repeat emits_only_step; exact I | intros ? ].
  apply reports_bind_suffix.
  - apply reports_foldM.
    + apply NoDup_seqZ.
    + intros j1 j2 stage' i' _ _. apply iteration_key_other.
    + intros j o _. apply iteration_reports.
  - intros o. repeat emits_only_step; exact I.
Qed.

Lemma stage_key_true stage (l : list Z) stage' i' :
  any_key (iteration_key stage) l stage' i' = true <-> stage' = stage /\ i' ∈ l.
Proof.
  rewrite any_key_true. split.
  - intros (i & Hin & Hk). apply iteration_key_true in Hk as [-> ->]. auto.
  - intros [-> Hin]. exists i'. split; [ exact Hin | ].
    apply iteration_key_true. auto.
Qed.

Lemma train_reports a vol_mod :
  reports_run a (run_key a) (train_sh_vox_grid_vol_mod_with_posed_images vol_mod a).
Proof.
  unfold train_sh_vox_grid_vol_mod_with_posed_images.
  apply reports_bind_prefix; [ repeat emits_only_step; exact I | intros s ].
  apply reports_bind_suffix.
  - unfold for_each, run_key. apply reports_foldM.
    + apply NoDup_seqZ.
    + intros x y stage i _ _ Hne Hk. apply stage_key_true in Hk as [-> Hi].
      apply any_key_false. intros i' _.
      destruct (iteration_key y i' x i) eqn:E; [ | reflexivity ].
      apply iteration_key_true in E as [E _]. congruence.
    + intros x [] _. apply train_stage_reports.
  - intros []. repeat emits_only_step; exact I.
Qed.

Lemma run_key_true a stage i :
  run_key a stage i = true ->
  stage ∈ range1 (num_stages a) /\ i ∈ range1 (num_iterations_per_stage a).
Proof.
  unfold run_key. rewrite any_key_true. intros (x & Hx & Hk).
  apply stage_key_true in Hk as [-> Hi]. auto.
Qed.

(** Every optimizer is built with the learning rate of its stage. *)
Lemma train_adam_at_stage_lr a vol_mod :
  emits_only (adam_at_stage_lr a)
             (train_sh_vox_grid_vol_mod_with_posed_images vol_mod a).
Proof.
  unfold train_sh_vox_grid_vol_mod_with_posed_images.
  repeat emits_only_step; try exact I; reflexivity.
Qed.

End Emissions.

Section ZeroFrequencies.
Context `{Collaborators}.
Variables (a : TrainArgs) (vol_mod : loc).

Lemma py_mod_inr_nonzero x y r : py_mod x y = inr r -> y <> 0.
Proof. unfold py_mod. destruct (y =? 0) eqn:E; [ discriminate | lia ]. Qed.

Lemma periodic_or_first_or_last_nonzero freq g i w w' b :
  periodic_or_first_or_last a freq g i w = (w', inr b) -> freq <> 0.
Proof.
  unfold periodic_or_first_or_last. intros Hp.
  apply bind_inr in Hp as (r & w1 & Hr & _).
  apply lift_inr in Hr as [Hr _]. eapply py_mod_inr_nonzero, Hr.
Qed.

Lemma iteration_nonzero_frequencies s stage i optimizer w w' optimizer' :
  setup_of a s ->
  iteration a s vol_mod stage i optimizer w = (w', inr optimizer') ->
  summary_freq a <> 0
  /\ lr_decay_steps_per_stage a <> 0
  /\ feedback_freq a <> 0
  /\ save_freq a <> 0
  /\ (is_Some (test_dataset a) -> fast_debug_mode a = false -> test_freq a <> 0).
Proof.
  unfold iteration. intros Hsetup Hi.
  apply bind_inr in Hi as ([o1 losses] & w1 & _ & Hi).
  apply bind_inr in Hi as (u2 & w2 & H2 & Hi).
  apply bind_inr in Hi as (u3 & w3 & _ & Hi).
  apply bind_inr in Hi as (o4 & w4 & H4 & Hi).
  apply bind_inr in Hi as (u5 & w5 & H5 & Hi).
  apply bind_inr in Hi as (u6 & w6 & H6 & Hi).
  apply bind_inr in Hi as (u7 & w7 & H7 & _).
  unfold tensorboard_summaries in H2. apply bind_inr in H2 as (b2 & w2' & H2 & _).
  apply periodic_or_first_or_last_nonzero in H2.
  unfold step_lr_scheduler in H4. apply bind_inr in H4 as (r4 & w4' & H4 & _).
  apply lift_inr in H4 as [H4 _]. apply py_mod_inr_nonzero in H4.
  unfold rendered_feedback in H5. apply bind_inr in H5 as (b5 & w5' & H5 & _).
  apply periodic_or_first_or_last_nonzero in H5.
  unfold save_model in H7. apply bind_inr in H7 as (b7 & w7' & H7 & _).
  apply periodic_or_first_or_last_nonzero in H7.
  repeat split; try assumption.
  intros Htest Hfast. unfold test_metrics in H6.
  rewrite (setup_test_dl a s Hsetup) in H6.
  rewrite (bool_decide_eq_true_2 _ Htest), Hfast in H6. cbn in H6.
  apply bind_inr in H6 as (r6 & w6' & H6 & _).
  apply lift_inr in H6 as [H6 _]. eapply py_mod_inr_nonzero, H6.
Qed.

(** X8. Lines 344-348, 384, 391-395, 412-419 and 429-433: a frequency of 0
    does not switch a periodic effect off. A run with at least one iteration
    completes only if [summary_freq], [lr_decay_steps_per_stage],
    [feedback_freq] and [save_freq] are not 0, and [test_freq] too when a
    test dataset is given outside fast debug mode. *)
Theorem completed_run_has_nonzero_frequencies (w w' : World) (r : loc) :
  train_sh_vox_grid_vol_mod_with_posed_images vol_mod a w = (w', inr r) ->
  1 <= num_stages a ->
  1 <= num_iterations_per_stage a ->
  summary_freq a <> 0
  /\ lr_decay_steps_per_stage a <> 0
  /\ feedback_freq a <> 0
  /\ save_freq a <> 0
  /\ (is_Some (test_dataset a) -> fast_debug_mode a = false -> test_freq a <> 0).
Proof.
  unfold train_sh_vox_grid_vol_mod_with_posed_images. intros Ht Hs Hn.
  apply bind_inr in Ht as (s & w1 & Hinit & Ht).
  apply initialize_setup in Hinit.
  apply bind_inr in Ht as (u & w2 & Hloop & _).
  unfold for_each in Hloop.
  eapply (foldM_inr_elem _ _ 1) in Hloop as ([] & wa & [] & wb & Hstage);
    [ | unfold range1; apply elem_of_seqZ; lia ].
  unfold train_stage in Hstage.
  apply bind_inr in Hstage as (g & w3 & _ & Hstage).
  apply bind_inr in Hstage as (u4 & w4 & _ & Hstage).
  apply bind_inr in Hstage as (u5 & w5 & _ & Hstage).
  apply bind_inr in Hstage as (o & w6 & Hiter & _).
  eapply (foldM_inr_elem _ _ 1) in Hiter as (o1 & wc & o2 & wd & Hiter);
    [ | unfold range1; apply elem_of_seqZ; lia ].
  eapply iteration_nonzero_frequencies; eauto.
Qed.

Lemma get_voxel_grid_ok w m g :
  heap w !! vol_mod = Some m ->
  thre3d_repr m = VoxelGridRepr g ->
  get_voxel_grid vol_mod w = (w, inr g).
Proof.
  intros Hm Hg. unfold get_voxel_grid, bind, read_model. rewrite Hm, Hg. reflexivity.
Qed.

(** The gradient step goes through whenever the model holds a voxel grid. *)
Lemma optimization_step_ok stage i optimizer w m g :
  heap w !! vol_mod = Some m ->
  thre3d_repr m = VoxelGridRepr g ->
  exists w1 r,
    optimization_step a vol_mod stage i optimizer w = (w1, inr r)
    /\ calls w1 = calls w ++ [COptimizerStep stage i].
Proof.
  intros Hm Hg. unfold optimization_step.
  unfold bind at 1. unfold with_env at 1.
  destruct (next_batch (env w)) as [e1 [images poses]].
  unfold bind at 1. unfold with_env at 1. cbn [env].
  destruct (sample_random_rays_and_pixels_synchronously _ _ _ _)
    as [e2 [rays_batch pixels_batch]].
  unfold bind at 1. unfold read_model at 1. cbn [heap]. rewrite Hm.
  unfold bind at 1.
  erewrite get_voxel_grid_ok by (cbn [heap]; eauto).
  unfold bind at 1. cbn [emit].
  destruct (backward_and_step _ _ _) as [o' [d' f']].
  unfold bind. cbn. eexists _, _. split; [ reflexivity | ].
  unfold calls. cbn. rewrite map_app. reflexivity.
Qed.

Lemma range1_cons n : 1 <= n -> range1 n = 1 :: seqZ 2 (n - 1).
Proof. intros Hn. unfold range1. rewrite seqZ_cons by lia. reflexivity. Qed.

Lemma iteration_zero_summary_freq s stage i optimizer w m g :
  heap w !! vol_mod = Some m ->
  thre3d_repr m = VoxelGridRepr g ->
  summary_freq a = 0 ->
  exists w',
    iteration a s vol_mod stage i optimizer w = (w', inl ZeroDivisionError)
    /\ calls w' = calls w ++ [COptimizerStep stage i].
Proof.
  intros Hm Hg Hfreq.
  destruct (optimization_step_ok stage i optimizer w m g Hm Hg)
    as (w1 & [o1 losses] & Hstep & Hcalls).
  exists w1. split; [ | exact Hcalls ].
  unfold iteration. unfold bind at 1. rewrite Hstep.
  unfold bind at 1. unfold tensorboard_summaries, periodic_or_first_or_last.
  unfold bind at 1. unfold bind at 1. rewrite Hfreq. reflexivity.
Qed.

(** X9. Lines 336-347: with [summary_freq = 0], a run that reaches its first
    iteration raises [ZeroDivisionError] there, after the gradient step of
    that iteration: one optimizer has been built and one step taken. *)
Theorem zero_summary_freq_raises
    (w0 w1 : World) (s : Setup) (m : VolumetricModel) (g : VoxelGrid) :
  initialize a vol_mod w0 = (w1, inr s) ->
  heap w1 !! vol_mod = Some m ->
  thre3d_repr m = VoxelGridRepr g ->
  truth_value (parameters g) = true ->
  1 <= num_stages a ->
  1 <= num_iterations_per_stage a ->
  summary_freq a = 0 ->
  exists w',
    train_sh_vox_grid_vol_mod_with_posed_images vol_mod a w0
    = (w', inl ZeroDivisionError)
    /\ calls w' = calls w1 ++ [CAdam 1; COptimizerStep 1 1].
Proof.
  intros Hinit Hm Hg Hp Hs Hn Hfreq.
  unfold train_sh_vox_grid_vol_mod_with_posed_images.
  unfold bind at 1. rewrite Hinit.
  unfold for_each. rewrite (range1_cons _ Hs). cbn [foldM].
  unfold bind at 1. unfold bind at 1. unfold train_stage at 1.
  unfold bind at 1. rewrite (get_voxel_grid_ok w1 m g Hm Hg).
  unfold bind at 1. rewrite Hp. cbn [assert ret].
  unfold bind at 1. cbn [emit].
  rewrite (range1_cons _ Hn). cbn [foldM].
  unfold bind at 1. unfold bind at 1.
  match goal with |- context [iteration a s vol_mod 1 1 ?o ?w] =>
    destruct (iteration_zero_summary_freq s 1 1 o w m g) as (w' & Hiter & Hcalls);
      [ exact Hm | exact Hg | exact Hfreq | ]
  end.
  rewrite Hiter. exists w'. split; [ reflexivity | ].
  rewrite Hcalls. unfold calls. cbn. rewrite map_app, <- app_assoc. reflexivity.
Qed.

End ZeroFrequencies.

Section Cadences.
Context `{Collaborators}.
Variable a : TrainArgs.

Lemma elem_of_flat_map {A B} (f : A -> list B) (l : list A) (y : B) :
  y ∈ flat_map f l <-> exists x, x ∈ l /\ y ∈ f x.
Proof.
  rewrite list_elem_of_In, in_flat_map. split; intros (x & Hx & Hy); exists x.
  - rewrite !list_elem_of_In. auto.
  - rewrite <- !list_elem_of_In. auto.
Qed.

Lemma elem_of_schedule_scale c sizes index :
  c ∈ schedule_scale sizes index ->
  exists size, c = CScaleGrid size "trilinear".
Proof.
  unfold schedule_scale. destruct (py_index sizes index).
  - intros Hin. apply elem_of_nil in Hin. contradiction.
  - intros Hin. apply list_elem_of_singleton in Hin. eauto.
Qed.

Lemma elem_of_schedule_setup c sizes :
  c ∈ schedule_setup a sizes ->
  (exists size, c = CScaleGrid size "trilinear")
  \/ (exists field, c = CRandomInit field)
  \/ c = CWriteImage "1__real_log.png"
  \/ c = CVisualizeCameraRays.
Proof.
  unfold schedule_setup. rewrite !elem_of_app. intros [Hin | [Hin | [Hin | Hin]]].
  - left. eapply elem_of_schedule_scale, Hin.
  - right. left. apply elem_of_cons in Hin as [-> | Hin]; [ eauto | ].
    apply list_elem_of_singleton in Hin as ->. eauto.
  - destruct (bool_decide _); [ apply elem_of_nil in Hin; contradiction | ].
    apply list_elem_of_singleton in Hin. auto.
  - destruct (fast_debug_mode a); [ apply elem_of_nil in Hin; contradiction | ].
    apply list_elem_of_singleton in Hin. auto.
Qed.

(** The calls of a completed run, sorted by where they are made. *)
Lemma elem_of_schedule c sizes :
  c ∈ schedule a sizes <->
  c ∈ schedule_setup a sizes
  \/ (exists stage,
        stage ∈ range1 (num_stages a)
        /\ (c = CAdam stage
            \/ (exists i, i ∈ range1 (num_iterations_per_stage a)
                          /\ c ∈ schedule_iteration a stage i)
            \/ (stage <> num_stages a /\ c ∈ schedule_scale sizes stage)))
  \/ c = CTorchSave "model_final.pth".
Proof.
  unfold schedule. rewrite !elem_of_app, elem_of_flat_map, list_elem_of_singleton.
  apply or_iff_compat_l. apply or_iff_compat_r.
  split; intros (stage & Hstage & Hin); exists stage; (split; [ exact Hstage | ]).
  - unfold schedule_stage in Hin.
    rewrite elem_of_cons, elem_of_app, elem_of_flat_map in Hin.
    destruct Hin as [-> | [Hin | Hin]]; [ auto | auto | ].
    right. right. destruct (stage =? num_stages a) eqn:E.
    + apply elem_of_nil in Hin. contradiction.
    + split; [ lia | exact Hin ].
  - unfold schedule_stage.
    rewrite elem_of_cons, elem_of_app, elem_of_flat_map.
    destruct Hin as [-> | [Hin | [Hne Hin]]]; [ auto | auto | ].
    right. right. destruct (stage =? num_stages a) eqn:E; [ lia | exact Hin ].
Qed.

Lemma elem_of_schedule_iteration c stage i :
  c ∈ schedule_iteration a stage i <->
  c = COptimizerStep stage i
  \/ c ∈ schedule_summaries a stage i
  \/ c ∈ schedule_lr a stage i
  \/ c ∈ schedule_feedback a stage i
  \/ c ∈ schedule_test a stage i
  \/ c ∈ schedule_save a stage i.
Proof. unfold schedule_iteration. rewrite elem_of_cons, !elem_of_app. reflexivity. Qed.

Lemma elem_of_if_singleton {A} (b : bool) (x y : A) :
  y ∈ (if b then [x] else []) <-> b = true /\ y = x.
Proof.
  destruct b.
  - rewrite list_elem_of_singleton. intuition.
  - rewrite elem_of_nil. intuition discriminate.
Qed.

Lemma elem_of_schedule_summaries c stage i :
  c ∈ schedule_summaries a stage i <->
  trigger a (summary_freq a) (global_step_of a stage i) i = true
  /\ ((exists name, name ∈ scalar_names a /\ c = CAddScalar name (global_step_of a stage i))
      \/ c = CLossInfo stage (global_step_of a stage i) i
               (apply_diffuse_render_regularization a)).
Proof.
  unfold schedule_summaries. cbv zeta. destruct (trigger _ _ _ _).
  - rewrite elem_of_app, list_elem_of_fmap, list_elem_of_singleton.
    split.
    + intros [(name & -> & Hin) | ->]; split; eauto.
    + intros [_ [(name & Hin & ->) | ->]]; eauto.
  - rewrite elem_of_nil. intuition discriminate.
Qed.

Lemma elem_of_schedule_lr c stage i :
  c ∈ schedule_lr a stage i <->
  (i mod lr_decay_steps_per_stage a =? 0) = true /\ c = CLrSchedulerStep stage i.
Proof. apply elem_of_if_singleton. Qed.

Lemma elem_of_schedule_feedback c stage i :
  c ∈ schedule_feedback a stage i <->
  trigger a (feedback_freq a) (global_step_of a stage i) i = true
  /\ c = CRenderedFeedback (global_step_of a stage i) true.
Proof. apply elem_of_if_singleton. Qed.

Lemma elem_of_schedule_test c stage i :
  c ∈ schedule_test a stage i <->
  bool_decide (is_Some (test_dataset a)) && negb (fast_debug_mode a)
  && ((global_step_of a stage i mod test_freq a =? 0)
      || (i =? num_iterations_per_stage a)) = true
  /\ c = CTest (global_step_of a stage i).
Proof. apply elem_of_if_singleton. Qed.

Lemma elem_of_schedule_save c stage i :
  c ∈ schedule_save a stage i <->
  trigger a (save_freq a) (global_step_of a stage i) i = true
  /\ c = CTorchSave (snapshot_file stage (global_step_of a stage i)).
Proof. apply elem_of_if_singleton. Qed.

Lemma trigger_true freq g i :
  trigger a freq g i = true <->
  g mod freq = 0 \/ i = 1 \/ i = num_iterations_per_stage a.
Proof. unfold trigger. rewrite !orb_true_iff, !Z.eqb_eq. tauto. Qed.

Ltac split_iteration H :=
  rewrite elem_of_schedule_iteration, elem_of_schedule_summaries, elem_of_schedule_lr,
    elem_of_schedule_feedback, elem_of_schedule_test, elem_of_schedule_save in H;
  destruct H as [H | [[_ [(? & _ & H) | H]] | [[? H] | [[? H] | [[? H] | [? H]]]]]];
  try discriminate H.

Ltac split_membership H :=
  apply elem_of_schedule in H as [H | [(?stage & ?Hstage & H) | H]];
  [ apply elem_of_schedule_setup in H as [[? H] | [[? H] | [H | H]]]; discriminate H
  | destruct H as [H | [(?i & ?Hi & H) | [_ H]]];
    [ discriminate H
    | split_iteration H
    | apply elem_of_schedule_scale in H as [? H]; discriminate H ]
  | try discriminate H ].

(** X10. Lines 383-388: in a run that completes, the learning-rate scheduler
    is stepped exactly at the iterations whose number within the stage is a
    multiple of [lr_decay_steps_per_stage]: the same iterations in every
    stage, whatever the global step. *)
Theorem lr_scheduler_cadence (vol_mod : loc) (w w' : World) (r : loc) :
  train_sh_vox_grid_vol_mod_with_posed_images vol_mod a w = (w', inr r) ->
  exists cs,
    calls w' = calls w ++ cs
    /\ forall stage i,
         CLrSchedulerStep stage i ∈ cs <->
         stage ∈ range1 (num_stages a)
         /\ i ∈ range1 (num_iterations_per_stage a)
         /\ i mod lr_decay_steps_per_stage a = 0.
Proof.
  intros Hrun. apply train_schedule in Hrun as (w1 & s & _ & Hcalls).
  exists (schedule a (stagewise_voxel_grid_sizes s)). split; [ exact Hcalls | ].
  intros stage i. split.
  - intros Hin. split_membership Hin.
    injection Hin as -> ->. rewrite Z.eqb_eq in *. auto.
  - intros (Hstage & Hi & Hmod). apply elem_of_schedule. right. left.
    exists stage. split; [ exact Hstage | ]. right. left.
    exists i. split; [ exact Hi | ].
    apply elem_of_schedule_iteration. right. right. left.
    apply elem_of_schedule_lr. split; [ apply Z.eqb_eq, Hmod | reflexivity ].
Qed.

Ltac into_iteration stage i Hstage Hi :=
  apply elem_of_schedule; right; left;
  exists stage; split; [ exact Hstage | ]; right; left;
  exists i; split; [ exact Hi | ];
  apply elem_of_schedule_iteration.

(** X11. Lines 411-426: in a run that completes, the test procedure is
    called exactly at the global steps that are multiples of [test_freq] and
    at the last iteration of each stage -- not at the first -- and only with
    a test dataset outside fast debug mode. *)
Theorem test_cadence (vol_mod : loc) (w w' : World) (r : loc) :
  train_sh_vox_grid_vol_mod_with_posed_images vol_mod a w = (w', inr r) ->
  exists cs,
    calls w' = calls w ++ cs
    /\ forall g,
         CTest g ∈ cs <->
         is_Some (test_dataset a)
         /\ fast_debug_mode a = false
         /\ exists stage i,
              stage ∈ range1 (num_stages a)
              /\ i ∈ range1 (num_iterations_per_stage a)
              /\ g = global_step_of a stage i
              /\ (g mod test_freq a = 0 \/ i = num_iterations_per_stage a).
Proof.
  intros Hrun. apply train_schedule in Hrun as (w1 & s & _ & Hcalls).
  exists (schedule a (stagewise_voxel_grid_sizes s)). split; [ exact Hcalls | ].
  intros g. split.
  - intros Hin. split_membership Hin.
    injection Hin as ->.
    match goal with Hg : _ && _ && _ = true |- _ =>
      rewrite !andb_true_iff, orb_true_iff, negb_true_iff, !Z.eqb_eq,
        bool_decide_eq_true in Hg;
      destruct Hg as [[Htest Hfast] Hwhen]
    end.
    split; [ exact Htest | ]. split; [ exact Hfast | ]. eauto 10.
  - intros (Htest & Hfast & stage & i & Hstage & Hi & -> & Hwhen).
    into_iteration stage i Hstage Hi. do 4 right. left.
    apply elem_of_schedule_test. split; [ | reflexivity ].
    rewrite !andb_true_iff, orb_true_iff, negb_true_iff, !Z.eqb_eq,
      bool_decide_eq_true. auto.
Qed.

(** X12. Lines 428-446 and 461-472: in a run that completes, the files
    written by [torch.save] are [model_final.pth] and, for the iterations
    whose global step is a multiple of [save_freq] and for the first and the
    last iteration of each stage, the snapshot named after the stage and the
    global step. *)
Theorem snapshot_cadence (vol_mod : loc) (w w' : World) (r : loc) :
  train_sh_vox_grid_vol_mod_with_posed_images vol_mod a w = (w', inr r) ->
  exists cs,
    calls w' = calls w ++ cs
    /\ forall file,
         CTorchSave file ∈ cs <->
         file = "model_final.pth"
         \/ exists stage i,
              stage ∈ range1 (num_stages a)
              /\ i ∈ range1 (num_iterations_per_stage a)
              /\ file = snapshot_file stage (global_step_of a stage i)
              /\ (global_step_of a stage i mod save_freq a = 0
                  \/ i = 1 \/ i = num_iterations_per_stage a).
Proof.
  intros Hrun. apply train_schedule in Hrun as (w1 & s & _ & Hcalls).
  exists (schedule a (stagewise_voxel_grid_sizes s)). split; [ exact Hcalls | ].
  intros file. split.
  - intros Hin. split_membership Hin.
    + injection Hin as ->. right.
      match goal with Hg : trigger _ _ _ _ = true |- _ => apply trigger_true in Hg end.
      eauto 10.
    + injection Hin as ->. left. reflexivity.
  - intros [-> | (stage & i & Hstage & Hi & -> & Hwhen)].
    + apply elem_of_schedule. right. right. reflexivity.
    + into_iteration stage i Hstage Hi. do 5 right.
      apply elem_of_schedule_save. split; [ apply trigger_true, Hwhen | reflexivity ].
Qed.

(** X13. Lines 390-409: in a run that completes, the feedback is rendered
    exactly at the global steps that are multiples of [feedback_freq] and at
    the first and the last iteration of each stage. *)
Theorem feedback_cadence (vol_mod : loc) (w w' : World) (r : loc) :
  train_sh_vox_grid_vol_mod_with_posed_images vol_mod a w = (w', inr r) ->
  exists cs,
    calls w' = calls w ++ cs
    /\ forall g d,
         CRenderedFeedback g d ∈ cs <->
         d = true
         /\ exists stage i,
              stage ∈ range1 (num_stages a)
              /\ i ∈ range1 (num_iterations_per_stage a)
              /\ g = global_step_of a stage i
              /\ (g mod feedback_freq a = 0
                  \/ i = 1 \/ i = num_iterations_per_stage a).
Proof.
  intros Hrun. apply train_schedule in Hrun as (w1 & s & _ & Hcalls).
  exists (schedule a (stagewise_voxel_grid_sizes s)). split; [ exact Hcalls | ].
  intros g d. split.
  - intros Hin. split_membership Hin.
    injection Hin as -> ->. split; [ reflexivity | ].
    match goal with Hg : trigger _ _ _ _ = true |- _ => apply trigger_true in Hg end.
    eauto 10.
  - intros (-> & stage & i & Hstage & Hi & -> & Hwhen).
    into_iteration stage i Hstage Hi. do 3 right. left.
    apply elem_of_schedule_feedback.
    split; [ apply trigger_true, Hwhen | reflexivity ].
Qed.

(** X14. Lines 343-381: in a run that completes, the scalars go to
    tensorboard and the line of losses to the console at the same
    iterations: those whose global step is a multiple of [summary_freq], and
    the first and the last of each stage. The scalars written are
    [specular_loss], [specular_psnr], [total_loss] and [num_epochs], and with
    the diffuse regularization also [diffuse_loss] and [diffuse_psnr]. *)
Theorem summary_cadence (vol_mod : loc) (w w' : World) (r : loc) :
  train_sh_vox_grid_vol_mod_with_posed_images vol_mod a w = (w', inr r) ->
  exists cs,
    calls w' = calls w ++ cs
    /\ (forall stage g i d,
          CLossInfo stage g i d ∈ cs <->
          stage ∈ range1 (num_stages a)
          /\ i ∈ range1 (num_iterations_per_stage a)
          /\ g = global_step_of a stage i
          /\ d = apply_diffuse_render_regularization a
          /\ (g mod summary_freq a = 0 \/ i = 1 \/ i = num_iterations_per_stage a))
    /\ (forall name g,
          CAddScalar name g ∈ cs <->
          name ∈ scalar_names a
          /\ exists stage i,
               CLossInfo stage g i (apply_diffuse_render_regularization a) ∈ cs).
Proof.
  intros Hrun. apply train_schedule in Hrun as (w1 & s & _ & Hcalls).
  exists (schedule a (stagewise_voxel_grid_sizes s)). split; [ exact Hcalls | ].
  assert (forall stage g i d,
            CLossInfo stage g i d ∈ schedule a (stagewise_voxel_grid_sizes s) <->
            stage ∈ range1 (num_stages a)
            /\ i ∈ range1 (num_iterations_per_stage a)
            /\ g = global_step_of a stage i
            /\ d = apply_diffuse_render_regularization a
            /\ (g mod summary_freq a = 0 \/ i = 1 \/ i = num_iterations_per_stage a))
    as Hinfo.
  { intros stage g i d. split.
    - intros Hin.
      apply elem_of_schedule in Hin as [Hin | [(stage' & Hstage & Hin) | Hin]].
      + apply elem_of_schedule_setup in Hin as [[? Hin] | [[? Hin] | [Hin | Hin]]];
          discriminate Hin.
      + destruct Hin as [Hin | [(i' & Hi & Hin) | [_ Hin]]].
        * discriminate Hin.
        * rewrite elem_of_schedule_iteration, elem_of_schedule_summaries,
            elem_of_schedule_lr, elem_of_schedule_feedback, elem_of_schedule_test,
            elem_of_schedule_save in Hin.
          destruct Hin as [Hin | [[Ht [(? & _ & Hin) | Hin]]
                                 | [[? Hin] | [[? Hin] | [[? Hin] | [? Hin]]]]]];
            try discriminate Hin.
          injection Hin as -> -> -> ->. apply trigger_true in Ht. auto 10.
        * apply elem_of_schedule_scale in Hin as [? Hin]. discriminate Hin.
      + discriminate Hin.
    - intros (Hstage & Hi & -> & -> & Hwhen).
      into_iteration stage i Hstage Hi. right. left.
      apply elem_of_schedule_summaries. split; [ apply trigger_true, Hwhen | ].
      right. reflexivity. }
  split; [ exact Hinfo | ].
  intros name g. split.
  - intros Hin.
    apply elem_of_schedule in Hin as [Hin | [(stage' & Hstage & Hin) | Hin]].
    + apply elem_of_schedule_setup in Hin as [[? Hin] | [[? Hin] | [Hin | Hin]]];
        discriminate Hin.
    + destruct Hin as [Hin | [(i' & Hi & Hin) | [_ Hin]]].
      * discriminate Hin.
      * rewrite elem_of_schedule_iteration, elem_of_schedule_summaries,
          elem_of_schedule_lr, elem_of_schedule_feedback, elem_of_schedule_test,
          elem_of_schedule_save in Hin.
        destruct Hin as [Hin | [[Ht [(name' & Hname & Hin) | Hin]]
                               | [[? Hin] | [[? Hin] | [[? Hin] | [? Hin]]]]]];
          try discriminate Hin.
        injection Hin as -> ->. split; [ exact Hname | ].
        exists stage', i'. apply Hinfo. apply trigger_true in Ht. auto 10.
      * apply elem_of_schedule_scale in Hin as [? Hin]. discriminate Hin.
    + discriminate Hin.
  - intros (Hname & stage & i & Hin). apply Hinfo in Hin
      as (Hstage & Hi & -> & _ & Hwhen).
    into_iteration stage i Hstage Hi. right. left.
    apply elem_of_schedule_summaries. split; [ apply trigger_true, Hwhen | ].
    left. eauto.
Qed.

End Cadences.

Section Optimizers.
Context `{Collaborators}.
Variables (a : TrainArgs) (vol_mod : loc).

Lemma adam_stages_iteration stage i :
  adam_stages (schedule_iteration a stage i) = [].
Proof.
  unfold adam_stages, schedule_iteration, schedule_summaries, schedule_lr,
    schedule_feedback, schedule_test, schedule_save, scalar_names.
  repeat case_match; reflexivity.
Qed.

Lemma adam_stages_scale sizes index : adam_stages (schedule_scale sizes index) = [].
Proof. unfold schedule_scale. case_match; reflexivity. Qed.

Lemma adam_stages_app (l1 l2 : list Call) :
  adam_stages (l1 ++ l2) = adam_stages l1 ++ adam_stages l2.
Proof. apply omap_app. Qed.

Lemma adam_stages_flat_map {A} (f : A -> list Call) (l : list A) :
  adam_stages (flat_map f l) = flat_map (fun x => adam_stages (f x)) l.
Proof. apply omap_flat_map. Qed.

Lemma adam_stages_stage sizes stage :
  adam_stages (schedule_stage a sizes stage) = [stage].
Proof.
  unfold schedule_stage.
  change (CAdam stage :: ?l) with ([CAdam stage] ++ l).
  rewrite !adam_stages_app, adam_stages_flat_map.
  rewrite (flat_map_ext _ (fun _ => [])) by (intros i; apply adam_stages_iteration).
  rewrite flat_map_nil.
  destruct (stage =? num_stages a); [ reflexivity | ].
  rewrite adam_stages_scale. reflexivity.
Qed.

Lemma adam_stages_schedule sizes :
  adam_stages (schedule a sizes) = range1 (num_stages a).
Proof.
  unfold schedule. rewrite !adam_stages_app, adam_stages_flat_map.
  assert (adam_stages (schedule_setup a sizes) = []) as ->.
  { unfold schedule_setup. rewrite !adam_stages_app, adam_stages_scale.
    repeat case_match; reflexivity. }
  change (adam_stages [CTorchSave "model_final.pth"]) with (@nil Z).
  rewrite app_nil_r. cbn [app].
  rewrite (flat_map_ext _ (fun stage => [stage]))
    by (intros stage; apply adam_stages_stage).
  rewrite flat_map_singleton. apply map_id.
Qed.

Lemma optimizers_built_erase evs :
  Forall (adam_at_stage_lr a) evs ->
  optimizers_built evs
  = map (fun stage => (stage, current_stage_lr a stage)) (adam_stages (map erase evs)).
Proof.
  unfold optimizers_built, adam_stages.
  induction 1 as [| e evs He _ IH]; [ reflexivity | ].
  destruct e; cbn in *; try exact IH.
  f_equal; [ f_equal; exact He | exact IH ].
Qed.

(** X15. Lines 236-246: a run that completes builds one Adam optimizer per
    stage, in the order of the stages, and gives the optimizer of a stage the
    learning rate [learning_rate * stagewise_lr_decay_gamma ** (stage - 1)],
    whatever the scheduler did to the rate in the stage before. *)
Theorem one_optimizer_per_stage (w w' : World) (r : loc) :
  train_sh_vox_grid_vol_mod_with_posed_images vol_mod a w = (w', inr r) ->
  exists evs,
    trace w' = trace w ++ evs
    /\ optimizers_built evs
       = map (fun stage => (stage, current_stage_lr a stage)) (range1 (num_stages a)).
Proof.
  intros Hrun.
  destruct (train_adam_at_stage_lr a vol_mod w) as (evs & Htrace & Hall).
  rewrite Hrun in Htrace. cbn in Htrace.
  exists evs. split; [ exact Htrace | ].
  rewrite (optimizers_built_erase evs Hall). f_equal.
  apply train_schedule in Hrun as (w1 & s & _ & Hcalls).
  unfold calls in Hcalls. rewrite Htrace, map_app in Hcalls.
  apply app_inv_head in Hcalls. rewrite Hcalls.
  apply adam_stages_schedule.
Qed.

End Optimizers.

Section Resolution.
Context `{Collaborators}.
Variables (a : TrainArgs) (vol_mod : loc).

(** The resize returns a grid of the size it was asked for. *)
Hypothesis scale_to_size :
  forall g size mode,
    grid_dims (scale_voxel_grid_with_required_output_size g size mode) = size.

Lemma initialize_grid w w' s :
  initialize a vol_mod w = (w', inr s) ->
  exists g0,
    current_grid vol_mod w = Some g0
    /\ compute_thre3d_grid_sizes (grid_dims g0) (num_stages a) (scale_factor a)
       = inr (stagewise_voxel_grid_sizes s)
    /\ grid_at_size vol_mod (stagewise_voxel_grid_sizes s) 0 w'.
Proof.
  unfold initialize. intros Hi.
  apply bind_inr in Hi as (g0 & w1 & H1 & Hi). apply check_model_inr in H1 as [-> Hm].
  apply bind_inr in Hi as (sizes & w2 & H2 & Hi). apply lift_inr in H2 as [Hsizes ->].
  apply bind_inr in Hi as (u & w3 & H3 & Hi).
  apply downscale_and_reinitialize_grid in H3 as (g & size & Hg & Hsize & Hg3).
  apply bind_inr in Hi as ([pose image] & w4 & H4 & Hi). apply lift_inr in H4 as [_ ->].
  apply bind_inr in Hi as ([tdl tst] & w5 & H5 & Hi). apply lift_inr in H5 as [_ ->].
  apply bind_inr in Hi as (u6 & w6 & H6 & Hi). apply when_inr in H6.
  apply bind_inr in Hi as (u7 & w7 & H7 & Hi). apply when_inr in H7.
  injection Hi as <- <-. cbn [stagewise_voxel_grid_sizes].
  assert (heap w6 = heap w3) as E6.
  { destruct (bool_decide _); [ injection H6 as <-; reflexivity | subst; reflexivity ]. }
  assert (heap w7 = heap w6) as E7.
  { destruct (negb _); [ injection H7 as <-; reflexivity | subst; reflexivity ]. }
  assert (current_grid vol_mod w = Some g0) as Hg0
    by (unfold current_grid; rewrite Hm; reflexivity).
  rewrite Hg0 in Hg. injection Hg as <-.
  exists g0. split; [ exact Hg0 | ]. split; [ exact Hsizes | ].
  eexists _, size. split; [ | split; [ exact Hsize | ] ].
  - rewrite (current_grid_heap vol_mod w3 w7) by congruence. exact Hg3.
  - cbn. apply scale_to_size.
Qed.

Lemma train_stage_grid_at_size s stage w w' u :
  train_stage a s vol_mod stage w = (w', inr u) ->
  stage <= num_stages a ->
  grid_at_size vol_mod (stagewise_voxel_grid_sizes s) (stage - 1) w ->
  grid_at_size vol_mod (stagewise_voxel_grid_sizes s)
               (Z.min stage (num_stages a - 1)) w'.
Proof.
  intros Ht Hle (g & size & Hg & Hsize & Hdims).
  apply train_stage_grid in Ht
    as (g' & g_end & Hg' & Hend & [[-> Hlast] | [Hne (size' & Hsize' & Hnext)]]).
  - rewrite Hg in Hg'. injection Hg' as <-.
    exists g_end, size. rewrite Z.min_r by lia. split; [ exact Hlast | ].
    split; [ exact Hsize | congruence ].
  - eexists _, size'. rewrite Z.min_l by lia. split; [ exact Hnext | ].
    split; [ exact Hsize' | apply scale_to_size ].
Qed.

Lemma stages_grid_at_size s (n : nat) :
  forall first w w' u,
    foldM (seqZ first (Z.of_nat n)) (fun stage _ => train_stage a s vol_mod stage) tt w
    = (w', inr u) ->
    first + Z.of_nat n = num_stages a + 1 ->
    grid_at_size vol_mod (stagewise_voxel_grid_sizes s)
                 (Z.min (first - 1) (num_stages a - 1)) w ->
    grid_at_size vol_mod (stagewise_voxel_grid_sizes s) (num_stages a - 1) w'.
Proof.
  induction n as [| n IH]; intros first w w' u Hf Hlen Hinv.
  - cbn in Hf. injection Hf as <- _. rewrite Z.min_r in Hinv by lia. exact Hinv.
  - rewrite seqZ_cons in Hf by lia. cbn [foldM] in Hf.
    apply bind_inr in Hf as ([] & w1 & Hstage & Hf).
    rewrite Z.min_l in Hinv by lia.
    apply train_stage_grid_at_size in Hstage; [ | lia | exact Hinv ].
    replace (Z.pred (Z.of_nat (S n))) with (Z.of_nat n) in Hf by lia.
    eapply IH in Hf; [ exact Hf | lia | ].
    replace (Z.succ first - 1) with first by lia. exact Hstage.
Qed.

(** X16. Lines 124-135 and 448-458: provided the resize returns a grid of the
    size it is asked for, the grid of the model returned by a run of at least
    one stage has the resolution of entry [num_stages - 1] of the list that
    [compute_thre3d_grid_sizes] returned for the resolution of the model
    passed in -- whether or not that entry is the resolution passed in. *)
Theorem returned_grid_has_last_computed_size (w w' : World) (r : loc) :
  train_sh_vox_grid_vol_mod_with_posed_images vol_mod a w = (w', inr r) ->
  1 <= num_stages a ->
  exists g0 sizes,
    current_grid vol_mod w = Some g0
    /\ compute_thre3d_grid_sizes (grid_dims g0) (num_stages a) (scale_factor a)
       = inr sizes
    /\ grid_at_size r sizes (num_stages a - 1) w'.
Proof.
  unfold train_sh_vox_grid_vol_mod_with_posed_images. intros Ht Hs.
  apply bind_inr in Ht as (s & w1 & H1 & Ht).
  apply initialize_grid in H1 as (g0 & Hg0 & Hsizes & Hinv).
  apply bind_inr in Ht as (u & w2 & H2 & Ht).
  apply bind_inr in Ht as (m & w3 & H3 & Ht). apply read_model_inr in H3 as [-> _].
  apply bind_inr in Ht as (u4 & w4 & H4 & Ht). injection H4 as <-.
  injection Ht as <- <-.
  exists g0, (stagewise_voxel_grid_sizes s).
  split; [ exact Hg0 | ]. split; [ exact Hsizes | ].
  unfold for_each, range1 in H2.
  rewrite <- (Z2Nat.id (num_stages a)) in H2 at 1 by lia.
  apply stages_grid_at_size in H2.
  - destruct H2 as (g & size & Hg & Hsize & Hdims). exists g, size. auto.
  - rewrite Z2Nat.id by lia. lia.
  - rewrite Z.min_l by lia. exact Hinv.
Qed.

End Resolution.

Section FileNames.
Context `{Collaborators}.

Lemma pretty_N_go_char_free c :
  (forall d, pretty_N_char d <> c) ->
  forall x s, char_free c s -> char_free c (pretty_N_go x s).
Proof.
  intros Hc x. induction (N.lt_wf_0 x) as [x _ IH]. intros s Hs.
  destruct (decide (x = 0)%N) as [-> | Hx].
  - rewrite pretty_N_go_0. exact Hs.
  - rewrite pretty_N_go_step by lia. apply IH.
    + apply N.div_lt; lia.
    + split; [ apply Hc | exact Hs ].
Qed.

Lemma pretty_N_char_free c (x : N) :
  (forall d, pretty_N_char d <> c) -> char_free c (pretty x).
Proof.
  intros Hc. unfold pretty, pretty_N. destruct (decide (x = 0)%N).
  - split; [ apply (Hc 0%N) | exact I ].
  - apply pretty_N_go_char_free; [ exact Hc | exact I ].
Qed.

Lemma pretty_Z_char_free c (z : Z) :
  (forall d, pretty_N_char d <> c) -> c <> "-"%char -> char_free c (pretty z).
Proof.
  intros Hc Hdash. destruct z as [| x | x].
  - split; [ apply (Hc 0%N) | exact I ].
  - apply (pretty_N_char_free c (N.pos x) Hc).
  - split; [ congruence | apply (pretty_N_char_free c (N.pos x) Hc) ].
Qed.

Lemma digit_not_underscore d : pretty_N_char d <> "_"%char.
Proof. unfold pretty_N_char. repeat case_match; discriminate. Qed.

Lemma digit_not_dot d : pretty_N_char d <> "."%char.
Proof. unfold pretty_N_char. repeat case_match; discriminate. Qed.

(** A text is cut in one way only at the first occurrence of a character. *)
Lemma cut_at_first c (p1 p2 r1 r2 : string) :
  char_free c p1 -> char_free c p2 ->
  p1 +:+ String c r1 = p2 +:+ String c r2 ->
  p1 = p2 /\ r1 = r2.
Proof.
  revert p2. induction p1 as [| x p1 IH]; intros [| y p2] H1 H2 Heq; cbn in *.
  - injection Heq as ->. auto.
  - injection Heq as <- _. destruct H2 as [H2 _]. congruence.
  - injection Heq as -> _. destruct H1 as [H1 _]. congruence.
  - injection Heq as -> Heq. destruct H1 as [_ H1], H2 as [_ H2].
    destruct (IH p2 H1 H2 Heq) as [-> ->]. auto.
Qed.

(** The name of a snapshot tells its stage and its global step. *)
Lemma snapshot_file_inj stage1 g1 stage2 g2 :
  snapshot_file stage1 g1 = snapshot_file stage2 g2 -> stage1 = stage2 /\ g1 = g2.
Proof.
  unfold snapshot_file. intros Heq.
  change ("model_stage_" +:+ ?x) with
    (String "m" (String "o" (String "d" (String "e" (String "l" (String "_"
      (String "s" (String "t" (String "a" (String "g" (String "e" (String "_"
        x)))))))))))) in Heq.
  injection Heq as Heq.
  change ("_iter_" +:+ ?x) with (String "_" ("iter_" +:+ x)) in Heq.
  apply cut_at_first in Heq as [Hstage Heq];
    [ | apply pretty_Z_char_free; [ apply digit_not_underscore | discriminate ].. ].
  apply (inj pretty) in Hstage. split; [ exact Hstage | ].
  change ("iter_" +:+ ?x) with
    (String "i" (String "t" (String "e" (String "r" (String "_" x))))) in Heq.
  injection Heq as Heq.
  change ".pth" with (String "." "pth") in Heq.
  apply cut_at_first in Heq as [Hg _];
    [ | apply pretty_Z_char_free; [ apply digit_not_dot | discriminate ].. ].
  apply (inj pretty) in Hg. exact Hg.
Qed.

Lemma NoDup_flat_map {A B} (f : A -> list B) (l : list A) :
  NoDup l ->
  (forall x, x ∈ l -> NoDup (f x)) ->
  (forall x y z, x ∈ l -> y ∈ l -> z ∈ f x -> z ∈ f y -> x = y) ->
  NoDup (flat_map f l).
Proof.
  induction 1 as [| x l Hx Hl IH]; intros Hf Hdisj; cbn.
  - constructor.
  - apply NoDup_app. split; [ apply Hf; left | ]. split.
    + intros z Hz Hin. apply elem_of_flat_map in Hin as (y & Hy & Hzy).
      assert (x = y) as <- by (eapply Hdisj; eauto; [ left | right; exact Hy ]).
      contradiction.
    + apply IH.
      * intros y Hy. apply Hf. right. exact Hy.
      * intros y y' z Hy Hy'. apply Hdisj; right; assumption.
Qed.

Lemma elem_of_saved_files_iteration a stage i file :
  file ∈ saved_files (schedule_iteration a stage i) ->
  file = snapshot_file stage (global_step_of a stage i).
Proof.
  rewrite saved_files_iteration. case_match; intros Hin.
  - apply list_elem_of_singleton in Hin. exact Hin.
  - apply elem_of_nil in Hin. contradiction.
Qed.

Lemma saved_files_distinct a sizes : NoDup (saved_files (schedule a sizes)).
Proof.
  rewrite saved_files_schedule. apply NoDup_app. split; [ | split ].
  - apply NoDup_flat_map.
    + apply NoDup_seqZ.
    + intros stage _. apply NoDup_flat_map.
      * apply NoDup_seqZ.
      * intros i _. rewrite saved_files_iteration.
        case_match; [ apply NoDup_singleton | constructor ].
      * intros i i' file _ _ Hi Hi'.
        apply elem_of_saved_files_iteration in Hi, Hi'. rewrite Hi in Hi'.
        apply snapshot_file_inj in Hi' as [_ Hg]. unfold global_step_of in Hg. lia.
    + intros stage stage' file _ _ Hin Hin'.
      apply elem_of_flat_map in Hin as (i & _ & Hi).
      apply elem_of_flat_map in Hin' as (i' & _ & Hi').
      apply elem_of_saved_files_iteration in Hi, Hi'. rewrite Hi in Hi'.
      apply snapshot_file_inj in Hi' as [Hstage _]. exact Hstage.
  - intros file Hin Hfinal. apply list_elem_of_singleton in Hfinal. subst file.
    apply elem_of_flat_map in Hin as (stage & _ & Hin).
    apply elem_of_flat_map in Hin as (i & _ & Hin).
    apply elem_of_saved_files_iteration in Hin.
    symmetry in Hin. exact (snapshot_file_not_final _ _ Hin).
  - apply NoDup_singleton.
Qed.

(** X17. Lines 428-446 and 461-472: in a run that completes no file name is
    given to [torch.save] twice: every snapshot has a name of its own, which
    tells its stage and its global step, and none is [model_final.pth]. *)
Theorem no_snapshot_is_overwritten
    (a : TrainArgs) (vol_mod : loc) (w w' : World) (r : loc) :
  train_sh_vox_grid_vol_mod_with_posed_images vol_mod a w = (w', inr r) ->
  exists cs,
    calls w' = calls w ++ cs
    /\ NoDup (saved_files cs)
    /\ forall stage1 g1 stage2 g2,
         snapshot_file stage1 g1 = snapshot_file stage2 g2 ->
         stage1 = stage2 /\ g1 = g2.
Proof.
  intros Hrun. apply train_schedule in Hrun as (w1 & s & _ & Hcalls).
  exists (schedule a (stagewise_voxel_grid_sizes s)).
  split; [ exact Hcalls | ]. split; [ apply saved_files_distinct | ].
  apply snapshot_file_inj.
Qed.

End FileNames.

Section DiffuseRegularization.
Context `{Collaborators}.

Lemma summaries_with_diffuse a m rays_batch pixels_batch q name value :
  apply_diffuse_render_regularization a = true ->
  (name, Some value) ∈ summaries (compute_losses a m rays_batch pixels_batch) q ->
  let specular := l1_loss (render_rays m rays_batch false) pixels_batch in
  let diffuse := l1_loss (render_rays m rays_batch true) pixels_batch in
  (name = "specular_loss" /\ value = TensorValue specular)
  \/ (name = "diffuse_loss" /\ value = TensorValue diffuse)
  \/ (name = "specular_psnr"
      /\ value = TensorValue
                   (mse2psnr (mse_loss (render_rays m rays_batch false) pixels_batch)))
  \/ (name = "diffuse_psnr"
      /\ value = TensorValue
                   (mse2psnr (mse_loss (render_rays m rays_batch true) pixels_batch)))
  \/ (name = "total_loss" /\ value = TensorValue (tensor_add specular diffuse))
  \/ (name = "num_epochs" /\ value = Quotient (fst q) (snd q)).
Proof.
  intros Hd Hin. unfold compute_losses in Hin. rewrite Hd in Hin.
  unfold summaries in Hin. cbn in Hin.
  repeat (apply elem_of_cons in Hin as [Hin | Hin]);
    [ .. | apply elem_of_nil in Hin; contradiction ];
    inversion Hin; subst; auto 10.
Qed.

Lemma global_step_of_inj a stage i stage' i' :
  i ∈ range1 (num_iterations_per_stage a) ->
  i' ∈ range1 (num_iterations_per_stage a) ->
  global_step_of a stage i = global_step_of a stage' i' ->
  stage = stage' /\ i = i'.
Proof.
  unfold range1, global_step_of. intros Hi Hi' Heq.
  apply elem_of_seqZ in Hi, Hi'.
  assert (stage = stage') as -> by nia. split; [ reflexivity | lia ].
Qed.

(** X18. Lines 300-336 and 349-360: with the diffuse regularization, in any
    run, completed or not, the loss that a gradient step minimises is the
    sum of the specular and the diffuse L1 loss of one batch, and what the
    same iteration writes to tensorboard is computed from that same batch:
    under [total_loss] the very tensor that the step minimised, under
    [specular_loss] the specular loss alone and under [diffuse_loss] the
    diffuse loss alone. *)
Theorem diffuse_regularization_adds_the_diffuse_loss
    (a : TrainArgs) (vol_mod : loc) (w : World) :
  apply_diffuse_render_regularization a = true ->
  exists evs,
    trace (fst (train_sh_vox_grid_vol_mod_with_posed_images vol_mod a w))
    = trace w ++ evs
    /\ forall stage i objective,
         EvOptimizerStep stage i objective ∈ evs ->
         exists m rays_batch pixels_batch,
           let specular := l1_loss (render_rays m rays_batch false) pixels_batch in
           let diffuse := l1_loss (render_rays m rays_batch true) pixels_batch in
           objective = tensor_add specular diffuse
           /\ forall name value,
                EvAddScalar name value (global_step_of a stage i) ∈ evs ->
                (name = "total_loss" -> value = TensorValue objective)
                /\ (name = "specular_loss" -> value = TensorValue specular)
                /\ (name = "diffuse_loss" -> value = TensorValue diffuse).
Proof.
  intros Hd. destruct (train_reports a vol_mod w) as (evs & L & Htrace & Hall).
  exists evs. split; [ exact Htrace | ].
  rewrite Forall_forall in Hall.
  intros stage i objective Hstep. pose proof (Hall _ Hstep) as Hs. cbn in Hs.
  destruct Hs as (Hk & m & rays_batch & pixels_batch & HL & ->).
  apply run_key_true in Hk as [_ Hi].
  exists m, rays_batch, pixels_batch. cbv zeta. split.
  { unfold compute_losses. rewrite Hd. reflexivity. }
  intros name value Hscalar. apply Hall in Hscalar. cbn in Hscalar.
  destruct Hscalar as (stage' & i' & l & q & Hk' & Hg & HL' & Hin).
  apply run_key_true in Hk' as [_ Hi'].
  apply global_step_of_inj in Hg as [<- <-]; [ | assumption.. ].
  rewrite HL in HL'. injection HL' as <-.
  apply (summaries_with_diffuse _ _ _ _ _ _ _ Hd) in Hin.
  assert (total_loss (compute_losses a m rays_batch pixels_batch)
          = tensor_add (l1_loss (render_rays m rays_batch false) pixels_batch)
                       (l1_loss (render_rays m rays_batch true) pixels_batch)) as ->
    by (unfold compute_losses; rewrite Hd; reflexivity).
  cbv zeta in Hin.
  destruct Hin as [[-> ->] | [[-> ->] | [[-> ->] | [[-> ->] | [[-> ->] | [-> ->]]]]]];
    repeat split; intros; try discriminate; reflexivity.
Qed.

End DiffuseRegularization.

(** * The claims on the small instance *)

Import Toy.

(** C1 on the code: the assertion of lines 240-242 tests the truth value of
    what [parameters()] returns, not whether it is empty.  When that is a
    generator that yields nothing, the assertion passes: no assertion error
    is raised, the optimizer of stage 1 is built on the empty set, and the
    procedure goes on to the gradient step of the first iteration. *)
Theorem empty_parameter_generator_reaches_adam :
  (forall g, @parameter_list _ generator_collaborators
               (@parameters _ generator_collaborators g) = [])
  /\ (forall msg, snd (generator_run two_stages) <> inl (AssertionError msg))
  /\ In (EvAdam 1 [] 0.25) (trace (fst (generator_run two_stages)))
  /\ In (COptimizerStep 1 1) (calls (fst (generator_run two_stages))).
Proof.
  split; [ reflexivity | ].
  split; [ intros msg; vm_compute; discriminate | ].
  split; [ vm_compute; tauto | ].
  vm_compute. tauto.
Qed.

Lemma global_step_counts_iterations_witness :
  exists sizes,
    calls (fst (toy_run two_stages)) = calls toy_world ++ schedule two_stages sizes
    /\ optimizer_steps (schedule two_stages sizes)
       = [(1, 1); (1, 2); (1, 3); (2, 1); (2, 2); (2, 3)]
    /\ iteration_clock two_stages (schedule two_stages sizes) = [1; 2; 3; 4; 5; 6]
    /\ forall stage i,
         Forall (keyed_by two_stages stage i) (schedule_iteration two_stages stage i).
Proof.
  eapply proj1.
  apply (global_step_counts_iterations two_stages 1%positive toy_world
           (fst (toy_run two_stages)) 1%positive).
  - vm_compute. reflexivity.
  - vm_compute. discriminate.
  - vm_compute. discriminate.
Defined.

(** C3 on the code: one hundred images of 2 x 2 pixels are 400 pixels, but
    with batches of 8 images the divisor of [num_epochs] is [(100 // 8) * 2 *
    2 = 48]: at global step 1, with 4 rays per batch, the procedure writes
    [4 / 48] where the number of epochs is [4 / 400]. *)
Theorem num_epochs_divides_by_batches_not_images :
  Z.of_nat (length (samples (train_dataset two_stages)))
  * height (camera_intrinsics (train_dataset two_stages))
  * width (camera_intrinsics (train_dataset two_stages)) = 400
  /\ ray_batch_size two_stages = 4
  /\ In (EvAddScalar "num_epochs" (Quotient 4 48) 1) (trace (fst (toy_run two_stages))).
Proof.
  split; [ reflexivity | ]. split; [ reflexivity | ].
  vm_compute. tauto.
Qed.

Lemma scenario_one_stage_five_iterations_witness :
  exists cs,
    calls (fst (toy_run scenario_A)) = calls toy_world ++ cs
    /\ loss_info_steps cs = [1; 2; 3; 4; 5]
    /\ scalar_steps "total_loss" cs = [1; 2; 3; 4; 5]
    /\ saved_files cs
       = ["model_stage_1_iter_1.pth"; "model_stage_1_iter_5.pth"; "model_final.pth"].
Proof.
  apply (scenario_one_stage_five_iterations scenario_A 1%positive toy_world
           (fst (toy_run scenario_A)) 1%positive).
  - reflexivity.
  - reflexivity.
  - reflexivity.
  - reflexivity.
  - vm_compute. reflexivity.
Defined.

Lemma scenario_without_diffuse_regularization_witness :
  exists evs,
    trace (fst (toy_run two_stages)) = trace toy_world ++ evs
    /\ (forall name value g,
          EvAddScalar name value g ∈ evs ->
          name <> "diffuse_loss" /\ name <> "diffuse_psnr")
    /\ (forall value g,
          EvAddScalar "total_loss" value g ∈ evs ->
          exists m rays_batch pixels_batch,
            value = TensorValue (l1_loss (render_rays m rays_batch false) pixels_batch))
    /\ (forall stage i objective,
          EvOptimizerStep stage i objective ∈ evs ->
          exists m rays_batch pixels_batch,
            objective = l1_loss (render_rays m rays_batch false) pixels_batch).
Proof.
  apply (scenario_without_diffuse_regularization two_stages 1%positive toy_world).
  reflexivity.
Defined.

Lemma fast_debug_mode_skips_evaluation_witness :
  is_Some (test_dataset scenario_C)
  /\ exists evs,
       trace (fst (toy_run scenario_C)) = trace toy_world ++ evs
       /\ (forall g, EvTest g ∉ evs)
       /\ EvVisualizeCameraRays ∉ evs.
Proof.
  split; [ eexists; reflexivity | ].
  apply (fast_debug_mode_skips_evaluation scenario_C 1%positive toy_world).
  reflexivity.
Defined.

(** C8 as stated fails: with the diffuse regularization switched off, the
    feedback of global step 1 is still requested with
    [log_diffuse_rendered_version=True]. *)
Lemma feedback_logs_diffuse_version_without_regularization :
  apply_diffuse_render_regularization two_stages = false
  /\ In (EvRenderedFeedback 3 1 true) (trace (fst (toy_run two_stages))).
Proof.
  split; [ reflexivity | ]. vm_compute. tauto.
Qed.

Lemma resize_only_between_stages_witness :
  exists s : Setup,
    calls (fst (toy_run two_stages))
    = calls toy_world ++ schedule two_stages (stagewise_voxel_grid_sizes s)
    /\ grid_calls (schedule two_stages (stagewise_voxel_grid_sizes s))
       = schedule_scale (stagewise_voxel_grid_sizes s) 0
         ++ [CRandomInit "densities"; CRandomInit "features"]
         ++ flat_map (fun stage =>
                        if stage =? num_stages two_stages then []
                        else schedule_scale (stagewise_voxel_grid_sizes s) stage)
                     (range1 (num_stages two_stages)).
Proof.
  destruct (resize_only_between_stages two_stages 1%positive toy_world
              (fst (toy_run two_stages)) 1%positive)
    as (s & Hcalls & Hgrid & _).
  - vm_compute. reflexivity.
  - exists s. split; assumption.
Defined.

Example two_stages_grid_calls :
  grid_calls (calls (fst (toy_run two_stages)))
  = [CScaleGrid (4, 4, 4) "trilinear";
     CRandomInit "densities"; CRandomInit "features";
     CScaleGrid (8, 8, 8) "trilinear"].
Proof. vm_compute. reflexivity. Qed.


(** ** The further properties on the small instance *)

Lemma unfit_model_is_refused_witness :
  exists msg,
    train_sh_vox_grid_vol_mod_with_posed_images 1%positive two_stages unfit_world
    = (unfit_world, inl (AssertionError msg)).
Proof.
  apply (unfit_model_is_refused two_stages 1%positive unfit_world unfit_model).
  - vm_compute. reflexivity.
  - left. reflexivity.
Defined.

Lemma grid_sizes_failure_leaves_the_model_witness :
  toy_run no_stages = (toy_world, inl ValueError).
Proof.
  eapply (grid_sizes_failure_leaves_the_model no_stages 1%positive toy_world).
  - vm_compute. reflexivity.
  - reflexivity.
Defined.

Lemma no_test_dataset_no_test_witness :
  exists evs,
    trace (fst (toy_run without_test_dataset)) = trace toy_world ++ evs
    /\ forall g, EvTest g ∉ evs.
Proof.
  apply (no_test_dataset_no_test without_test_dataset 1%positive toy_world).
  reflexivity.
Defined.

Lemma supplied_feedback_pose_is_used_witness :
  exists evs,
    trace (fst (toy_run with_feedback_pose)) = trace toy_world ++ evs
    /\ (forall pose g d, EvRenderedFeedback pose g d ∈ evs -> pose = 9)
    /\ forall name, EvWriteImage name ∉ evs.
Proof.
  apply (supplied_feedback_pose_is_used with_feedback_pose 1%positive toy_world 9).
  reflexivity.
Defined.

Lemma derived_feedback_pose_is_first_sample_witness :
  exists evs,
    trace (fst (toy_run two_stages)) = trace toy_world ++ evs
    /\ forall pose g d, EvRenderedFeedback pose g d ∈ evs -> pose = camera_pose_of 3.
Proof.
  apply (derived_feedback_pose_is_first_sample two_stages 1%positive toy_world
           7 3 (replicate 99 (7, 3))).
  - reflexivity.
  - reflexivity.
Defined.

Lemma final_model_is_the_model_returned_witness :
  exists evs m,
    trace (fst (toy_run two_stages))
    = trace toy_world ++ evs ++ [EvTorchSave "model_final.pth" m]
    /\ (forall m', EvTorchSave "model_final.pth" m' ∉ evs)
    /\ heap (fst (toy_run two_stages)) !! 1%positive = Some m.
Proof.
  apply (final_model_is_the_model_returned two_stages 1%positive toy_world
           (fst (toy_run two_stages)) 1%positive).
  vm_compute. reflexivity.
Defined.

Lemma completed_run_has_nonzero_frequencies_witness :
  summary_freq two_stages <> 0
  /\ lr_decay_steps_per_stage two_stages <> 0
  /\ feedback_freq two_stages <> 0
  /\ save_freq two_stages <> 0
  /\ (is_Some (test_dataset two_stages) ->
      fast_debug_mode two_stages = false -> test_freq two_stages <> 0).
Proof.
  apply (completed_run_has_nonzero_frequencies two_stages 1%positive toy_world
           (fst (toy_run two_stages)) 1%positive).
  - vm_compute. reflexivity.
  - vm_compute. discriminate.
  - vm_compute. discriminate.
Defined.

Lemma zero_summary_freq_raises_witness :
  exists w',
    toy_run zero_summary_freq = (w', inl ZeroDivisionError)
    /\ calls w'
       = calls (fst (initialize zero_summary_freq 1%positive toy_world))
         ++ [CAdam 1; COptimizerStep 1 1].
Proof.
  eapply (zero_summary_freq_raises zero_summary_freq 1%positive toy_world
            (fst (initialize zero_summary_freq 1%positive toy_world))).
  - vm_compute. reflexivity.
  - vm_compute. reflexivity.
  - reflexivity.
  - reflexivity.
  - vm_compute. discriminate.
  - vm_compute. discriminate.
  - reflexivity.
Defined.

Lemma lr_scheduler_cadence_witness :
  exists cs,
    calls (fst (toy_run two_stages)) = calls toy_world ++ cs
    /\ forall stage i,
         CLrSchedulerStep stage i ∈ cs <->
         stage ∈ range1 (num_stages two_stages)
         /\ i ∈ range1 (num_iterations_per_stage two_stages)
         /\ i mod lr_decay_steps_per_stage two_stages = 0.
Proof.
  apply (lr_scheduler_cadence two_stages 1%positive toy_world
           (fst (toy_run two_stages)) 1%positive).
  vm_compute. reflexivity.
Defined.

Lemma test_cadence_witness :
  exists cs,
    calls (fst (toy_run two_stages)) = calls toy_world ++ cs
    /\ forall g,
         CTest g ∈ cs <->
         is_Some (test_dataset two_stages)
         /\ fast_debug_mode two_stages = false
         /\ exists stage i,
              stage ∈ range1 (num_stages two_stages)
              /\ i ∈ range1 (num_iterations_per_stage two_stages)
              /\ g = global_step_of two_stages stage i
              /\ (g mod test_freq two_stages = 0
                  \/ i = num_iterations_per_stage two_stages).
Proof.
  apply (test_cadence two_stages 1%positive toy_world
           (fst (toy_run two_stages)) 1%positive).
  vm_compute. reflexivity.
Defined.

Lemma snapshot_cadence_witness :
  exists cs,
    calls (fst (toy_run scenario_A)) = calls toy_world ++ cs
    /\ forall file,
         CTorchSave file ∈ cs <->
         file = "model_final.pth"
         \/ exists stage i,
              stage ∈ range1 (num_stages scenario_A)
              /\ i ∈ range1 (num_iterations_per_stage scenario_A)
              /\ file = snapshot_file stage (global_step_of scenario_A stage i)
              /\ (global_step_of scenario_A stage i mod save_freq scenario_A = 0
                  \/ i = 1 \/ i = num_iterations_per_stage scenario_A).
Proof.
  apply (snapshot_cadence scenario_A 1%positive toy_world
           (fst (toy_run scenario_A)) 1%positive).
  vm_compute. reflexivity.
Defined.

Lemma feedback_cadence_witness :
  exists cs,
    calls (fst (toy_run scenario_A)) = calls toy_world ++ cs
    /\ forall g d,
         CRenderedFeedback g d ∈ cs <->
         d = true
         /\ exists stage i,
              stage ∈ range1 (num_stages scenario_A)
              /\ i ∈ range1 (num_iterations_per_stage scenario_A)
              /\ g = global_step_of scenario_A stage i
              /\ (g mod feedback_freq scenario_A = 0
                  \/ i = 1 \/ i = num_iterations_per_stage scenario_A).
Proof.
  apply (feedback_cadence scenario_A 1%positive toy_world
           (fst (toy_run scenario_A)) 1%positive).
  vm_compute. reflexivity.
Defined.

Lemma summary_cadence_witness :
  exists cs,
    calls (fst (toy_run scenario_C)) = calls toy_world ++ cs
    /\ (forall stage g i d,
          CLossInfo stage g i d ∈ cs <->
          stage ∈ range1 (num_stages scenario_C)
          /\ i ∈ range1 (num_iterations_per_stage scenario_C)
          /\ g = global_step_of scenario_C stage i
          /\ d = apply_diffuse_render_regularization scenario_C
          /\ (g mod summary_freq scenario_C = 0
              \/ i = 1 \/ i = num_iterations_per_stage scenario_C))
    /\ (forall name g,
          CAddScalar name g ∈ cs <->
          name ∈ scalar_names scenario_C
          /\ exists stage i,
               CLossInfo stage g i (apply_diffuse_render_regularization scenario_C) ∈ cs).
Proof.
  apply (summary_cadence scenario_C 1%positive toy_world
           (fst (toy_run scenario_C)) 1%positive).
  vm_compute. reflexivity.
Defined.

Lemma one_optimizer_per_stage_witness :
  exists evs,
    trace (fst (toy_run two_stages)) = trace toy_world ++ evs
    /\ optimizers_built evs
       = map (fun stage => (stage, current_stage_lr two_stages stage))
             (range1 (num_stages two_stages)).
Proof.
  apply (one_optimizer_per_stage two_stages 1%positive toy_world
           (fst (toy_run two_stages)) 1%positive).
  vm_compute. reflexivity.
Defined.

Lemma returned_grid_has_last_computed_size_witness :
  exists g0 sizes,
    current_grid 1%positive toy_world = Some g0
    /\ compute_thre3d_grid_sizes (grid_dims g0) (num_stages two_stages)
         (scale_factor two_stages) = inr sizes
    /\ grid_at_size 1%positive sizes (num_stages two_stages - 1)
                    (fst (toy_run two_stages)).
Proof.
  apply (returned_grid_has_last_computed_size two_stages 1%positive).
  - intros g size mode. reflexivity.
  - vm_compute. reflexivity.
  - vm_compute. discriminate.
Defined.

Lemma no_snapshot_is_overwritten_witness :
  exists cs,
    calls (fst (toy_run two_stages)) = calls toy_world ++ cs
    /\ NoDup (saved_files cs)
    /\ forall stage1 g1 stage2 g2,
         snapshot_file stage1 g1 = snapshot_file stage2 g2 ->
         stage1 = stage2 /\ g1 = g2.
Proof.
  apply (no_snapshot_is_overwritten two_stages 1%positive toy_world
           (fst (toy_run two_stages)) 1%positive).
  vm_compute. reflexivity.
Defined.

Lemma diffuse_regularization_adds_the_diffuse_loss_witness :
  exists evs,
    trace (fst (toy_run scenario_C)) = trace toy_world ++ evs
    /\ forall stage i objective,
         EvOptimizerStep stage i objective ∈ evs ->
         exists m rays_batch pixels_batch,
           let specular := l1_loss (render_rays m rays_batch false) pixels_batch in
           let diffuse := l1_loss (render_rays m rays_batch true) pixels_batch in
           objective = tensor_add specular diffuse
           /\ forall name value,
                EvAddScalar name value (global_step_of scenario_C stage i) ∈ evs ->
                (name = "total_loss" -> value = TensorValue objective)
                /\ (name = "specular_loss" -> value = TensorValue specular)
                /\ (name = "diffuse_loss" -> value = TensorValue diffuse).
Proof.
  apply (diffuse_regularization_adds_the_diffuse_loss scenario_C 1%positive toy_world).
  reflexivity.
Defined.
